(** * Ledger, settlement and statement ingestion of the finance bot

    A shallow embedding of [finance.py] (balance netting, settlement
    planning, CSV ingestion), of the debt and transaction operations of
    [database.py], and of the import classification of [bot.py].

    Amounts are Python floats.  The algorithms are written over an
    interface [Number] holding exactly the float operations the sources
    use; its instance [binary64] is IEEE 754 double precision, through the
    executable specification [SpecFloat] of the standard library.  This is
    the arithmetic the program runs on. *)

From Stdlib Require Import ZArith Lia Bool Ascii String DecimalString SpecFloat.
From Stdlib Require Import Sorted Permutation.
From stdpp Require Import base list strings.

Local Open Scope Z_scope.

(** ** The numeric interface *)

Class Number (A : Type) := {
  nzero  : A;                 (* the literal 0 / 0.0 *)
  ncent  : A;                 (* the literal 0.01 *)
  nadd   : A -> A -> A;       (* x + y *)
  nsub   : A -> A -> A;       (* x - y *)
  nneg   : A -> A;            (* -x *)
  nabs   : A -> A;            (* abs(x) *)
  nround2 : A -> A;           (* round(x, 2) *)
  neqb   : A -> A -> bool;    (* x == y *)
  nltb   : A -> A -> bool;    (* x < y *)
  nleb   : A -> A -> bool;    (* x <= y *)
}.

(** Python writes [x > y] and [x >= y]; on floats they are [y < x] and
    [y <= x] (both false as soon as one side is a NaN). *)
Definition ngtb {A} `{Number A} (x y : A) : bool := nltb y x.
Definition ngeb {A} `{Number A} (x y : A) : bool := nleb y x.

(** [min(a, b)] returns [a] unless [b < a]. *)
Definition nmin {A} `{Number A} (a b : A) : A := if nltb b a then b else a.

(** ** Doubles *)

Module B64.

Definition prec : Z := 53.
Definition emax : Z := 1024.

Definition add := SFadd prec emax.
Definition sub := SFsub prec emax.

(** The double nearest to [(-1)^s * n / 10^k]: what [float()] returns for
    a decimal numeral with digits [n] and [k] digits after the point.
    The quotient is rounded once, to nearest with ties to even. *)
Definition of_decimal (s : bool) (n : N) (k : N) : spec_float :=
  match n with
  | N0 => S754_zero s
  | Npos p =>
      let '(mz, ez, lz) :=
        SFdiv_core_binary prec emax (Zpos p) 0 (Z.pow 10 (Z.of_N k)) 0 in
      binary_round_aux prec emax s mz ez lz
  end.

(** The integer nearest to [num / den], ties to the even one
    ([den] positive). *)
Definition round_half_even (num den : Z) : Z :=
  let q := Z.div num den in
  let r := Z.modulo num den in
  match Z.compare (2 * r) den with
  | Lt => q
  | Gt => q + 1
  | Eq => if Z.even q then q else q + 1
  end.

(** [round(x, 2)]: the decimal with two places nearest to the exact value
    of [x] (ties to the even hundredth), converted back to the nearest
    double.  Infinities and NaN are returned as they are.  A double with
    a non-negative exponent is an integer and is its own result. *)
Definition round2 (x : spec_float) : spec_float :=
  match x with
  | S754_finite s m e =>
      if Z.leb 0 e then x
      else of_decimal s (Z.to_N (round_half_even (100 * Zpos m) (Z.pow 2 (- e)))) 2
  | _ => x
  end.

End B64.

#[export] Instance binary64 : Number spec_float := {
  nzero := S754_zero false;
  ncent := B64.of_decimal false 1 2;
  nadd := B64.add;
  nsub := B64.sub;
  nneg := SFopp;
  nabs := SFabs;
  nround2 := B64.round2;
  neqb := SFeqb;
  nltb := SFltb;
  nleb := SFleb;
}.

(** ** Text

    A Python [str] is a sequence of code points.  The model holds a text as
    its UTF-8 bytes in a [string], which keeps equality, the substring test
    and the order of two texts as Python has them on code points; the [str]
    methods are defined on the code points and carried over by [on_points]. *)

Module Utf8.

(** The code points a [str] can hold. *)
Definition scalar (c : Z) : bool := (0 <=? c) && (c <? 1114112).

(** A byte that is part of no well-formed sequence is kept as a value above
    every code point. *)
Definition raw (b : Z) : Z := 1114112 + b.

Definition continuation (b : Z) : bool := (128 <=? b) && (b <? 192).

Definition point2 (b0 b1 : Z) : Z := (b0 - 192) * 64 + (b1 - 128).
Definition point3 (b0 b1 b2 : Z) : Z :=
  (b0 - 224) * 4096 + (b1 - 128) * 64 + (b2 - 128).
Definition point4 (b0 b1 b2 b3 : Z) : Z :=
  (b0 - 240) * 262144 + (b1 - 128) * 4096 + (b2 - 128) * 64 + (b3 - 128).

(** Well-formed sequences of two, three and four bytes: the shortest form of
    their code point. *)
Definition two (b0 b1 : Z) : bool :=
  (194 <=? b0) && (b0 <? 224) && continuation b1.
Definition three (b0 b1 b2 : Z) : bool :=
  (224 <=? b0) && (b0 <? 240) && continuation b1 && continuation b2
  && (2048 <=? point3 b0 b1 b2).
Definition four (b0 b1 b2 b3 : Z) : bool :=
  (240 <=? b0) && (b0 <? 245) && continuation b1 && continuation b2
  && continuation b3 && (65536 <=? point4 b0 b1 b2 b3)
  && (point4 b0 b1 b2 b3 <? 1114112).

Fixpoint decode (bs : list Z) : list Z :=
  match bs with
  | [] => []
  | b0 :: r0 =>
      if b0 <? 128 then b0 :: decode r0
      else
        match r0 with
        | b1 :: r1 =>
            if two b0 b1 then point2 b0 b1 :: decode r1
            else
              match r1 with
              | b2 :: r2 =>
                  if three b0 b1 b2 then point3 b0 b1 b2 :: decode r2
                  else
                    match r2 with
                    | b3 :: r3 =>
                        if four b0 b1 b2 b3
                        then point4 b0 b1 b2 b3 :: decode r3
                        else raw b0 :: decode r0
                    | [] => raw b0 :: decode r0
                    end
              | [] => raw b0 :: decode r0
              end
        | [] => raw b0 :: decode r0
        end
  end.

Definition encode (c : Z) : list Z :=
  if c <? 128 then [c]
  else if c <? 2048 then [192 + c / 64; 128 + c mod 64]
  else if c <? 65536 then
    [224 + c / 4096; 128 + (c / 64) mod 64; 128 + c mod 64]
  else if c <? 1114112 then
    [240 + c / 262144; 128 + (c / 4096) mod 64; 128 + (c / 64) mod 64;
     128 + c mod 64]
  else [c - 1114112].

Definition byte_of (a : ascii) : Z := Z.of_N (N_of_ascii a).
Definition ascii_of (b : Z) : ascii := ascii_of_N (Z.to_N b).

Definition bytes (s : string) : list Z := map byte_of (list_ascii_of_string s).
Definition text (bs : list Z) : string := string_of_list_ascii (map ascii_of bs).

Definition points (s : string) : list Z := decode (bytes s).
Definition of_points (l : list Z) : string := text (flat_map encode l).

End Utf8.

(** A [str] method that maps code points to code points.  A [string] that is
    not the UTF-8 form of a [str] stands for no text and is left alone. *)
Definition on_points (f : list Z -> list Z) (s : string) : string :=
  let l := Utf8.points s in
  if forallb Utf8.scalar l then Utf8.of_points (f l) else s.

(** The character tables of CPython 3.11 (Unicode 14.0). *)
Module Unicode.

Definition lower_runs : list (Z * Z * Z * Z) :=
  [(65, 90, 1, 32); (192, 214, 1, 32); (216, 222, 1, 32); (256, 302, 2, 1);
   (306, 310, 2, 1); (313, 327, 2, 1); (330, 374, 2, 1); (376, 376, 1, -121);
   (377, 381, 2, 1); (385, 385, 1, 210); (386, 388, 2, 1); (390, 390, 1, 206);
   (391, 391, 1, 1); (393, 394, 1, 205); (395, 395, 1, 1); (398, 398, 1, 79);
   (399, 399, 1, 202); (400, 400, 1, 203); (401, 401, 1, 1); (403, 403, 1, 205);
   (404, 404, 1, 207); (406, 406, 1, 211); (407, 407, 1, 209); (408, 408, 1, 1);
   (412, 412, 1, 211); (413, 413, 1, 213); (415, 415, 1, 214); (416, 420, 2, 1);
   (422, 422, 1, 218); (423, 423, 1, 1); (425, 425, 1, 218); (428, 428, 1, 1);
   (430, 430, 1, 218); (431, 431, 1, 1); (433, 434, 1, 217); (435, 437, 2, 1);
   (439, 439, 1, 219); (440, 440, 1, 1); (444, 444, 1, 1); (452, 452, 1, 2);
   (453, 453, 1, 1); (455, 455, 1, 2); (456, 456, 1, 1); (458, 458, 1, 2);
   (459, 475, 2, 1); (478, 494, 2, 1); (497, 497, 1, 2); (498, 500, 2, 1);
   (502, 502, 1, -97); (503, 503, 1, -56); (504, 542, 2, 1); (544, 544, 1, -130);
   (546, 562, 2, 1); (570, 570, 1, 10795); (571, 571, 1, 1); (573, 573, 1, -163);
   (574, 574, 1, 10792); (577, 577, 1, 1); (579, 579, 1, -195); (580, 580, 1, 69);
   (581, 581, 1, 71); (582, 590, 2, 1); (880, 882, 2, 1); (886, 886, 1, 1);
   (895, 895, 1, 116); (902, 902, 1, 38); (904, 906, 1, 37); (908, 908, 1, 64);
   (910, 911, 1, 63); (913, 929, 1, 32); (931, 939, 1, 32); (975, 975, 1, 8);
   (984, 1006, 2, 1); (1012, 1012, 1, -60); (1015, 1015, 1, 1); (1017, 1017, 1, -7);
   (1018, 1018, 1, 1); (1021, 1023, 1, -130); (1024, 1039, 1, 80); (1040, 1071, 1, 32);
   (1120, 1152, 2, 1); (1162, 1214, 2, 1); (1216, 1216, 1, 15); (1217, 1229, 2, 1);
   (1232, 1326, 2, 1); (1329, 1366, 1, 48); (4256, 4293, 1, 7264); (4295, 4295, 1, 7264);
   (4301, 4301, 1, 7264); (5024, 5103, 1, 38864); (5104, 5109, 1, 8); (7312, 7354, 1, -3008);
   (7357, 7359, 1, -3008); (7680, 7828, 2, 1); (7838, 7838, 1, -7615); (7840, 7934, 2, 1);
   (7944, 7951, 1, -8); (7960, 7965, 1, -8); (7976, 7983, 1, -8); (7992, 7999, 1, -8);
   (8008, 8013, 1, -8); (8025, 8031, 2, -8); (8040, 8047, 1, -8); (8072, 8079, 1, -8);
   (8088, 8095, 1, -8); (8104, 8111, 1, -8); (8120, 8121, 1, -8); (8122, 8123, 1, -74);
   (8124, 8124, 1, -9); (8136, 8139, 1, -86); (8140, 8140, 1, -9); (8152, 8153, 1, -8);
   (8154, 8155, 1, -100); (8168, 8169, 1, -8); (8170, 8171, 1, -112); (8172, 8172, 1, -7);
   (8184, 8185, 1, -128); (8186, 8187, 1, -126); (8188, 8188, 1, -9); (8486, 8486, 1, -7517);
   (8490, 8490, 1, -8383); (8491, 8491, 1, -8262); (8498, 8498, 1, 28); (8544, 8559, 1, 16);
   (8579, 8579, 1, 1); (9398, 9423, 1, 26); (11264, 11311, 1, 48); (11360, 11360, 1, 1);
   (11362, 11362, 1, -10743); (11363, 11363, 1, -3814); (11364, 11364, 1, -10727); (11367, 11371, 2, 1);
   (11373, 11373, 1, -10780); (11374, 11374, 1, -10749); (11375, 11375, 1, -10783); (11376, 11376, 1, -10782);
   (11378, 11378, 1, 1); (11381, 11381, 1, 1); (11390, 11391, 1, -10815); (11392, 11490, 2, 1);
   (11499, 11501, 2, 1); (11506, 11506, 1, 1); (42560, 42604, 2, 1); (42624, 42650, 2, 1);
   (42786, 42798, 2, 1); (42802, 42862, 2, 1); (42873, 42875, 2, 1); (42877, 42877, 1, -35332);
   (42878, 42886, 2, 1); (42891, 42891, 1, 1); (42893, 42893, 1, -42280); (42896, 42898, 2, 1);
   (42902, 42920, 2, 1); (42922, 42922, 1, -42308); (42923, 42923, 1, -42319); (42924, 42924, 1, -42315);
   (42925, 42925, 1, -42305); (42926, 42926, 1, -42308); (42928, 42928, 1, -42258); (42929, 42929, 1, -42282);
   (42930, 42930, 1, -42261); (42931, 42931, 1, 928); (42932, 42946, 2, 1); (42948, 42948, 1, -48);
   (42949, 42949, 1, -42307); (42950, 42950, 1, -35384); (42951, 42953, 2, 1); (42960, 42960, 1, 1);
   (42966, 42968, 2, 1); (42997, 42997, 1, 1); (65313, 65338, 1, 32); (66560, 66599, 1, 40);
   (66736, 66771, 1, 40); (66928, 66938, 1, 39); (66940, 66954, 1, 39); (66956, 66962, 1, 39);
   (66964, 66965, 1, 39); (68736, 68786, 1, 64); (71840, 71871, 1, 32); (93760, 93791, 1, 32);
   (125184, 125217, 1, 34)].

Definition cased_ranges : list (Z * Z) :=
  [(65, 90); (97, 122); (170, 170); (181, 181); (186, 186); (192, 214);
   (216, 246); (248, 442); (444, 447); (452, 659); (661, 687); (880, 883);
   (886, 887); (891, 893); (895, 895); (902, 902); (904, 906); (908, 908);
   (910, 929); (931, 1013); (1015, 1153); (1162, 1327); (1329, 1366); (1376, 1416);
   (4256, 4293); (4295, 4295); (4301, 4301); (4304, 4346); (4349, 4351); (5024, 5109);
   (5112, 5117); (7296, 7304); (7312, 7354); (7357, 7359); (7424, 7467); (7531, 7543);
   (7545, 7578); (7680, 7957); (7960, 7965); (7968, 8005); (8008, 8013); (8016, 8023);
   (8025, 8025); (8027, 8027); (8029, 8029); (8031, 8061); (8064, 8116); (8118, 8124);
   (8126, 8126); (8130, 8132); (8134, 8140); (8144, 8147); (8150, 8155); (8160, 8172);
   (8178, 8180); (8182, 8188); (8450, 8450); (8455, 8455); (8458, 8467); (8469, 8469);
   (8473, 8477); (8484, 8484); (8486, 8486); (8488, 8488); (8490, 8493); (8495, 8500);
   (8505, 8505); (8508, 8511); (8517, 8521); (8526, 8526); (8544, 8575); (8579, 8580);
   (9398, 9449); (11264, 11387); (11390, 11492); (11499, 11502); (11506, 11507); (11520, 11557);
   (11559, 11559); (11565, 11565); (42560, 42605); (42624, 42651); (42786, 42863); (42865, 42887);
   (42891, 42894); (42896, 42954); (42960, 42961); (42963, 42963); (42965, 42969); (42997, 42998);
   (43002, 43002); (43824, 43866); (43872, 43880); (43888, 43967); (64256, 64262); (64275, 64279);
   (65313, 65338); (65345, 65370); (66560, 66639); (66736, 66771); (66776, 66811); (66928, 66938);
   (66940, 66954); (66956, 66962); (66964, 66965); (66967, 66977); (66979, 66993); (66995, 67001);
   (67003, 67004); (68736, 68786); (68800, 68850); (71840, 71903); (93760, 93823); (119808, 119892);
   (119894, 119964); (119966, 119967); (119970, 119970); (119973, 119974); (119977, 119980); (119982, 119993);
   (119995, 119995); (119997, 120003); (120005, 120069); (120071, 120074); (120077, 120084); (120086, 120092);
   (120094, 120121); (120123, 120126); (120128, 120132); (120134, 120134); (120138, 120144); (120146, 120485);
   (120488, 120512); (120514, 120538); (120540, 120570); (120572, 120596); (120598, 120628); (120630, 120654);
   (120656, 120686); (120688, 120712); (120714, 120744); (120746, 120770); (120772, 120779); (122624, 122633);
   (122635, 122654); (125184, 125251); (127280, 127305); (127312, 127337); (127344, 127369)].

Definition ignorable_ranges : list (Z * Z) :=
  [(39, 39); (46, 46); (58, 58); (94, 94); (96, 96); (168, 168);
   (173, 173); (175, 175); (180, 180); (183, 184); (688, 879); (884, 885);
   (890, 890); (900, 901); (903, 903); (1155, 1161); (1369, 1369); (1375, 1375);
   (1425, 1469); (1471, 1471); (1473, 1474); (1476, 1477); (1479, 1479); (1524, 1524);
   (1536, 1541); (1552, 1562); (1564, 1564); (1600, 1600); (1611, 1631); (1648, 1648);
   (1750, 1757); (1759, 1768); (1770, 1773); (1807, 1807); (1809, 1809); (1840, 1866);
   (1958, 1968); (2027, 2037); (2042, 2042); (2045, 2045); (2070, 2093); (2137, 2139);
   (2184, 2184); (2192, 2193); (2200, 2207); (2249, 2306); (2362, 2362); (2364, 2364);
   (2369, 2376); (2381, 2381); (2385, 2391); (2402, 2403); (2417, 2417); (2433, 2433);
   (2492, 2492); (2497, 2500); (2509, 2509); (2530, 2531); (2558, 2558); (2561, 2562);
   (2620, 2620); (2625, 2626); (2631, 2632); (2635, 2637); (2641, 2641); (2672, 2673);
   (2677, 2677); (2689, 2690); (2748, 2748); (2753, 2757); (2759, 2760); (2765, 2765);
   (2786, 2787); (2810, 2815); (2817, 2817); (2876, 2876); (2879, 2879); (2881, 2884);
   (2893, 2893); (2901, 2902); (2914, 2915); (2946, 2946); (3008, 3008); (3021, 3021);
   (3072, 3072); (3076, 3076); (3132, 3132); (3134, 3136); (3142, 3144); (3146, 3149);
   (3157, 3158); (3170, 3171); (3201, 3201); (3260, 3260); (3263, 3263); (3270, 3270);
   (3276, 3277); (3298, 3299); (3328, 3329); (3387, 3388); (3393, 3396); (3405, 3405);
   (3426, 3427); (3457, 3457); (3530, 3530); (3538, 3540); (3542, 3542); (3633, 3633);
   (3636, 3642); (3654, 3662); (3761, 3761); (3764, 3772); (3782, 3782); (3784, 3789);
   (3864, 3865); (3893, 3893); (3895, 3895); (3897, 3897); (3953, 3966); (3968, 3972);
   (3974, 3975); (3981, 3991); (3993, 4028); (4038, 4038); (4141, 4144); (4146, 4151);
   (4153, 4154); (4157, 4158); (4184, 4185); (4190, 4192); (4209, 4212); (4226, 4226);
   (4229, 4230); (4237, 4237); (4253, 4253); (4348, 4348); (4957, 4959); (5906, 5908);
   (5938, 5939); (5970, 5971); (6002, 6003); (6068, 6069); (6071, 6077); (6086, 6086);
   (6089, 6099); (6103, 6103); (6109, 6109); (6155, 6159); (6211, 6211); (6277, 6278);
   (6313, 6313); (6432, 6434); (6439, 6440); (6450, 6450); (6457, 6459); (6679, 6680);
   (6683, 6683); (6742, 6742); (6744, 6750); (6752, 6752); (6754, 6754); (6757, 6764);
   (6771, 6780); (6783, 6783); (6823, 6823); (6832, 6862); (6912, 6915); (6964, 6964);
   (6966, 6970); (6972, 6972); (6978, 6978); (7019, 7027); (7040, 7041); (7074, 7077);
   (7080, 7081); (7083, 7085); (7142, 7142); (7144, 7145); (7149, 7149); (7151, 7153);
   (7212, 7219); (7222, 7223); (7288, 7293); (7376, 7378); (7380, 7392); (7394, 7400);
   (7405, 7405); (7412, 7412); (7416, 7417); (7468, 7530); (7544, 7544); (7579, 7679);
   (8125, 8125); (8127, 8129); (8141, 8143); (8157, 8159); (8173, 8175); (8189, 8190);
   (8203, 8207); (8216, 8217); (8228, 8228); (8231, 8231); (8234, 8238); (8288, 8292);
   (8294, 8303); (8305, 8305); (8319, 8319); (8336, 8348); (8400, 8432); (11388, 11389);
   (11503, 11505); (11631, 11631); (11647, 11647); (11744, 11775); (11823, 11823); (12293, 12293);
   (12330, 12333); (12337, 12341); (12347, 12347); (12441, 12446); (12540, 12542); (40981, 40981);
   (42232, 42237); (42508, 42508); (42607, 42610); (42612, 42621); (42623, 42623); (42652, 42655);
   (42736, 42737); (42752, 42785); (42864, 42864); (42888, 42890); (42994, 42996); (43000, 43001);
   (43010, 43010); (43014, 43014); (43019, 43019); (43045, 43046); (43052, 43052); (43204, 43205);
   (43232, 43249); (43263, 43263); (43302, 43309); (43335, 43345); (43392, 43394); (43443, 43443);
   (43446, 43449); (43452, 43453); (43471, 43471); (43493, 43494); (43561, 43566); (43569, 43570);
   (43573, 43574); (43587, 43587); (43596, 43596); (43632, 43632); (43644, 43644); (43696, 43696);
   (43698, 43700); (43703, 43704); (43710, 43711); (43713, 43713); (43741, 43741); (43756, 43757);
   (43763, 43764); (43766, 43766); (43867, 43871); (43881, 43883); (44005, 44005); (44008, 44008);
   (44013, 44013); (64286, 64286); (64434, 64450); (65024, 65039); (65043, 65043); (65056, 65071);
   (65106, 65106); (65109, 65109); (65279, 65279); (65287, 65287); (65294, 65294); (65306, 65306);
   (65342, 65342); (65344, 65344); (65392, 65392); (65438, 65439); (65507, 65507); (65529, 65531);
   (66045, 66045); (66272, 66272); (66422, 66426); (67456, 67461); (67463, 67504); (67506, 67514);
   (68097, 68099); (68101, 68102); (68108, 68111); (68152, 68154); (68159, 68159); (68325, 68326);
   (68900, 68903); (69291, 69292); (69446, 69456); (69506, 69509); (69633, 69633); (69688, 69702);
   (69744, 69744); (69747, 69748); (69759, 69761); (69811, 69814); (69817, 69818); (69821, 69821);
   (69826, 69826); (69837, 69837); (69888, 69890); (69927, 69931); (69933, 69940); (70003, 70003);
   (70016, 70017); (70070, 70078); (70089, 70092); (70095, 70095); (70191, 70193); (70196, 70196);
   (70198, 70199); (70206, 70206); (70367, 70367); (70371, 70378); (70400, 70401); (70459, 70460);
   (70464, 70464); (70502, 70508); (70512, 70516); (70712, 70719); (70722, 70724); (70726, 70726);
   (70750, 70750); (70835, 70840); (70842, 70842); (70847, 70848); (70850, 70851); (71090, 71093);
   (71100, 71101); (71103, 71104); (71132, 71133); (71219, 71226); (71229, 71229); (71231, 71232);
   (71339, 71339); (71341, 71341); (71344, 71349); (71351, 71351); (71453, 71455); (71458, 71461);
   (71463, 71467); (71727, 71735); (71737, 71738); (71995, 71996); (71998, 71998); (72003, 72003);
   (72148, 72151); (72154, 72155); (72160, 72160); (72193, 72202); (72243, 72248); (72251, 72254);
   (72263, 72263); (72273, 72278); (72281, 72283); (72330, 72342); (72344, 72345); (72752, 72758);
   (72760, 72765); (72767, 72767); (72850, 72871); (72874, 72880); (72882, 72883); (72885, 72886);
   (73009, 73014); (73018, 73018); (73020, 73021); (73023, 73029); (73031, 73031); (73104, 73105);
   (73109, 73109); (73111, 73111); (73459, 73460); (78896, 78904); (92912, 92916); (92976, 92982);
   (92992, 92995); (94031, 94031); (94095, 94111); (94176, 94177); (94179, 94180); (110576, 110579);
   (110581, 110587); (110589, 110590); (113821, 113822); (113824, 113827); (118528, 118573); (118576, 118598);
   (119143, 119145); (119155, 119170); (119173, 119179); (119210, 119213); (119362, 119364); (121344, 121398);
   (121403, 121452); (121461, 121461); (121476, 121476); (121499, 121503); (121505, 121519); (122880, 122886);
   (122888, 122904); (122907, 122913); (122915, 122916); (122918, 122922); (123184, 123197); (123566, 123566);
   (123628, 123631); (125136, 125142); (125252, 125259); (127995, 127999); (917505, 917505); (917536, 917631);
   (917760, 917999)].

Definition spaces : list Z :=
  [9; 10; 11; 12; 13; 28; 29; 30; 31; 32; 133; 160;
   5760; 8192; 8193; 8194; 8195; 8196; 8197; 8198; 8199; 8200; 8201; 8202;
   8232; 8233; 8239; 8287; 12288].

Definition digit_runs : list Z :=
  [48; 1632; 1776; 1984; 2406; 2534; 2662; 2790; 2918; 3046;
   3174; 3302; 3430; 3558; 3664; 3792; 3872; 4160; 4240; 6112;
   6160; 6470; 6608; 6784; 6800; 6992; 7088; 7232; 7248; 42528;
   43216; 43264; 43472; 43504; 43600; 44016; 65296; 66720; 68912; 69734;
   69872; 69942; 70096; 70384; 70736; 70864; 71248; 71360; 71472; 71904;
   72016; 72784; 73040; 73120; 92768; 92864; 93008; 120782; 120792; 120802;
   120812; 120822; 123200; 123632; 125264; 130032].

Definition within (c : Z) (r : Z * Z) : bool := (fst r <=? c) && (c <=? snd r).

(** [lower_runs] holds the simple lower-case mappings as (first, last, step,
    delta): every [step]-th code point from [first] to [last] maps to itself
    plus [delta]. *)
Definition in_run (c : Z) (r : Z * Z * Z * Z) : bool :=
  let '(first, last, step, _) := r in
  (first <=? c) && (c <=? last) && ((c - first) mod step =? 0).

Definition lower_simple (c : Z) : Z :=
  match List.find (in_run c) lower_runs with
  | Some (_, _, _, delta) => c + delta
  | None => c
  end.

(** U+0130 is the one code point whose lower case is two code points. *)
Definition lower_full (c : Z) : list Z :=
  if c =? 304 then [105; 775] else [lower_simple c].

(** The cased code points that are not case-ignorable, and the
    case-ignorable ones. *)
Definition cased (c : Z) : bool := existsb (within c) cased_ranges.
Definition case_ignorable (c : Z) : bool := existsb (within c) ignorable_ranges.

(** Whether a cased letter follows, case-ignorable code points skipped. *)
Fixpoint cased_follows (l : list Z) : bool :=
  match l with
  | [] => false
  | c :: r => if case_ignorable c then cased_follows r else cased c
  end.

(** [str.lower()]: capital sigma (U+03A3) becomes the final sigma (U+03C2)
    after a cased letter when no cased letter follows, and U+03C3 otherwise;
    [before] says that a cased letter precedes. *)
Fixpoint lower_from (before : bool) (l : list Z) : list Z :=
  match l with
  | [] => []
  | c :: r =>
      (if c =? 931
       then [if before && negb (cased_follows r) then 962 else 963]
       else lower_full c)
      ++ lower_from (if case_ignorable c then before else cased c) r
  end.

Definition lower (l : list Z) : list Z := lower_from false l.

(** [str.strip()] removes the code points of [spaces] from both ends. *)
Definition is_space (c : Z) : bool := existsb (Z.eqb c) spaces.

Fixpoint lstrip (l : list Z) : list Z :=
  match l with
  | [] => []
  | c :: r => if is_space c then lstrip r else l
  end.

Definition strip (l : list Z) : list Z := rev (lstrip (rev (lstrip l))).

(** The decimal digits ([\d], and what [float] reads): each entry of
    [digit_runs] starts ten code points with the values 0 to 9. *)
Definition digit_value (c : Z) : option Z :=
  match List.find (fun first => (first <=? c) && (c <? first + 10)) digit_runs with
  | Some first => Some (c - first)
  | None => None
  end.

End Unicode.

Definition lower (s : string) : string := on_points Unicode.lower s.

(** ** Dictionaries

    A Python [dict] keeps its keys in insertion order; assigning to a key
    that is present keeps the key where it is. *)

Definition dict (A : Type) : Type := list (string * A).

Fixpoint dict_get {A} (d : dict A) (k : string) : option A :=
  match d with
  | [] => None
  | (k', v) :: d' => if String.eqb k' k then Some v else dict_get d' k
  end.

Fixpoint dict_set {A} (d : dict A) (k : string) (v : A) : dict A :=
  match d with
  | [] => [(k, v)]
  | (k', v') :: d' =>
      if String.eqb k' k then (k', v) :: d' else (k', v') :: dict_set d' k v
  end.

(** [d.get(k, dflt)] *)
Definition dict_get_or {A} (d : dict A) (k : string) (dflt : A) : A :=
  match dict_get d k with Some v => v | None => dflt end.

Definition keys {A} (d : dict A) : list string := map fst d.

(** ** Rows of the [debts] table *)

Record debt (A : Type) := mkDebt {
  d_id : Z;
  d_creditor : string;
  d_debtor : string;
  d_amount : A;
  d_description : string;
  d_settled : bool;
  d_created_at : string;
}.
Arguments mkDebt {A}.
Arguments d_id {A}.
Arguments d_creditor {A}.
Arguments d_debtor {A}.
Arguments d_amount {A}.
Arguments d_description {A}.
Arguments d_settled {A}.
Arguments d_created_at {A}.

(** A transfer [(payer, receiver, amount)]. *)
Definition transfer (A : Type) : Type := (string * string * A)%type.

Section Finance.
Context {A : Type} `{Number A}.

(** *** [compute_balances] *)

(** The body of the [for row in debt_rows] loop. *)
Definition balance_step (net : dict A) (row : debt A) : dict A :=
  let creditor := lower (d_creditor row) in
  let debtor := lower (d_debtor row) in
  let amount := d_amount row in
  if String.eqb creditor "me" then
    dict_set net debtor (nadd (dict_get_or net debtor nzero) amount)
  else if String.eqb debtor "me" then
    dict_set net creditor (nsub (dict_get_or net creditor nzero) amount)
  else
    let net1 := dict_set net debtor (nsub (dict_get_or net debtor nzero) amount) in
    dict_set net1 creditor (nadd (dict_get_or net1 creditor nzero) amount).

Definition accumulate (debt_rows : list (debt A)) : dict A :=
  fold_left balance_step debt_rows [].

Definition compute_balances (debt_rows : list (debt A)) : dict A :=
  map (fun kv => (fst kv, nround2 (snd kv)))
      (List.filter (fun kv => ngeb (nabs (snd kv)) ncent) (accumulate debt_rows)).

(** *** [minimal_transfers] *)

(** Python compares the two-element lists [[v, k]] item by item: the
    first items that differ under [==] decide, by [<]. *)
Definition entry_ltb (x y : A * string) : bool :=
  if neqb (fst x) (fst y) then String.ltb (snd x) (snd y)
  else nltb (fst x) (fst y).

(** [sorted(l, reverse=True)]: a stable sort into descending order. *)
Fixpoint insert_desc (x : A * string) (l : list (A * string)) : list (A * string) :=
  match l with
  | [] => [x]
  | y :: l' => if entry_ltb x y then y :: insert_desc x l' else x :: l
  end.

Definition sorted_desc (l : list (A * string)) : list (A * string) :=
  fold_right insert_desc [] l.

Definition creditors_of (balances : dict A) : list (A * string) :=
  sorted_desc (map (fun kv => (snd kv, fst kv))
                   (List.filter (fun kv => ngtb (snd kv) nzero) balances)).

Definition debtors_of (balances : dict A) : list (A * string) :=
  sorted_desc (map (fun kv => (nabs (snd kv), fst kv))
                   (List.filter (fun kv => nltb (snd kv) nzero) balances)).

Record loop_state := mkLoop {
  creditors : list (A * string);
  debtors : list (A * string);
  ci : nat;
  dj : nat;
  transfers : list (transfer A);
}.

Definition loop_init (balances : dict A) : loop_state :=
  mkLoop (creditors_of balances) (debtors_of balances) 0 0 [].

(** One turn of the [while] loop; [None] when its condition
    [i < len(creditors) and j < len(debtors)] is false. *)
Definition loop_body (st : loop_state) : option loop_state :=
  match creditors st !! ci st, debtors st !! dj st with
  | Some (credit, creditor), Some (debt, debtor) =>
      let amount := nround2 (nmin credit debt) in
      let credit' := nround2 (nsub credit amount) in
      let debt' := nround2 (nsub debt amount) in
      Some (mkLoop (<[ci st := (credit', creditor)]> (creditors st))
                   (<[dj st := (debt', debtor)]> (debtors st))
                   (if nltb credit' ncent then S (ci st) else ci st)
                   (if nltb debt' ncent then S (dj st) else dj st)
                   (transfers st ++ [(debtor, creditor, amount)]))
  | _, _ => None
  end.

(** The state after at most [n] turns. *)
Fixpoint loop_steps (n : nat) (st : loop_state) : loop_state :=
  match n with
  | O => st
  | S n' => match loop_body st with
            | Some st' => loop_steps n' st'
            | None => st
            end
  end.

(** The loop run with [fuel] turns allowed: the returned list, or [None]
    when the loop is still running after [fuel] turns. *)
Fixpoint loop_run (fuel : nat) (st : loop_state) : option (list (transfer A)) :=
  match loop_body st with
  | None => Some (transfers st)
  | Some st' => match fuel with
                | O => None
                | S fuel' => loop_run fuel' st'
                end
  end.

(** [minimal_transfers(balances)], with the number of turns its loop may
    take. *)
Definition minimal_transfers (fuel : nat) (balances : dict A)
  : option (list (transfer A)) :=
  loop_run fuel (loop_init balances).

(** *** Carrying out a settlement plan

    A transfer debits its payer, whose net is negative, and credits its
    receiver, whose net is positive: the payer's entry moves up by the
    amount and the receiver's entry moves down by it. *)
Definition apply_transfer (net : dict A) (t : transfer A) : dict A :=
  let '(payer, receiver, amount) := t in
  let net1 := dict_set net payer (nadd (dict_get_or net payer nzero) amount) in
  dict_set net1 receiver (nsub (dict_get_or net1 receiver nzero) amount).

Definition apply_transfers (net : dict A) (ts : list (transfer A)) : dict A :=
  fold_left apply_transfer ts net.

End Finance.

(** ** The store of [database.py] *)

(** [type TEXT CHECK(type IN ('spend','income'))] *)
Inductive tx_kind := Spend | Income.

Record transaction (A : Type) := mkTx {
  t_id : Z;
  t_amount : A;
  t_type : tx_kind;
  t_category : string;
  t_description : string;
  t_created_at : string;
}.
Arguments mkTx {A}.
Arguments t_id {A}.
Arguments t_amount {A}.
Arguments t_type {A}.
Arguments t_category {A}.
Arguments t_description {A}.
Arguments t_created_at {A}.

(** The tables in row-id order, and the [balance] key of [config].
    [set_balance] writes [str(round(amount, 2))] and [get_balance] reads
    it back with [float()], which returns the float that was written: the
    stored text is modelled by that float. *)
Record db (A : Type) := mkDb {
  debts : list (debt A);
  transactions : list (transaction A);
  balance : option A;
}.
Arguments mkDb {A}.
Arguments debts {A}.
Arguments transactions {A}.
Arguments balance {A}.

(** Every method opens a connection of its own ([self._conn()]) and
    leaves its [with] block by a commit, or by a rollback when an
    exception passes through.  Three exceptions can arise:
    - [IntegrityError], when a statement breaks a [CHECK] of the schema;
    - [OperationalError] ("database is locked"), when a connection
      writes while another connection has written and not yet committed:
      SQLite lets one connection at a time hold the write lock of the
      file, and the second gives up when its time-out has passed;
    - [OverflowError], when an integer bound to a statement does not fit
      the 64 bits of an SQLite integer. *)
Inductive db_error := IntegrityError | OperationalError | OverflowError.

(** A call returns a value and leaves a store, or raises and leaves the
    store as its rollback does. *)
Inductive outcome (S R : Type) : Type :=
  | Returned (s : S) (r : R)
  | Raised (e : db_error).
Arguments Returned {S R}.
Arguments Raised {S R}.

Section Database.
Context {A : Type} `{Number A}.

(** *** Debts *)

(** [WHERE settled = 0 AND (creditor = ? OR debtor = ?)] *)
Definition involves (person : string) (d : debt A) : bool :=
  negb (d_settled d)
  && (String.eqb (d_creditor d) person || String.eqb (d_debtor d) person).

(** [ORDER BY created_at]: ascending in the text of the time stamp; rows
    with the same stamp stay in row-id order. *)
Fixpoint insert_by_created_at (x : debt A) (l : list (debt A)) : list (debt A) :=
  match l with
  | [] => [x]
  | y :: l' =>
      if String.ltb (d_created_at y) (d_created_at x)
      then y :: insert_by_created_at x l'
      else x :: l
  end.

Definition order_by_created_at (l : list (debt A)) : list (debt A) :=
  fold_right insert_by_created_at [] l.

Definition select_debts (person : string) (tbl : list (debt A)) : list (debt A) :=
  order_by_created_at (List.filter (involves person) tbl).

(** [UPDATE debts SET settled = 1 WHERE id = ?] *)
Definition settle_row (d : debt A) : debt A :=
  mkDebt (d_id d) (d_creditor d) (d_debtor d) (d_amount d)
         (d_description d) true (d_created_at d).

Definition update_settled (id : Z) (tbl : list (debt A)) : list (debt A) :=
  map (fun d => if Z.eqb (d_id d) id then settle_row d else d) tbl.

(** [UPDATE debts SET amount = ? WHERE id = ?].  The column carries
    [CHECK(amount > 0)]: an update that would break it raises
    [sqlite3.IntegrityError], here [None]. *)
Definition with_amount (d : debt A) (a : A) : debt A :=
  mkDebt (d_id d) (d_creditor d) (d_debtor d) a
         (d_description d) (d_settled d) (d_created_at d).

Definition update_amount (id : Z) (a : A) (tbl : list (debt A))
  : option (list (debt A)) :=
  if existsb (fun d => Z.eqb (d_id d) id) tbl && negb (ngtb a nzero)
  then None
  else Some (map (fun d => if Z.eqb (d_id d) id then with_amount d a else d) tbl).

(** The [for row in rows] loop of [clear_debt], over the rows fetched
    before the loop; the state is the table, [cleared] and [remaining].
    [None]: an update raised. *)
Fixpoint clear_loop (rows : list (debt A)) (tbl : list (debt A))
    (cleared : A) (remaining : option A) : option (list (debt A) * A) :=
  match rows with
  | [] => Some (tbl, cleared)
  | row :: rest =>
      match remaining with
      | Some r =>
          if nleb r nzero then Some (tbl, cleared)
          else if ngeb r (d_amount row) then
            clear_loop rest (update_settled (d_id row) tbl)
                       (nadd cleared (d_amount row))
                       (Some (nsub r (d_amount row)))
          else
            match update_amount (d_id row) (nround2 (nsub (d_amount row) r)) tbl with
            | Some tbl' => clear_loop rest tbl' (nadd cleared r) (Some nzero)
            | None => None
            end
      | None =>
          clear_loop rest (update_settled (d_id row) tbl)
                     (nadd cleared (d_amount row)) None
      end
  end.

(** [clear_debt(person, amount)]: one connection does all the work. *)
Definition clear_debt (person : string) (amount : option A) (s : db A)
  : outcome (db A) (option A) :=
  let person := lower person in
  match select_debts person (debts s) with
  | [] => Returned s None
  | rows =>
      match clear_loop rows (debts s) nzero amount with
      | Some (tbl, cleared) =>
          Returned (mkDb tbl (transactions s) (balance s))
                   (if ngtb cleared nzero then Some (nround2 cleared) else None)
      | None => Raised IntegrityError
      end
  end.

(** What a person still has open: the amounts of the unsettled rows that
    name the person, summed. *)
Definition outstanding (person : string) (tbl : list (debt A)) : A :=
  fold_left nadd (map d_amount (List.filter (involves person) tbl)) nzero.

(** *** Balance and transactions *)

Definition get_balance (s : db A) : option A := balance s.

(** [set_balance] writes through a connection of its own; [held] tells
    whether another connection is inside a write transaction. *)
Definition set_balance (held : bool) (amount : A) (s : db A) : outcome (db A) unit :=
  if held then Raised OperationalError
  else Returned (mkDb (debts s) (transactions s) (Some (nround2 amount))) tt.

Definition adjust_balance (held : bool) (delta : A) (s : db A) : outcome (db A) unit :=
  match get_balance s with
  | Some current => set_balance held (nadd current delta) s
  | None => Returned s tt
  end.

(** [SELECT * FROM transactions WHERE id = ?] with [fetchone()] *)
Definition find_transaction (id : Z) (s : db A) : option (transaction A) :=
  List.find (fun t => Z.eqb (t_id t) id) (transactions s).

(** [DELETE FROM transactions WHERE id = ?] *)
Definition delete_row (id : Z) (s : db A) : db A :=
  mkDb (debts s)
       (List.filter (fun t => negb (Z.eqb (t_id t) id)) (transactions s))
       (balance s).

(** [delete_transaction].  The [DELETE] runs on the connection of the
    [with] block, which from then on holds the write lock; the call of
    [adjust_balance] sits inside that block, so its own connection meets
    the lock ([held] is [true]) and sees the store as last committed.
    When nothing was raised the block commits the [DELETE].
    [transaction_id] is an integer of 64 bits, as every id is that the
    handler of [bot.py] passes: it finds the id among the rows of the
    table first. *)
Definition delete_transaction (transaction_id : Z) (s : db A) : outcome (db A) bool :=
  let current_bal := get_balance s in
  match find_transaction transaction_id s with
  | None => Returned s false
  | Some row =>
      match current_bal with
      | Some _ =>
          let delta :=
            match t_type row with
            | Spend => t_amount row
            | Income => nneg (t_amount row)
            end in
          match adjust_balance true delta s with
          | Returned s' _ => Returned (delete_row transaction_id s') true
          | Raised e => Raised e
          end
      | None => Returned (delete_row transaction_id s) true
      end
  end.

(** [f"{year}-{month:02d}"] *)
Definition month_prefix (year month : Z) : string :=
  let y := NilZero.string_of_int (Z.to_int year) in
  let m := NilZero.string_of_int (Z.to_int month) in
  String.append y
    (String.append "-" (if Z.leb 0 month && Z.ltb month 10 then String.append "0" m else m)).

(** [WHERE category = ? AND created_at LIKE ?] with the pattern
    [f"{prefix}%"]: the prefix holds digits and hyphens only, so the
    pattern asks for a stamp that starts with it. *)
Definition in_category_month (category prefix : string) (t : transaction A) : bool :=
  String.eqb (t_category t) category && String.prefix prefix (t_created_at t).

(** [ORDER BY created_at DESC] *)
Fixpoint insert_newest_first (x : transaction A) (l : list (transaction A))
  : list (transaction A) :=
  match l with
  | [] => [x]
  | y :: l' =>
      if String.ltb (t_created_at x) (t_created_at y)
      then y :: insert_newest_first x l'
      else x :: l
  end.

(** [sum(r["amount"] for r in rows if r["type"] == kind)] *)
Definition sum_of_kind (kind : tx_kind) (rows : list (transaction A)) : A :=
  fold_left nadd
    (map t_amount
         (List.filter (fun t => match t_type t, kind with
                                | Spend, Spend | Income, Income => true
                                | _, _ => false
                                end) rows))
    nzero.

(** [delete_category_transactions]: here [adjust_balance] is called
    after the [with] block, when the [DELETE] is committed and no
    connection holds the write lock. *)
Definition delete_category_transactions (category : string) (year month : Z)
    (s : db A) : outcome (db A) nat :=
  let prefix := month_prefix year month in
  let current_bal := get_balance s in
  let rows :=
    fold_right insert_newest_first []
               (List.filter (in_category_month category prefix) (transactions s)) in
  let total_spend := sum_of_kind Spend rows in
  let total_income := sum_of_kind Income rows in
  let s1 :=
    mkDb (debts s)
         (List.filter (fun t => negb (in_category_month category prefix t))
                      (transactions s))
         (balance s) in
  let count := length rows in
  match current_bal, count with
  | Some _, S _ =>
      match adjust_balance false (nsub total_spend total_income) s1 with
      | Returned s2 _ => Returned s2 count
      | Raised e => Raised e
      end
  | _, _ => Returned s1 count
  end.

End Database.

(** ** Statement ingestion *)

Module Csv.

(** *** [csv.reader] over [io.StringIO(csv_text)]

    The reader of the standard library with the default dialect (comma,
    double quote, doubled quotes, not strict), following the state machine
    of CPython 3.11.  [None] is the exception [csv.Error]. *)

Inductive parser_state :=
  | START_RECORD | START_FIELD | IN_FIELD
  | IN_QUOTED_FIELD | QUOTE_IN_QUOTED_FIELD | EAT_CRNL.

Record reader := mkReader {
  state : parser_state;
  fields : list string;
  field : string;
  field_len : N;
}.

Definition field_limit : N := 131072.

Definition parse_reset : reader := mkReader START_RECORD [] "" 0.

Definition parse_save_field (r : reader) (st : parser_state) : reader :=
  mkReader st (fields r ++ [field r]) "" 0.

(** [field_len] counts characters.  Of the bytes of a character only the
    first counts and meets the limit; the bytes that follow it, which
    are none of the characters the reader looks for, go where it went. *)
Definition continuation (c : ascii) : bool :=
  Utf8.continuation (Utf8.byte_of c).

Definition parse_add_char (r : reader) (st : parser_state) (c : ascii)
  : option reader :=
  if continuation c then
    Some (mkReader st (fields r) (String.append (field r) (String c "")) (field_len r))
  else if N.leb field_limit (field_len r) then None
  else Some (mkReader st (fields r) (String.append (field r) (String c "")) (field_len r + 1)).

Definition set_state (r : reader) (st : parser_state) : reader :=
  mkReader st (fields r) (field r) (field_len r).

Definition is_newline (c : ascii) : bool :=
  (Ascii.eqb c "010" || Ascii.eqb c "013")%char.

(** [parse_process_char]; the end of a line is the character [None]. *)
Definition start_field (r : reader) (c : option ascii) : option reader :=
  match c with
  | None => Some (parse_save_field r START_RECORD)
  | Some ch =>
      if is_newline ch then Some (parse_save_field r EAT_CRNL)
      else if Ascii.eqb ch "034"%char then Some (set_state r IN_QUOTED_FIELD)
      else if Ascii.eqb ch ","%char then Some (parse_save_field r START_FIELD)
      else parse_add_char r IN_FIELD ch
  end.

Definition parse_process_char (r : reader) (c : option ascii) : option reader :=
  match state r with
  | START_RECORD =>
      match c with
      | None => Some r
      | Some ch =>
          if is_newline ch then Some (set_state r EAT_CRNL)
          else start_field r c
      end
  | START_FIELD => start_field r c
  | IN_FIELD =>
      match c with
      | None => Some (parse_save_field r START_RECORD)
      | Some ch =>
          if is_newline ch then Some (parse_save_field r EAT_CRNL)
          else if Ascii.eqb ch ","%char then Some (parse_save_field r START_FIELD)
          else parse_add_char r IN_FIELD ch
      end
  | IN_QUOTED_FIELD =>
      match c with
      | None => Some r
      | Some ch =>
          if Ascii.eqb ch "034"%char then Some (set_state r QUOTE_IN_QUOTED_FIELD)
          else parse_add_char r IN_QUOTED_FIELD ch
      end
  | QUOTE_IN_QUOTED_FIELD =>
      match c with
      | None => Some (parse_save_field r START_RECORD)
      | Some ch =>
          if Ascii.eqb ch "034"%char then parse_add_char r IN_QUOTED_FIELD ch
          else if Ascii.eqb ch ","%char then Some (parse_save_field r START_FIELD)
          else if is_newline ch then Some (parse_save_field r EAT_CRNL)
          else parse_add_char r IN_FIELD ch
      end
  | EAT_CRNL =>
      match c with
      | None => Some (set_state r START_RECORD)
      | Some ch => if is_newline ch then Some r else None
      end
  end.

Fixpoint process_line (line : string) (r : reader) : option reader :=
  match line with
  | EmptyString => parse_process_char r None
  | String c line' =>
      match parse_process_char r (Some c) with
      | Some r' => process_line line' r'
      | None => None
      end
  end.

(** The lines [StringIO] hands out: each ends after a line feed, the last
    one at the end of the text. *)
Fixpoint lines_from (cur : string) (text : string) : list string :=
  match text with
  | EmptyString => match cur with EmptyString => [] | _ => [cur] end
  | String c text' =>
      if Ascii.eqb c "010"%char
      then String.append cur (String c "") :: lines_from "" text'
      else lines_from (String.append cur (String c "")) text'
  end.

Definition is_start (st : parser_state) : bool :=
  match st with START_RECORD => true | _ => false end.

Definition is_in_quoted (st : parser_state) : bool :=
  match st with IN_QUOTED_FIELD => true | _ => false end.

(** [list(reader)]: a record ends when the state is back at
    [START_RECORD]; input that ends inside a record closes it. *)
Fixpoint read_records (lines : list string) (r : reader)
    (acc : list (list string)) : option (list (list string)) :=
  match lines with
  | [] =>
      if (negb (N.eqb (field_len r) 0) || is_in_quoted (state r))%bool
      then Some (acc ++ [fields (parse_save_field r START_RECORD)])
      else Some acc
  | line :: rest =>
      match process_line line r with
      | None => None
      | Some r' =>
          if is_start (state r')
          then read_records rest parse_reset (acc ++ [fields r'])
          else read_records rest r' acc
      end
  end.

Definition csv_reader (csv_text : string) : option (list (list string)) :=
  read_records (lines_from "" csv_text) parse_reset [].

End Csv.

Module Ingest.

(** *** Text helpers *)

(** [str.strip()] *)
Definition strip (s : string) : string := on_points Unicode.strip s.

Definition in_set (s : string) (candidates : list string) : bool :=
  existsb (String.eqb s) candidates.

(** *** [float()] on a cleaned amount

    After the cleaning of [_parse_amount] the text holds only decimal
    digits (of any script), [.], [-] and [+]; [float] reads every decimal
    digit by its value and accepts an optional sign followed by digits
    with at most one point and at least one digit. *)

Fixpoint digits_value (l : list Z) (acc : N) : option N :=
  match l with
  | [] => Some acc
  | c :: l' =>
      match Unicode.digit_value c with
      | Some d => digits_value l' (acc * 10 + Z.to_N d)%N
      | None => None
      end
  end.

(** The code points before the first [.] (46) and those after it. *)
Fixpoint split_point (l : list Z) : list Z * option (list Z) :=
  match l with
  | [] => ([], None)
  | c :: l' =>
      if c =? 46 then ([], Some l')
      else let '(ip, fp) := split_point l' in (c :: ip, fp)
  end.

Definition float_of_unsigned (neg : bool) (l : list Z) : option spec_float :=
  match split_point l with
  | (ip, None) =>
      match ip with
      | [] => None
      | _ => match digits_value ip 0 with
             | Some n => Some (B64.of_decimal neg n 0)
             | None => None
             end
      end
  | (ip, Some fp) =>
      match ip, fp with
      | [], [] => None
      | _, _ =>
          match digits_value ip 0 with
          | Some ni =>
              match digits_value fp ni with
              | Some n => Some (B64.of_decimal neg n (N.of_nat (length fp)))
              | None => None
              end
          | None => None
          end
      end
  end.

(** A leading [+] (43) or [-] (45) is the sign. *)
Definition float_of_points (l : list Z) : option spec_float :=
  match l with
  | 43 :: l' => float_of_unsigned false l'
  | 45 :: l' => float_of_unsigned true l'
  | _ => float_of_unsigned false l
  end.

(** *** [finance.py] *)

Definition DATE_COLS : list string :=
  ["date"; "transaction date"; "trans date"; "value date"; "posted date"; "تاريخ"].
Definition DESC_COLS : list string :=
  ["description"; "narrative"; "details"; "memo"; "particulars"; "transaction"; "بيان"].
Definition AMOUNT_COLS : list string :=
  ["amount"; "debit/credit"; "value"; "sum"; "المبلغ"].
Definition DEBIT_COLS : list string := ["debit"; "withdrawal"; "سحب"].
Definition CREDIT_COLS : list string := ["credit"; "deposit"; "إيداع"].

Fixpoint find_col_from (i : nat) (headers : list string) (candidates : list string)
  : option nat :=
  match headers with
  | [] => None
  | h :: hs =>
      if in_set (lower (strip h)) candidates then Some i
      else find_col_from (S i) hs candidates
  end.

Definition _find_col (headers candidates : list string) : option nat :=
  find_col_from 0 headers candidates.

(** [re.sub(r"[^\d.\-+]", "", value.replace(",", ""))]: the commas (44)
    go, then every code point that is not a decimal digit, [.], [-] or
    [+]. *)
Definition amount_point (c : Z) : bool :=
  match Unicode.digit_value c with
  | Some _ => true
  | None => (c =? 46) || (c =? 45) || (c =? 43)
  end.

Definition cleaned (value : string) : list Z :=
  List.filter amount_point
    (List.filter (fun c => negb (c =? 44)) (Utf8.points value)).

Definition _parse_amount (value : string) : option spec_float :=
  float_of_points (cleaned value).

Record csv_transaction := mkCsvTx {
  x_date : option string;
  x_description : string;
  x_amount : spec_float;
}.

(** The messages of the error list: ["Empty file"],
    ["No recognizable header row found"] and
    [f"Could not parse amount in row: {row}"]. *)
Inductive ingest_error :=
  | Empty_file
  | No_header
  | Bad_amount (row : list string).

Definition normalize (row : list string) : list string :=
  map (fun c => lower (strip c)) row.

Definition is_header (row : list string) : bool :=
  existsb (fun c => in_set c (DATE_COLS ++ DESC_COLS ++ AMOUNT_COLS)) (normalize row).

(** The search for the header row: the normalized header and the rows
    after it. *)
Fixpoint find_header (rows : list (list string))
  : option (list string * list (list string)) :=
  match rows with
  | [] => None
  | row :: rest =>
      if is_header row then Some (normalize row, rest) else find_header rest
  end.

Definition cell (col : option nat) (row : list string) : option string :=
  match col with
  | Some c => row !! c
  | None => None
  end.

(** [bool(x)] of an optional float, and the literal [0.001]. *)
Definition truthy (x : option spec_float) : bool :=
  match x with
  | Some v => negb (SFeqb v (S754_zero false))
  | None => false
  end.

Definition milli : spec_float := B64.of_decimal false 1 3.

Definition row_amount (amt_col debit_col credit_col : option nat)
    (row : list string) : option spec_float :=
  match cell amt_col row with
  | Some v => _parse_amount v
  | None =>
      match debit_col, credit_col with
      | Some dc, Some cc =>
          let debit := match row !! dc with Some v => _parse_amount v | None => None end in
          let credit := match row !! cc with Some v => _parse_amount v | None => None end in
          let amount :=
            match debit with
            | Some d => if truthy debit && SFltb milli (SFabs d)
                        then Some (SFopp (SFabs d)) else None
            | None => None
            end in
          match credit with
          | Some c => if truthy credit && SFltb milli (SFabs c)
                      then Some (SFabs c) else amount
          | None => amount
          end
      | _, _ => None
      end
  end.

Definition is_blank (row : list string) : bool :=
  negb (existsb (fun c => negb (String.eqb (strip c) "")) row).

(** The body of the loop over the data rows. *)
Definition ingest_row (date_col desc_col amt_col debit_col credit_col : option nat)
    (acc : list csv_transaction * list ingest_error) (row : list string)
  : list csv_transaction * list ingest_error :=
  if is_blank row then acc
  else
    let description :=
      match cell desc_col row with Some v => strip v | None => "transaction" end in
    let date_str :=
      match cell date_col row with Some v => Some (strip v) | None => None end in
    match row_amount amt_col debit_col credit_col row with
    | None => (fst acc, snd acc ++ [Bad_amount row])
    | Some amount =>
        (fst acc ++ [mkCsvTx date_str description (B64.round2 amount)], snd acc)
    end.

Definition parse_rows (rows : list (list string))
  : list csv_transaction * list ingest_error :=
  match rows with
  | [] => ([], [Empty_file])
  | _ =>
      match find_header rows with
      | None => ([], [No_header])
      | Some (headers, data) =>
          let date_col := _find_col headers DATE_COLS in
          let desc_col := _find_col headers DESC_COLS in
          let amt_col := _find_col headers AMOUNT_COLS in
          let debit_col := _find_col headers DEBIT_COLS in
          let credit_col := _find_col headers CREDIT_COLS in
          fold_left (ingest_row date_col desc_col amt_col debit_col credit_col)
                    data ([], [])
      end
  end.

(** [parse_csv_transactions]; [None] when the reader raised. *)
Definition parse_csv_transactions (csv_text : string)
  : option (list csv_transaction * list ingest_error) :=
  match Csv.csv_reader csv_text with
  | Some rows => Some (parse_rows rows)
  | None => None
  end.

(** [handle_document] of [bot.py]: the kind an imported row is stored
    under. *)
Definition import_kind (t : csv_transaction) : tx_kind :=
  if SFltb (S754_zero false) (x_amount t) then Income else Spend.

End Ingest.

(** * Properties *)

(** ** Dictionaries *)

Section DictFacts.
Context {A : Type}.

Lemma dict_get_set_eq (d : dict A) k v : dict_get (dict_set d k v) k = Some v.
Proof.
  induction d as [|[k' v'] d IH]; simpl.
  - now rewrite String.eqb_refl.
  - destruct (String.eqb k' k) eqn:E; simpl; rewrite E; auto.
Qed.

Lemma dict_get_set_ne (d : dict A) k k' v :
  k' <> k -> dict_get (dict_set d k v) k' = dict_get d k'.
Proof.
  intros Hne. induction d as [|[k0 v0] d IH]; simpl.
  - destruct (String.eqb k k') eqn:E; auto.
    apply String.eqb_eq in E. congruence.
  - destruct (String.eqb k0 k) eqn:E; simpl.
    + apply String.eqb_eq in E. subst k0.
      destruct (String.eqb k k') eqn:E'; auto.
      apply String.eqb_eq in E'. congruence.
    + now rewrite IH.
Qed.

Lemma keys_dict_set (d : dict A) k v x :
  In x (keys (dict_set d k v)) <-> x = k \/ In x (keys d).
Proof.
  unfold keys. induction d as [|[k' v'] d IH]; simpl.
  - intuition.
  - destruct (String.eqb k' k) eqn:E; simpl.
    + apply String.eqb_eq in E. subst. intuition.
    + rewrite IH. intuition.
Qed.

Lemma keys_dict_set_NoDup (d : dict A) k v :
  List.NoDup (keys d) -> List.NoDup (keys (dict_set d k v)).
Proof.
  unfold keys. induction d as [|[k' v'] d IH]; simpl; intros Hnd.
  - constructor; [simpl; tauto | constructor].
  - inversion Hnd as [|? ? Hnotin Hnd']; subst.
    destruct (String.eqb k' k) eqn:E; simpl.
    + constructor; assumption.
    + constructor; [|auto].
      intros Hin. apply (keys_dict_set d k v k') in Hin.
      destruct Hin as [->|Hin]; [|contradiction].
      now rewrite String.eqb_refl in E.
Qed.

Lemma dict_get_None (d : dict A) k :
  dict_get d k = None <-> ~ In k (keys d).
Proof.
  unfold keys. induction d as [|[k' v'] d IH]; simpl.
  - intuition.
  - destruct (String.eqb k' k) eqn:E.
    + apply String.eqb_eq in E. subst. split; [discriminate | intuition].
    + apply String.eqb_neq in E. rewrite IH. intuition.
Qed.

Lemma dict_get_In (d : dict A) k v :
  dict_get d k = Some v -> In (k, v) d.
Proof.
  induction d as [|[k' v'] d IH]; simpl; [discriminate|].
  destruct (String.eqb k' k) eqn:E.
  - apply String.eqb_eq in E. intros [= ->]. subst. now left.
  - intros Hg. right. auto.
Qed.

Lemma In_dict_get (d : dict A) k v :
  List.NoDup (keys d) -> In (k, v) d -> dict_get d k = Some v.
Proof.
  unfold keys. induction d as [|[k' v'] d IH]; simpl; [tauto|].
  intros Hnd Hin. inversion Hnd as [|? ? Hnotin Hnd']; subst.
  destruct Hin as [[= -> ->]|Hin].
  - now rewrite String.eqb_refl.
  - destruct (String.eqb k' k) eqn:E; [|auto].
    apply String.eqb_eq in E. subst k'.
    exfalso. apply Hnotin. change k with (fst (k, v)). now apply List.in_map.
Qed.

(** Looking a key up after a filter and a map over the values. *)
Lemma dict_get_filter_map (d : dict A) (p : A -> bool) (f : A -> A) k :
  List.NoDup (keys d) ->
  dict_get (map (fun kv => (fst kv, f (snd kv)))
                (List.filter (fun kv => p (snd kv)) d)) k
  = match dict_get d k with
    | Some v => if p v then Some (f v) else None
    | None => None
    end.
Proof.
  unfold keys. induction d as [|[k' v'] d IH]; simpl; [reflexivity|].
  intros Hnd. inversion Hnd as [|? ? Hnotin Hnd']; subst.
  destruct (String.eqb k' k) eqn:E.
  - apply String.eqb_eq in E. subst k'.
    destruct (p v') eqn:Hp; simpl.
    + now rewrite String.eqb_refl.
    + rewrite (IH Hnd').
      destruct (dict_get d k) eqn:Hg; [|reflexivity].
      exfalso. apply Hnotin. apply dict_get_In in Hg.
      change k with (fst (k, a)). now apply List.in_map.
  - destruct (p v'); simpl; [rewrite E|]; auto.
Qed.

Lemma keys_filter_map (d : dict A) (p : string * A -> bool) (f : A -> A) x :
  In x (keys (map (fun kv => (fst kv, f (snd kv))) (List.filter p d))) ->
  In x (keys d).
Proof.
  unfold keys. rewrite List.map_map. simpl.
  rewrite !List.in_map_iff. intros [kv [<- Hin]].
  apply List.filter_In in Hin. exists kv. tauto.
Qed.

End DictFacts.

(** ** Balance netting *)

Section Netting.
Context {A : Type} `{Number A}.

Lemma balance_step_NoDup (net : dict A) (row : debt A) :
  List.NoDup (keys net) -> List.NoDup (keys (balance_step net row)).
Proof.
  intros Hnd. unfold balance_step.
  destruct (String.eqb (lower (d_creditor row)) "me");
    [|destruct (String.eqb (lower (d_debtor row)) "me")];
    repeat apply keys_dict_set_NoDup; assumption.
Qed.

Lemma fold_balance_step_NoDup (rows : list (debt A)) (net : dict A) :
  List.NoDup (keys net) -> List.NoDup (keys (fold_left balance_step rows net)).
Proof.
  revert net. induction rows as [|row rows IH]; simpl; intros net Hnd; auto.
  apply IH, balance_step_NoDup, Hnd.
Qed.

Lemma accumulate_NoDup (rows : list (debt A)) : List.NoDup (keys (accumulate rows)).
Proof. apply fold_balance_step_NoDup. constructor. Qed.


Lemma compute_balances_lookup (rows : list (debt A)) (p : string) :
  dict_get (compute_balances rows) p
  = match dict_get (accumulate rows) p with
    | Some v => if ngeb (nabs v) ncent then Some (nround2 v) else None
    | None => None
    end.
Proof.
  unfold compute_balances.
  apply (dict_get_filter_map (accumulate rows)
           (fun v => ngeb (nabs v) ncent) nround2 p (accumulate_NoDup rows)).
Qed.

End Netting.

(** ** Doubles: order and rounding *)

Lemma SFcompare_Lt_swap (x y : spec_float) :
  SFcompare x y = Some Lt -> SFcompare y x = Some Gt.
Proof.
  destruct x as [sx|sx| |sx mx ex], y as [sy|sy| |sy my ey]; simpl;
    try discriminate; try (destruct sx; discriminate || reflexivity);
    try (destruct sy; discriminate || reflexivity);
    try (destruct sx, sy; discriminate || reflexivity).
  change (Pos.compare_cont Eq mx my) with (Pos.compare mx my).
  change (Pos.compare_cont Eq my mx) with (Pos.compare my mx).
  rewrite (Z.compare_antisym ex ey), (Pos.compare_antisym mx my).
  destruct sx, sy; try discriminate; try reflexivity;
    destruct (Z.compare ex ey); simpl; try discriminate; try reflexivity;
    destruct (Pos.compare mx my); simpl; try discriminate; reflexivity.
Qed.






Section NettingDoubles.


End NettingDoubles.

(** ** Names in the settlement loop *)

Section LoopNames.
Context {A : Type} `{Number A}.

Lemma In_insert_desc (x y : A * string) (l : list (A * string)) :
  In y (insert_desc x l) <-> y = x \/ In y l.
Proof.
  induction l as [|z l IH]; simpl.
  - intuition.
  - destruct (entry_ltb x z); simpl; rewrite ?IH; intuition.
Qed.

Lemma In_sorted_desc (y : A * string) (l : list (A * string)) :
  In y (sorted_desc l) <-> In y l.
Proof.
  induction l as [|z l IH]; simpl; [tauto|].
  rewrite In_insert_desc, IH. intuition.
Qed.

Lemma creditors_of_names (balances : dict A) (k : string) :
  In k (map snd (creditors_of balances)) -> In k (keys balances).
Proof.
  unfold creditors_of, keys. rewrite !List.in_map_iff.
  intros [[v k'] [Hk Hin]]. simpl in Hk. subst k'.
  apply In_sorted_desc, List.in_map_iff in Hin.
  destruct Hin as [kv [[= _ <-] Hin]].
  apply List.filter_In in Hin. exists kv. tauto.
Qed.

Lemma debtors_of_names (balances : dict A) (k : string) :
  In k (map snd (debtors_of balances)) -> In k (keys balances).
Proof.
  unfold debtors_of, keys. rewrite !List.in_map_iff.
  intros [[v k'] [Hk Hin]]. simpl in Hk. subst k'.
  apply In_sorted_desc, List.in_map_iff in Hin.
  destruct Hin as [kv [[= _ <-] Hin]].
  apply List.filter_In in Hin. exists kv. tauto.
Qed.

Lemma map_snd_insert (l : list (A * string)) (i : nat) (v v' : A) (k : string) :
  l !! i = Some (v, k) -> map snd (<[i := (v', k)]> l) = map snd l.
Proof.
  revert i. induction l as [|x l IH]; intros [|i]; simpl; try discriminate.
  - now intros [= ->].
  - intros Hl. f_equal. now apply IH.
Qed.

Lemma lookup_In_snd (l : list (A * string)) (i : nat) (v : A) (k : string) :
  l !! i = Some (v, k) -> In k (map snd l).
Proof.
  revert i. induction l as [|x l IH]; intros [|i]; simpl; try discriminate.
  - intros [= ->]. now left.
  - intros Hl. right. eauto.
Qed.

(** A turn keeps the names of both lists and appends one transfer from a
    name of the debtor list to a name of the creditor list. *)
Lemma loop_body_names (st st' : loop_state) :
  loop_body st = Some st' ->
  map snd (creditors st') = map snd (creditors st)
  /\ map snd (debtors st') = map snd (debtors st)
  /\ exists payer receiver amount,
       transfers st' = transfers st ++ [(payer, receiver, amount)]
       /\ In payer (map snd (debtors st))
       /\ In receiver (map snd (creditors st)).
Proof.
  unfold loop_body.
  destruct (creditors st !! ci st) as [[credit creditor]|] eqn:Hc; [|discriminate].
  destruct (debtors st !! dj st) as [[debt debtor]|] eqn:Hd; [|discriminate].
  intros [= <-]. simpl.
  split; [eapply map_snd_insert; eauto|].
  split; [eapply map_snd_insert; eauto|].
  exists debtor, creditor, (nround2 (nmin credit debt)).
  split; [reflexivity|]. split; eapply lookup_In_snd; eauto.
Qed.

Definition names_within (ks : list string) (st : loop_state) : Prop :=
  (forall k, In k (map snd (creditors st)) -> In k ks)
  /\ (forall k, In k (map snd (debtors st)) -> In k ks)
  /\ (forall payer receiver (amount : A),
        In (payer, receiver, amount) (transfers st) -> In payer ks /\ In receiver ks).

Lemma loop_body_names_within (ks : list string) (st st' : loop_state) :
  names_within ks st -> loop_body st = Some st' -> names_within ks st'.
Proof.
  intros (Hc & Hd & Ht) Hb.
  destruct (loop_body_names _ _ Hb) as (Ec & Ed & payer & receiver & amount & Et & Hp & Hr).
  unfold names_within. rewrite Ec, Ed, Et.
  split; [assumption|]. split; [assumption|].
  intros p r a Hin. apply List.in_app_iff in Hin.
  destruct Hin as [Hin|[[= <- <- <-]|[]]]; eauto.
Qed.

Lemma loop_steps_names_within (ks : list string) (n : nat) (st : loop_state) :
  names_within ks st -> names_within ks (loop_steps n st).
Proof.
  revert st. induction n as [|n IH]; simpl; intros st Hst; [assumption|].
  destruct (loop_body st) as [st'|] eqn:Hb; [|assumption].
  eapply IH, loop_body_names_within; eauto.
Qed.

Lemma loop_init_names_within (balances : dict A) :
  names_within (keys balances) (loop_init balances).
Proof.
  unfold names_within, loop_init. simpl.
  split; [apply creditors_of_names|]. split; [apply debtors_of_names|].
  intros ? ? ? [].
Qed.

(** What the loop returns is what it has collected when it stops. *)
Lemma loop_run_steps (fuel : nat) (st : loop_state) (ts : list (transfer A)) :
  loop_run fuel st = Some ts -> ts = transfers (loop_steps fuel st).
Proof.
  revert st. induction fuel as [|fuel IH]; simpl; intros st.
  - destruct (loop_body st); [discriminate | now intros [= <-]].
  - destruct (loop_body st) as [st'|]; [apply IH | now intros [= <-]].
Qed.

Lemma balance_step_owner (net : dict A) (row : debt A) :
  ~ (lower (d_creditor row) = "me" /\ lower (d_debtor row) = "me") ->
  In "me" (keys (balance_step net row)) -> In "me" (keys net).
Proof.
  intros Hrow. unfold balance_step.
  destruct (String.eqb (lower (d_creditor row)) "me") eqn:Ec.
  - apply String.eqb_eq in Ec. rewrite keys_dict_set.
    intros [Heq|Hin]; [|assumption]. exfalso. apply Hrow. now split.
  - apply String.eqb_neq in Ec.
    destruct (String.eqb (lower (d_debtor row)) "me") eqn:Ed.
    + rewrite keys_dict_set. intros [Heq|Hin]; [|assumption]. congruence.
    + apply String.eqb_neq in Ed. rewrite !keys_dict_set.
      intros [Heq|[Heq|Hin]]; [congruence|congruence|assumption].
Qed.

Lemma fold_balance_step_owner (rows : list (debt A)) (net : dict A) :
  (forall row, In row rows ->
     ~ (lower (d_creditor row) = "me" /\ lower (d_debtor row) = "me")) ->
  In "me" (keys (fold_left balance_step rows net)) -> In "me" (keys net).
Proof.
  revert net. induction rows as [|row rows IH]; simpl; intros net Hrows Hin.
  - assumption.
  - apply (balance_step_owner net row); [apply Hrows; now left|].
    apply IH; [intros r Hr; apply Hrows; now right | assumption].
Qed.

(** C10 (as amended).  When no row names the owner on both sides, ["me"]
    is not a key of the mapping [compute_balances] returns, and no
    transfer that [minimal_transfers] collects over that mapping, at any
    turn of its loop and in the list it returns, has ["me"] as payer or
    as receiver. *)
Theorem owner_is_implicit (rows : list (debt A)) :
  (forall row, In row rows ->
     ~ (lower (d_creditor row) = "me" /\ lower (d_debtor row) = "me")) ->
  ~ In "me" (keys (compute_balances rows))
  /\ (forall n payer receiver (amount : A),
        In (payer, receiver, amount)
           (transfers (loop_steps n (loop_init (compute_balances rows)))) ->
        payer <> "me" /\ receiver <> "me")
  /\ (forall fuel ts payer receiver (amount : A),
        minimal_transfers fuel (compute_balances rows) = Some ts ->
        In (payer, receiver, amount) ts ->
        payer <> "me" /\ receiver <> "me").
Proof.
  intros Hrows.
  assert (Hme : ~ In "me" (keys (compute_balances rows))).
  { intros Hin. unfold compute_balances in Hin.
    apply keys_filter_map in Hin.
    now apply (fold_balance_step_owner rows []) in Hin. }
  assert (Hsteps : forall n payer receiver (amount : A),
             In (payer, receiver, amount)
                (transfers (loop_steps n (loop_init (compute_balances rows)))) ->
             payer <> "me" /\ receiver <> "me").
  { intros n payer receiver amount Hin.
    destruct (loop_steps_names_within _ n _ (loop_init_names_within (compute_balances rows)))
      as (_ & _ & Ht).
    destruct (Ht _ _ _ Hin) as [Hp Hr].
    split; intros ->; contradiction. }
  split; [assumption|]. split; [assumption|].
  intros fuel ts payer receiver amount Hrun Hin.
  apply loop_run_steps in Hrun. subst ts. eauto.
Qed.

End LoopNames.

(** ** Concrete ledgers *)

Module Examples.

(** The double nearest to [n] hundredths. *)
Definition money (n : Z) : spec_float :=
  B64.of_decimal (Z.ltb n 0) (Z.abs_N n) 2.

Definition owes (id : Z) (creditor debtor : string) (amount : spec_float)
  : debt spec_float :=
  mkDebt id creditor debtor amount "" false "2026-02-26 10:00:00".

(** Alice owes the owner 30, the owner owes Bob 20. *)
Definition two_rows : list (debt spec_float) :=
  [owes 1 "me" "alice" (money 3000); owes 2 "bob" "me" (money 2000)].

(** A row with the owner on both sides, as [/owes @me 10 x] stores it,
    and a debt of the owner to Alice. *)
Definition self_rows : list (debt spec_float) :=
  [owes 1 "me" "me" (money 1000); owes 2 "alice" "me" (money 1000)].

End Examples.

(** C10 as first stated fails: a row with the owner on both sides puts
    ["me"] among the keys, and the plan then pays ["me"]. *)
Lemma owner_is_implicit_counterexample :
  In "me" (keys (compute_balances Examples.self_rows))
  /\ minimal_transfers 2 (compute_balances Examples.self_rows)
     = Some [("alice", "me", Examples.money 1000)].
Proof. split; [vm_compute; tauto | vm_compute; reflexivity]. Qed.

Lemma owner_is_implicit_witness :
  (forall row, In row Examples.two_rows ->
     ~ (lower (d_creditor row) = "me" /\ lower (d_debtor row) = "me"))
  /\ ~ In "me" (keys (compute_balances Examples.two_rows)).
Proof.
  assert (Hrows : forall row, In row Examples.two_rows ->
     ~ (lower (d_creditor row) = "me" /\ lower (d_debtor row) = "me")).
  { intros row [<-|[<-|[]]] [Hc Hd]; vm_compute in Hc, Hd; discriminate. }
  split; [exact Hrows|].
  exact (proj1 (owner_is_implicit Examples.two_rows Hrows)).
Defined.

(** ** Sorting keeps the entries *)

Section SortFacts.
Context {A : Type} `{Number A}.

Lemma insert_desc_perm (x : A * string) (l : list (A * string)) :
  Permutation (insert_desc x l) (x :: l).
Proof.
  induction l as [|y l IH]; simpl; [reflexivity|].
  destruct (entry_ltb x y); [|reflexivity].
  rewrite IH. apply perm_swap.
Qed.

Lemma sorted_desc_perm (l : list (A * string)) : Permutation (sorted_desc l) l.
Proof.
  induction l as [|x l IH]; simpl; [reflexivity|].
  rewrite insert_desc_perm. now constructor.
Qed.

Lemma sorted_desc_length (l : list (A * string)) :
  length (sorted_desc l) = length l.
Proof. apply Permutation_length, sorted_desc_perm. Qed.

(** Both lists hold each of their names once. *)
Lemma side_names_NoDup (balances : dict A) (p : string * A -> bool) (f : A -> A) :
  List.NoDup (keys balances) ->
  List.NoDup (map snd (sorted_desc (map (fun kv => (f (snd kv), fst kv))
                                        (List.filter p balances)))).
Proof.
  intros Hnd.
  eapply Permutation_NoDup.
  { symmetry. apply Permutation_map, sorted_desc_perm. }
  rewrite List.map_map. simpl.
  unfold keys in Hnd. induction balances as [|kv b IH]; simpl; [constructor|].
  inversion Hnd as [|? ? Hnotin Hnd']; subst.
  destruct (p kv); simpl; [|auto].
  constructor; [|auto]. intros Hin. apply Hnotin.
  apply List.in_map_iff in Hin. destruct Hin as [kv' [E Hin]].
  apply List.filter_In in Hin. rewrite <- E. apply List.in_map. tauto.
Qed.

End SortFacts.

(** The number of people with a nonzero net. *)
Definition nonzero_count {A} `{Number A} (balances : dict A) : nat :=
  length (List.filter (fun kv => negb (neqb (snd kv) nzero)) balances).

Lemma lookup_In {B} (l : list B) (i : nat) (x : B) : l !! i = Some x -> In x l.
Proof.
  revert i. induction l as [|y l IH]; intros [|i]; simpl; try discriminate.
  - intros [= ->]. now left.
  - intros Hl. right. eauto.
Qed.

Lemma In_lookup {B} (l : list B) (x : B) : In x l -> exists i, l !! i = Some x.
Proof.
  induction l as [|y l IH]; simpl; [tauto|].
  intros [->|Hin]; [now exists 0%nat|].
  destruct (IH Hin) as [i Hi]. now exists (S i).
Qed.

Lemma NoDup_names_lookup {B} (l : list (B * string)) (i j : nat) (v v' : B) (k : string) :
  List.NoDup (map snd l) -> l !! i = Some (v, k) -> l !! j = Some (v', k) -> i = j.
Proof.
  revert i j. induction l as [|x l IH]; intros i j Hnd Hi Hj; [destruct i; discriminate|].
  simpl in Hnd. inversion Hnd as [|? ? Hnotin Hnd']; subst.
  destruct i as [|i], j as [|j]; simpl in Hi, Hj.
  - reflexivity.
  - injection Hi as ->. exfalso. apply Hnotin.
    apply (List.in_map snd l (v', k)). eapply lookup_In; eauto.
  - injection Hj as ->. exfalso. apply Hnotin.
    apply (List.in_map snd l (v, k)). eapply lookup_In; eauto.
  - f_equal. eauto.
Qed.

Lemma StronglySorted_lookup {B} (R : B -> B -> Prop) (l : list B) (i j : nat) (x y : B) :
  StronglySorted R l -> (i < j)%nat -> l !! i = Some x -> l !! j = Some y -> R x y.
Proof.
  intros Hs. revert i j. induction Hs as [|z l Hl IH Hz]; intros i j Hij Hi Hj.
  - destruct i; discriminate.
  - destruct j as [|j]; [lia|]. destruct i as [|i]; simpl in Hi, Hj.
    + injection Hi as ->. rewrite List.Forall_forall in Hz.
      apply Hz. eapply lookup_In; eauto.
    + apply (IH i j); [lia | assumption | assumption].
Qed.

Lemma filter_perm {B} (f : B -> bool) (l l' : list B) :
  Permutation l l' -> Permutation (List.filter f l) (List.filter f l').
Proof.
  induction 1 as [|x l l' Hp IH|x y l|l l' l'' Hp1 IH1 Hp2 IH2]; simpl.
  - reflexivity.
  - destruct (f x); [now apply perm_skip | assumption].
  - destruct (f x), (f y); try reflexivity. apply perm_swap.
  - eapply Permutation_trans; eassumption.
Qed.

(** ** The order of handles *)

Section StringOrder.

Lemma ascii_compare_trans (a b c : ascii) :
  Ascii.compare a b = Lt -> Ascii.compare b c = Lt -> Ascii.compare a c = Lt.
Proof.
  unfold Ascii.compare. rewrite !N.compare_lt_iff. lia.
Qed.

Lemma ascii_compare_refl (a : ascii) : Ascii.compare a a = Eq.
Proof. unfold Ascii.compare. apply N.compare_refl. Qed.

Lemma string_compare_refl (s : string) : String.compare s s = Eq.
Proof.
  induction s as [|c s IH]; simpl; [reflexivity|].
  now rewrite ascii_compare_refl.
Qed.

Lemma string_compare_trans (a b c : string) :
  String.compare a b = Lt -> String.compare b c = Lt -> String.compare a c = Lt.
Proof.
  revert b c. induction a as [|x a IH]; intros [|y b] [|z c]; simpl;
    try discriminate; try reflexivity.
  destruct (Ascii.compare x y) eqn:Exy; try discriminate;
    destruct (Ascii.compare y z) eqn:Eyz; try discriminate; intros Hab Hbc.
  - apply Ascii.compare_eq_iff in Exy, Eyz. subst.
    rewrite ascii_compare_refl. eauto.
  - apply Ascii.compare_eq_iff in Exy. subst. now rewrite Eyz.
  - apply Ascii.compare_eq_iff in Eyz. subst. now rewrite Exy.
  - now rewrite (ascii_compare_trans _ _ _ Exy Eyz).
Qed.

Lemma string_ltb_irrefl (s : string) : String.ltb s s = false.
Proof. unfold String.ltb. now rewrite string_compare_refl. Qed.

Lemma string_ltb_trans (a b c : string) :
  String.ltb a b = true -> String.ltb b c = true -> String.ltb a c = true.
Proof.
  unfold String.ltb.
  destruct (String.compare a b) eqn:Eab; try discriminate.
  destruct (String.compare b c) eqn:Ebc; try discriminate.
  now rewrite (string_compare_trans _ _ _ Eab Ebc).
Qed.

Lemma string_ltb_total (a b : string) :
  a = b \/ String.ltb a b = true \/ String.ltb b a = true.
Proof.
  unfold String.ltb. rewrite (String.compare_antisym a b).
  destruct (String.compare b a) eqn:E; simpl; auto.
  left. symmetry. now apply String.compare_eq_iff.
Qed.

Lemma string_ltb_asym (a b : string) :
  String.ltb a b = true -> String.ltb b a = false.
Proof.
  unfold String.ltb. rewrite (String.compare_antisym a b).
  destruct (String.compare b a); simpl; auto; discriminate.
Qed.

Lemma not_ltb_trans (a b c : string) :
  String.ltb a b = false -> String.ltb b c = false -> String.ltb a c = false.
Proof.
  intros Hab Hbc.
  destruct (String.ltb a c) eqn:Hac; [|reflexivity].
  destruct (string_ltb_total a b) as [E|[Hlt|Hlt]]; [|congruence|].
  - subst b. congruence.
  - destruct (string_ltb_total b c) as [E|[Hlt'|Hlt']]; [|congruence|].
    + subst c. rewrite (string_ltb_asym _ _ Hlt) in Hac. discriminate.
    + pose proof (string_ltb_trans _ _ _ Hlt' Hlt) as Hca.
      rewrite (string_ltb_asym _ _ Hca) in Hac. discriminate.
Qed.

End StringOrder.

(** ** The order of doubles above zero *)

Section DoubleOrder.

(** [0 < x]: a finite double with the sign bit clear, or the positive
    infinity. *)
Definition above_zero (x : spec_float) : Prop := SFltb (S754_zero false) x = true.

Lemma above_zero_cases (x : spec_float) :
  above_zero x ->
  x = S754_infinity false \/ exists m e, x = S754_finite false m e.
Proof.
  unfold above_zero. destruct x as [s|[]| |[] m e]; try discriminate; eauto.
Qed.

Lemma SFabs_below_zero (v : spec_float) :
  SFltb v (S754_zero false) = true -> above_zero (SFabs v).
Proof. unfold above_zero. destruct v as [s|[]| |[] m e]; try discriminate; reflexivity. Qed.

Lemma SFeqb_above_zero (x y : spec_float) :
  above_zero x -> above_zero y -> SFeqb x y = true -> x = y.
Proof.
  intros Hx Hy.
  destruct (above_zero_cases x Hx) as [->|(m1 & e1 & ->)],
           (above_zero_cases y Hy) as [->|(m2 & e2 & ->)];
    try reflexivity; try discriminate.
  unfold SFeqb, SFcompare.
  destruct (Z.compare_spec e1 e2) as [->|_|_]; try discriminate.
  change (Pos.compare_cont Eq m1 m2) with (Pos.compare m1 m2).
  destruct (Pos.compare_spec m1 m2) as [->|_|_]; try discriminate. reflexivity.
Qed.

Lemma SFeqb_refl_above_zero (x : spec_float) : above_zero x -> SFeqb x x = true.
Proof.
  intros Hx. destruct (above_zero_cases x Hx) as [->|(m & e & ->)]; [reflexivity|].
  unfold SFeqb, SFcompare. rewrite Z.compare_refl.
  change (Pos.compare_cont Eq m m) with (Pos.compare m m). now rewrite Pos.compare_refl.
Qed.

Lemma SFltb_total_above_zero (x y : spec_float) :
  above_zero x -> above_zero y ->
  x = y \/ SFltb x y = true \/ SFltb y x = true.
Proof.
  intros Hx Hy.
  destruct (above_zero_cases x Hx) as [->|(m1 & e1 & ->)],
           (above_zero_cases y Hy) as [->|(m2 & e2 & ->)]; auto.
  unfold SFltb, SFcompare.
  change (Pos.compare_cont Eq m1 m2) with (Pos.compare m1 m2).
  change (Pos.compare_cont Eq m2 m1) with (Pos.compare m2 m1).
  rewrite (Z.compare_antisym e1 e2), (Pos.compare_antisym m1 m2).
  destruct (Z.compare_spec e1 e2) as [->|_|_]; simpl; auto.
  destruct (Pos.compare_spec m1 m2) as [->|_|_]; simpl; auto.
Qed.

Lemma SFltb_asym (x y : spec_float) : SFltb x y = true -> SFltb y x = false.
Proof.
  unfold SFltb. destruct (SFcompare x y) as [[]|] eqn:E; try discriminate.
  intros _. now rewrite (SFcompare_Lt_swap _ _ E).
Qed.

Lemma SFltb_not_SFeqb (x y : spec_float) : SFltb x y = true -> SFeqb x y = false.
Proof. unfold SFltb, SFeqb. now destruct (SFcompare x y) as [[]|]. Qed.

Lemma SFltb_trans_above_zero (x y z : spec_float) :
  above_zero x -> above_zero y -> above_zero z ->
  SFltb x y = true -> SFltb y z = true -> SFltb x z = true.
Proof.
  intros Hx Hy Hz.
  destruct (above_zero_cases x Hx) as [->|(m1 & e1 & ->)],
           (above_zero_cases y Hy) as [->|(m2 & e2 & ->)],
           (above_zero_cases z Hz) as [->|(m3 & e3 & ->)];
    try discriminate; try reflexivity.
  unfold SFltb, SFcompare.
  change (Pos.compare_cont Eq m1 m2) with (Pos.compare m1 m2).
  change (Pos.compare_cont Eq m2 m3) with (Pos.compare m2 m3).
  change (Pos.compare_cont Eq m1 m3) with (Pos.compare m1 m3).
  destruct (Z.compare_spec e1 e2) as [H12|H12|H12]; try discriminate;
    destruct (Z.compare_spec e2 e3) as [H23|H23|H23]; try discriminate;
    destruct (Z.compare_spec e1 e3) as [H13|H13|H13]; try lia; try reflexivity.
  destruct (Pos.compare_spec m1 m2); try discriminate.
  destruct (Pos.compare_spec m2 m3); try discriminate.
  destruct (Pos.compare_spec m1 m3); try lia; reflexivity.
Qed.

(** [x] does not come below [y] in the order of [sorted]. *)
Definition not_below (x y : spec_float * string) : Prop := entry_ltb x y = false.

Definition entry_above_zero (x : spec_float * string) : Prop := above_zero (fst x).

Lemma entry_ltb_above_zero (x y : spec_float * string) :
  entry_above_zero x -> entry_above_zero y ->
  (entry_ltb x y = true <->
   SFltb (fst x) (fst y) = true
   \/ (fst x = fst y /\ String.ltb (snd x) (snd y) = true)).
Proof.
  intros Hx Hy. unfold entry_ltb.
  change (neqb (fst x) (fst y)) with (SFeqb (fst x) (fst y)).
  change (nltb (fst x) (fst y)) with (SFltb (fst x) (fst y)).
  destruct (SFeqb (fst x) (fst y)) eqn:E.
  - pose proof (SFeqb_above_zero _ _ Hx Hy E) as Exy. split.
    + intros Hs. right. now split.
    + intros [Hlt|[_ Hs]]; [|assumption].
      apply SFltb_not_SFeqb in Hlt. congruence.
  - split; [now left|]. intros [Hlt|[Exy _]]; [assumption|].
    rewrite Exy, SFeqb_refl_above_zero in E by assumption. discriminate.
Qed.

Lemma not_below_above_zero (x y : spec_float * string) :
  entry_above_zero x -> entry_above_zero y ->
  (not_below x y <->
   SFltb (fst y) (fst x) = true
   \/ (fst x = fst y /\ String.ltb (snd x) (snd y) = false)).
Proof.
  intros Hx Hy. unfold not_below.
  destruct (entry_ltb x y) eqn:E.
  - apply entry_ltb_above_zero in E; try assumption. split; [discriminate|].
    intros [Hlt|[Heq Hs]]; destruct E as [Hlt'|[Heq' Hs']].
    + apply SFltb_asym in Hlt. congruence.
    + rewrite Heq' in Hlt. apply SFltb_not_SFeqb in Hlt.
      rewrite SFeqb_refl_above_zero in Hlt by assumption. discriminate.
    + rewrite Heq in Hlt'. apply SFltb_not_SFeqb in Hlt'.
      rewrite SFeqb_refl_above_zero in Hlt' by assumption. discriminate.
    + congruence.
  - split; [intros _ | reflexivity].
    destruct (SFltb_total_above_zero _ _ Hx Hy) as [Heq|[Hlt|Hgt]].
    + right. split; [assumption|].
      destruct (String.ltb (snd x) (snd y)) eqn:Hs; [|reflexivity].
      assert (entry_ltb x y = true)
        by (apply entry_ltb_above_zero; try assumption; right; now split).
      congruence.
    + assert (entry_ltb x y = true)
        by (apply entry_ltb_above_zero; try assumption; now left).
      congruence.
    + now left.
Qed.

Lemma not_below_trans (x y z : spec_float * string) :
  entry_above_zero x -> entry_above_zero y -> entry_above_zero z ->
  not_below x y -> not_below y z -> not_below x z.
Proof.
  intros Hx Hy Hz.
  rewrite !not_below_above_zero by assumption.
  intros [H1|[E1 S1]] [H2|[E2 S2]].
  - left. eapply SFltb_trans_above_zero; [| | |exact H2|exact H1]; assumption.
  - left. now rewrite <- E2.
  - left. now rewrite E1.
  - right. split; [congruence|].
    destruct (String.ltb (snd x) (snd z)) eqn:Hs; [|reflexivity].
    destruct (string_ltb_total (snd x) (snd y)) as [Exy|[Hxy|Hyx]]; [| congruence |].
    + rewrite Exy in Hs. congruence.
    + destruct (string_ltb_total (snd y) (snd z)) as [Eyz|[Hyz|Hzy]]; [| congruence |].
      * rewrite <- Eyz in Hs. rewrite (string_ltb_asym _ _ Hyx) in Hs. discriminate.
      * pose proof (string_ltb_trans _ _ _ Hzy Hyx) as Hzx.
        rewrite (string_ltb_asym _ _ Hzx) in Hs. discriminate.
Qed.

Lemma not_below_antisym (x y : spec_float * string) :
  entry_above_zero x -> entry_above_zero y ->
  not_below x y -> not_below y x -> x = y.
Proof.
  intros Hx Hy.
  rewrite !not_below_above_zero by assumption.
  destruct x as [a k], y as [b l]. simpl.
  intros [H1|[E1 S1]] [H2|[E2 S2]].
  - apply SFltb_asym in H1. congruence.
  - rewrite E2 in H1. apply SFltb_not_SFeqb in H1.
    rewrite SFeqb_refl_above_zero in H1 by assumption. discriminate.
  - rewrite E1 in H2. apply SFltb_not_SFeqb in H2.
    rewrite SFeqb_refl_above_zero in H2 by assumption. discriminate.
  - subst b. f_equal.
    destruct (string_ltb_total k l) as [E|[Hs|Hs]]; congruence.
Qed.

Lemma not_below_swap (x y : spec_float * string) :
  entry_above_zero x -> entry_above_zero y ->
  entry_ltb x y = true -> not_below y x.
Proof.
  intros Hx Hy.
  rewrite entry_ltb_above_zero, not_below_above_zero by assumption.
  intros [Hlt|[Heq Hs]]; [now left | right].
  split; [congruence | now apply string_ltb_asym].
Qed.

Lemma insert_desc_sorted (x : spec_float * string) (l : list (spec_float * string)) :
  entry_above_zero x -> Forall entry_above_zero l ->
  StronglySorted not_below l -> StronglySorted not_below (insert_desc x l).
Proof.
  intros Hx Hl Hs. induction Hs as [|y l Hs IH Hy]; simpl.
  - constructor; constructor.
  - inversion Hl as [|? ? Hy0 Hl0]; subst.
    rewrite List.Forall_forall in Hl0.
    destruct (entry_ltb x y) eqn:E.
    + constructor; [apply IH; now apply List.Forall_forall|].
      rewrite List.Forall_forall in *. intros z Hz.
      apply In_insert_desc in Hz. destruct Hz as [->|Hz]; [|auto].
      now apply not_below_swap.
    + constructor; [constructor; assumption|].
      constructor; [exact E|].
      rewrite List.Forall_forall in *. intros z Hz.
      apply (not_below_trans x y z); auto.
Qed.

Lemma insert_desc_above_zero (x : spec_float * string) (l : list (spec_float * string)) :
  entry_above_zero x -> Forall entry_above_zero l ->
  Forall entry_above_zero (insert_desc x l).
Proof.
  intros Hx Hl. rewrite List.Forall_forall in *. intros z Hz.
  apply In_insert_desc in Hz. destruct Hz as [->|Hz]; auto.
Qed.

Lemma sorted_desc_sorted (l : list (spec_float * string)) :
  Forall entry_above_zero l ->
  StronglySorted not_below (sorted_desc l) /\ Forall entry_above_zero (sorted_desc l).
Proof.
  induction 1 as [|x l Hx Hl [IHs IHa]]; simpl; [split; constructor|].
  split; [now apply insert_desc_sorted | now apply insert_desc_above_zero].
Qed.

Lemma sorted_perm_unique (l1 l2 : list (spec_float * string)) :
  Forall entry_above_zero l1 ->
  StronglySorted not_below l1 -> StronglySorted not_below l2 ->
  Permutation l1 l2 -> l1 = l2.
Proof.
  intros Ha H1. revert l2 Ha. induction H1 as [|x l1 Hl1 IH Hx]; intros l2 Ha H2 Hp.
  - now apply Permutation_nil in Hp.
  - destruct H2 as [|y l2 Hl2 Hy].
    + apply Permutation_sym, Permutation_nil in Hp. discriminate.
    + inversion Ha as [|? ? Hax Ha1]; subst.
      rewrite List.Forall_forall in Hx, Hy, Ha1.
      assert (Exy : x = y).
      { assert (Hxin : In x (y :: l2)) by (eapply Permutation_in; [exact Hp | now left]).
        assert (Hyin : In y (x :: l1))
          by (eapply Permutation_in; [symmetry; exact Hp | now left]).
        destruct Hxin as [->|Hxin]; [reflexivity|].
        destruct Hyin as [->|Hyin]; [reflexivity|].
        apply not_below_antisym; auto. }
      subst y. f_equal. apply IH; [now apply List.Forall_forall | assumption |].
      eapply Permutation_cons_inv; eauto.
Qed.

Lemma sorted_desc_perm_eq (l1 l2 : list (spec_float * string)) :
  Forall entry_above_zero l1 ->
  Permutation l1 l2 -> sorted_desc l1 = sorted_desc l2.
Proof.
  intros Ha Hp.
  assert (Ha2 : Forall entry_above_zero l2).
  { rewrite List.Forall_forall in *. intros z Hz. apply Ha.
    eapply Permutation_in; [symmetry; exact Hp | exact Hz]. }
  apply sorted_perm_unique; try (now apply sorted_desc_sorted).
  rewrite !sorted_desc_perm. exact Hp.
Qed.

Lemma creditor_entries_above_zero (balances : dict spec_float) :
  Forall entry_above_zero
         (map (fun kv => (snd kv, fst kv))
              (List.filter (fun kv => ngtb (snd kv) nzero) balances)).
Proof.
  apply List.Forall_forall. intros z Hz. apply List.in_map_iff in Hz.
  destruct Hz as [kv [<- Hin]]. apply List.filter_In in Hin. apply Hin.
Qed.

Lemma debtor_entries_above_zero (balances : dict spec_float) :
  Forall entry_above_zero
         (map (fun kv => (nabs (snd kv), fst kv))
              (List.filter (fun kv => nltb (snd kv) nzero) balances)).
Proof.
  apply List.Forall_forall. intros z Hz. apply List.in_map_iff in Hz.
  destruct Hz as [kv [<- Hin]]. apply List.filter_In in Hin.
  apply SFabs_below_zero, Hin.
Qed.

Lemma sorted_names_descending (l : list (spec_float * string)) (i j : nat)
    (a1 a2 : spec_float) (k1 k2 : string) :
  Forall entry_above_zero l ->
  StronglySorted not_below l -> List.NoDup (map snd l) ->
  (i < j)%nat -> l !! i = Some (a1, k1) -> l !! j = Some (a2, k2) ->
  SFltb a2 a1 = true \/ (a1 = a2 /\ String.ltb k2 k1 = true).
Proof.
  intros Ha Hs Hnd Hij Hi Hj.
  pose proof (StronglySorted_lookup _ _ _ _ _ _ Hs Hij Hi Hj) as HR.
  rewrite List.Forall_forall in Ha.
  apply not_below_above_zero in HR;
    [|apply Ha; eapply lookup_In; eauto | apply Ha; eapply lookup_In; eauto].
  simpl in HR.
  destruct HR as [Hlt|[Heq Hstr]]; [now left|right].
  split; [assumption|].
  destruct (string_ltb_total k1 k2) as [E|[Hlt|Hlt]]; [|congruence|assumption].
  subst k2. pose proof (NoDup_names_lookup _ _ _ _ _ _ Hnd Hi Hj). lia.
Qed.

(** C9 (as amended).  The creditor list and the debtor list are each
    sorted by amount descending, and entries with equal amounts are
    ordered by person handle descending; the transfer list does not
    depend on the order in which the mapping holds its entries. *)
Theorem settlement_order_deterministic (balances : dict spec_float) :
  List.NoDup (keys balances) ->
  (forall i j a1 k1 a2 k2, (i < j)%nat ->
     creditors_of balances !! i = Some (a1, k1) ->
     creditors_of balances !! j = Some (a2, k2) ->
     SFltb a2 a1 = true \/ (a1 = a2 /\ String.ltb k2 k1 = true))
  /\ (forall i j a1 k1 a2 k2, (i < j)%nat ->
     debtors_of balances !! i = Some (a1, k1) ->
     debtors_of balances !! j = Some (a2, k2) ->
     SFltb a2 a1 = true \/ (a1 = a2 /\ String.ltb k2 k1 = true))
  /\ (forall balances' fuel, Permutation balances balances' ->
     minimal_transfers fuel balances' = minimal_transfers fuel balances).
Proof.
  intros Hnd. split; [|split].
  - intros i j a1 k1 a2 k2. apply sorted_names_descending.
    + apply sorted_desc_sorted, creditor_entries_above_zero.
    + apply sorted_desc_sorted, creditor_entries_above_zero.
    + exact (side_names_NoDup balances (fun kv => ngtb (snd kv) nzero) (fun v => v) Hnd).
  - intros i j a1 k1 a2 k2. apply sorted_names_descending.
    + apply sorted_desc_sorted, debtor_entries_above_zero.
    + apply sorted_desc_sorted, debtor_entries_above_zero.
    + exact (side_names_NoDup balances (fun kv => nltb (snd kv) nzero) nabs Hnd).
  - intros balances' fuel Hp. unfold minimal_transfers, loop_init.
    assert (Ec : creditors_of balances' = creditors_of balances).
    { unfold creditors_of. symmetry. apply sorted_desc_perm_eq.
      - apply creditor_entries_above_zero.
      - now apply Permutation_map, filter_perm. }
    assert (Ed : debtors_of balances' = debtors_of balances).
    { unfold debtors_of. symmetry. apply sorted_desc_perm_eq.
      - apply debtor_entries_above_zero.
      - now apply Permutation_map, filter_perm. }
    now rewrite Ec, Ed.
Qed.

End DoubleOrder.

(** ** The sign of a double *)

Section DoubleSigns.

(** The sign a double carries; NaN carries none. *)
Definition sign_is (s : bool) (x : spec_float) : Prop :=
  match x with
  | S754_zero s' | S754_infinity s' | S754_finite s' _ _ => s' = s
  | S754_nan => True
  end.

Lemma binary_round_aux_sign (s : bool) (m e : Z) (l : location) :
  sign_is s (binary_round_aux B64.prec B64.emax s m e l).
Proof.
  unfold binary_round_aux.
  destruct (shr_fexp _ _ m e l) as [mrs e1].
  destruct (shr_fexp _ _ _ e1 loc_Exact) as [mrs' e'].
  destruct (shr_m mrs'); simpl; auto.
  destruct (Z.leb e' _); reflexivity.
Qed.

Lemma of_decimal_sign (s : bool) (n k : N) : sign_is s (B64.of_decimal s n k).
Proof.
  unfold B64.of_decimal. destruct n as [|p]; [reflexivity|].
  destruct (SFdiv_core_binary _ _ _ _ _ _) as [[mz ez] lz].
  apply binary_round_aux_sign.
Qed.

Lemma round2_sign (s : bool) (x : spec_float) : sign_is s x -> sign_is s (B64.round2 x).
Proof.
  destruct x as [s'|s'| |s' m e]; simpl; auto.
  intros ->. destruct (Z.leb 0 e); [reflexivity|]. apply of_decimal_sign.
Qed.

Lemma negative_not_above_zero (x : spec_float) :
  sign_is true x -> SFltb (S754_zero false) x = false.
Proof. destruct x as [s|s| |s m e]; simpl; try reflexivity; now intros ->. Qed.

Lemma positive_not_below_zero (x : spec_float) :
  sign_is false x -> SFltb x (S754_zero false) = false.
Proof. destruct x as [s|s| |s m e]; simpl; try reflexivity; now intros ->. Qed.

Lemma sign_opp_abs (d : spec_float) : sign_is true (SFopp (SFabs d)).
Proof. now destruct d. Qed.

Lemma sign_abs (c : spec_float) : sign_is false (SFabs c).
Proof. now destruct c. Qed.

Lemma above_zero_sign (x : spec_float) :
  SFltb (S754_zero false) x = true -> sign_is false x.
Proof. destruct x as [s|[]| |[] m e]; try discriminate; reflexivity. Qed.

(** A sum of two doubles that are not negative is not negative. *)
Lemma add_sign (x y : spec_float) :
  sign_is false x -> sign_is false y -> sign_is false (B64.add x y).
Proof.
  destruct x as [sx|sx| |sx mx ex], y as [sy|sy| |sy my ey]; simpl;
    try (intros -> ->; reflexivity); try (intros; exact I); try (intros _ ->; reflexivity);
    try (intros -> _; reflexivity).
  intros -> ->. unfold B64.add, SFadd. cbv zeta.
  destruct (shl_align mx ex (Z.min ex ey)) as [mx' ex'].
  destruct (shl_align my ey (Z.min ex ey)) as [my' ey'].
  simpl. unfold binary_round.
  destruct (shl_align _ _ _) as [mz ez]. apply binary_round_aux_sign.
Qed.

End DoubleSigns.

(** ** Settlement on concrete mappings *)

Module Plans.

Definition infinity : spec_float := S754_infinity false.
Definition eighth : spec_float := B64.of_decimal false 125 3.

(** One creditor and nobody to pay her: what [compute_balances] returns
    when Alice owes the owner 10.00. *)
Definition lone_creditor : dict spec_float := [("alice", Examples.money 1000)].

(** [{"a": 0.125, "b": -5.0}] *)
Definition eighth_owed : dict spec_float :=
  [("a", eighth); ("b", Examples.money (-500))].

(** [{"a": inf, "b": -inf}], as [/owes @a inf x] and [/owe @b inf x]
    leave the ledger. *)
Definition unbounded : dict spec_float :=
  [("a", infinity); ("b", SFopp infinity)].

(** [{"alice": 5.0, "bob": 5.0, "carol": -10.0}], and the same mapping
    filled in another order. *)
Definition tie : dict spec_float :=
  [("alice", Examples.money 500); ("bob", Examples.money 500);
   ("carol", Examples.money (-1000))].

Definition tie' : dict spec_float :=
  [("carol", Examples.money (-1000)); ("bob", Examples.money 500);
   ("alice", Examples.money 500)].

End Plans.

Section OwedToTheOwner.

Lemma filter_nil_all {B} (f : B -> bool) (l : list B) :
  (forall x, In x l -> f x = false) -> List.filter f l = [].
Proof.
  induction l as [|x l IH]; simpl; intros Hf; [reflexivity|].
  rewrite (Hf x (or_introl eq_refl)). apply IH. intros; apply Hf; now right.
Qed.

Lemma In_dict_set {B} (d : dict B) (k k0 : string) (v v0 : B) :
  In (k, v) (dict_set d k0 v0) -> (k, v) = (k0, v0) \/ In (k, v) d.
Proof.
  induction d as [|[k' v'] d IH]; simpl.
  - intros [E|[]]. now left.
  - destruct (String.eqb k' k0) eqn:E; simpl.
    + apply String.eqb_eq in E. subst k'. intros [[= <- <-]|Hin]; auto.
    + intros [E'|Hin]; [auto|]. destruct (IH Hin); auto.
Qed.

Definition none_negative (net : dict spec_float) : Prop :=
  forall k v, In (k, v) net -> sign_is false v.

Lemma dict_get_or_sign (net : dict spec_float) (k : string) :
  none_negative net -> sign_is false (dict_get_or net k nzero).
Proof.
  intros Hnet. unfold dict_get_or.
  destruct (dict_get net k) as [v|] eqn:E; [|reflexivity].
  apply (Hnet k v). now apply dict_get_In.
Qed.

Lemma balance_step_owed (net : dict spec_float) (row : debt spec_float) :
  lower (d_creditor row) = "me" -> ngtb (d_amount row) nzero = true ->
  none_negative net -> none_negative (balance_step net row).
Proof.
  intros Hc Ha Hnet k v. unfold balance_step. rewrite Hc. simpl.
  intros Hin. apply In_dict_set in Hin. destruct Hin as [[= -> ->]|Hin]; [|eauto].
  apply add_sign; [now apply dict_get_or_sign | now apply above_zero_sign].
Qed.

Lemma accumulate_owed (rows : list (debt spec_float)) (net : dict spec_float) :
  (forall row, In row rows ->
     lower (d_creditor row) = "me" /\ ngtb (d_amount row) nzero = true) ->
  none_negative net -> none_negative (fold_left balance_step rows net).
Proof.
  revert net. induction rows as [|row rows IH]; simpl; intros net Hrows Hnet.
  - exact Hnet.
  - apply IH; [intros r Hr; apply Hrows; now right|].
    destruct (Hrows row (or_introl eq_refl)). now apply balance_step_owed.
Qed.

Lemma compute_balances_owed (rows : list (debt spec_float)) :
  (forall row, In row rows ->
     lower (d_creditor row) = "me" /\ ngtb (d_amount row) nzero = true) ->
  none_negative (compute_balances rows).
Proof.
  intros Hrows k v Hin. unfold compute_balances in Hin.
  apply List.in_map_iff in Hin. destruct Hin as [[k' v'] [[= <- <-] Hin]].
  apply List.filter_In in Hin. destruct Hin as [Hin _].
  apply round2_sign. apply (accumulate_owed rows [] Hrows (fun _ _ H => match H with end) k' v' Hin).
Qed.

(** C1 fails on the code.  The nets of [compute_balances] leave the owner
    out, so when Alice owes the owner 10.00 the mapping is
    [{"alice": 10.0}]: [minimal_transfers] finds no debtor, returns no
    transfer, and Alice's entry stays at 10.00, which is not within 0.01
    of zero.  The same holds of every ledger whose open rows are all owed
    to the owner, as [/owes] and [/paid] store them: the plan is empty. *)
Theorem settlement_leaves_debts_open :
  compute_balances [Examples.owes 1 "me" "alice" (Examples.money 1000)]
  = Plans.lone_creditor
  /\ (forall fuel, minimal_transfers fuel Plans.lone_creditor = Some [])
  /\ dict_get (apply_transfers Plans.lone_creditor []) "alice"
     = Some (Examples.money 1000)
  /\ SFleb (SFabs (Examples.money 1000)) ncent = false
  /\ forall rows : list (debt spec_float),
       (forall row, In row rows ->
          lower (d_creditor row) = "me" /\ ngtb (d_amount row) nzero = true) ->
       forall fuel, minimal_transfers fuel (compute_balances rows) = Some [].
Proof.
  split; [vm_compute; reflexivity|].
  split; [intros [|fuel]; vm_compute; reflexivity|].
  split; [vm_compute; reflexivity|].
  split; [vm_compute; reflexivity|].
  intros rows Hrows fuel.
  pose proof (compute_balances_owed rows Hrows) as Hsign.
  unfold minimal_transfers, loop_init.
  assert (Hd : debtors_of (compute_balances rows) = []).
  { unfold debtors_of. rewrite filter_nil_all; [reflexivity|].
    intros [k v] Hin. apply positive_not_below_zero. eapply Hsign, Hin. }
  assert (Hb : loop_body (mkLoop (creditors_of (compute_balances rows))
                                 (debtors_of (compute_balances rows)) 0 0 [])
               = None).
  { unfold loop_body. simpl. rewrite Hd. simpl.
    now destruct (creditors_of (compute_balances rows) !! 0%nat) as [[credit creditor]|]. }
  destruct fuel; simpl; now rewrite Hb.
Qed.

End OwedToTheOwner.

(** C2 fails on the code.  The mapping [{"a": 0.125, "b": -5.0}] has two
    nonzero entries and gets two transfers, 0.12 and then 0.01: after
    the first turn the creditor is left with [round(0.125 - 0.12, 2)],
    which is 0.01 and not below 0.01, so no pointer moves.  On
    [{"a": inf, "b": -inf}] both remainders become NaN in the first
    turn, no pointer ever moves, and the loop does not stop. *)
Theorem minimal_transfers_exceeds_bound :
  nonzero_count Plans.eighth_owed = 2%nat
  /\ minimal_transfers 2 Plans.eighth_owed
     = Some [("b", "a", B64.of_decimal false 12 2);
             ("b", "a", B64.of_decimal false 1 2)]
  /\ nonzero_count Plans.unbounded = 2%nat
  /\ (forall fuel, minimal_transfers fuel Plans.unbounded = None).
Proof.
  split; [vm_compute; reflexivity|].
  split; [vm_compute; reflexivity|].
  split; [vm_compute; reflexivity|].
  assert (Hstuck : forall fuel ts,
            loop_run fuel (mkLoop [(S754_nan, "a")] [(S754_nan, "b")] 0 0 ts) = None).
  { induction fuel as [|fuel IH]; intros ts.
    - reflexivity.
    - change (loop_run (S fuel) (mkLoop [(S754_nan, "a")] [(S754_nan, "b")] 0 0 ts))
        with (loop_run fuel (mkLoop [(S754_nan, "a")] [(S754_nan, "b")] 0 0
                                    (ts ++ [("b", "a", S754_nan)]))).
      apply IH. }
  intros [|fuel]; [reflexivity|].
  change (minimal_transfers (S fuel) Plans.unbounded)
    with (loop_run fuel (mkLoop [(S754_nan, "a")] [(S754_nan, "b")] 0 0
                                ([] ++ [("b", "a", Plans.infinity)]))).
  apply Hstuck.
Qed.

(** C9 as first stated fails: Alice and Bob are owed the same amount and
    Bob comes first, though ["alice"] is the smaller handle. *)
Lemma settlement_order_counterexample :
  creditors_of Plans.tie = [(Examples.money 500, "bob"); (Examples.money 500, "alice")]
  /\ String.ltb "alice" "bob" = true
  /\ minimal_transfers 2 Plans.tie
     = Some [("carol", "bob", Examples.money 500);
             ("carol", "alice", Examples.money 500)].
Proof. repeat split; vm_compute; reflexivity. Qed.

Lemma settlement_order_deterministic_witness :
  List.NoDup (keys Plans.tie)
  /\ (forall a1 k1 a2 k2,
        creditors_of Plans.tie !! 0%nat = Some (a1, k1) ->
        creditors_of Plans.tie !! 1%nat = Some (a2, k2) ->
        SFltb a2 a1 = true \/ (a1 = a2 /\ String.ltb k2 k1 = true))
  /\ minimal_transfers 2 Plans.tie' = minimal_transfers 2 Plans.tie.
Proof.
  assert (Hnd : List.NoDup (keys Plans.tie)).
  { repeat constructor; simpl; intuition discriminate. }
  split; [exact Hnd|].
  destruct (settlement_order_deterministic Plans.tie Hnd) as (Hc & _ & Hp).
  split.
  - intros a1 k1 a2 k2. apply (Hc 0%nat 1%nat). lia.
  - apply Hp. unfold Plans.tie, Plans.tie'.
    eapply Permutation_trans; [apply perm_swap|].
    eapply Permutation_trans; [apply perm_skip, perm_swap|].
    eapply Permutation_trans; [apply perm_swap|].
    apply Permutation_refl.
Defined.

(** ** Deleting a transaction *)

Section DeleteTransaction.
Context {A : Type} `{Number A}.

Lemma find_transaction_stored (s : db A) (row : transaction A) :
  List.NoDup (map t_id (transactions s)) -> In row (transactions s) ->
  find_transaction (t_id row) s = Some row.
Proof.
  unfold find_transaction. induction (transactions s) as [|t l IH]; simpl; [tauto|].
  intros Hnd [->|Hin].
  - now rewrite Z.eqb_refl.
  - inversion Hnd as [|? ? Hnotin Hnd']; subst.
    destruct (Z.eqb_spec (t_id t) (t_id row)) as [E|E]; [|auto].
    exfalso. apply Hnotin. rewrite E. now apply List.in_map.
Qed.

(** With a balance set, the balance is never adjusted and the row never
    deleted: the connection of [adjust_balance] meets the write lock of
    the connection that has just run the [DELETE]. *)
Lemma delete_transaction_meets_lock (s : db A) (row : transaction A) (b : A) :
  List.NoDup (map t_id (transactions s)) -> In row (transactions s) ->
  balance s = Some b ->
  delete_transaction (t_id row) s = Raised OperationalError.
Proof.
  intros Hnd Hin Hb. unfold delete_transaction.
  rewrite (find_transaction_stored s row Hnd Hin).
  unfold get_balance, adjust_balance, get_balance, set_balance. now rewrite Hb.
Qed.

(** Without a balance there is nothing to adjust and the row goes. *)
Lemma delete_transaction_without_balance (s : db A) (row : transaction A) :
  List.NoDup (map t_id (transactions s)) -> In row (transactions s) ->
  balance s = None ->
  delete_transaction (t_id row) s = Returned (delete_row (t_id row) s) true.
Proof.
  intros Hnd Hin Hb. unfold delete_transaction.
  rewrite (find_transaction_stored s row Hnd Hin).
  unfold get_balance. now rewrite Hb.
Qed.

(** Run after the commit, as [delete_category_transactions] runs it, the
    same adjustment goes through and is the reversal: the balance moves
    to the rounded sum. *)
Lemma adjust_balance_after_commit (s : db A) (b delta : A) :
  balance s = Some b ->
  adjust_balance false delta s
  = Returned (mkDb (debts s) (transactions s) (Some (nround2 (nadd b delta)))) tt.
Proof.
  intros Hb. unfold adjust_balance, get_balance, set_balance. now rewrite Hb.
Qed.

(** The sibling path on the same store: deleting the one transaction of
    a category and month adjusts the balance after the commit. *)
Lemma delete_category_single (s : db A) (category : string) (year month : Z)
    (row : transaction A) (b : A) :
  List.filter (in_category_month category (month_prefix year month)) (transactions s)
  = [row] ->
  balance s = Some b ->
  exists s',
    delete_category_transactions category year month s = Returned s' 1%nat
    /\ balance s'
       = Some (nround2 (nadd b (match t_type row with
                                | Spend => nsub (nadd nzero (t_amount row)) nzero
                                | Income => nsub nzero (nadd nzero (t_amount row))
                                end))).
Proof.
  intros Hrows Hb. unfold delete_category_transactions. rewrite Hrows. simpl.
  unfold get_balance, adjust_balance, get_balance, set_balance. simpl. rewrite Hb.
  eexists. split; [reflexivity|]. simpl. unfold sum_of_kind. simpl.
  destruct (t_type row); reflexivity.
Qed.

End DeleteTransaction.

Module Stores.

(** A balance of 500.00, a spend of 12.50 and an income of 90.00. *)
Definition with_balance : db spec_float :=
  mkDb []
       [mkTx 7 (Examples.money 1250) Spend "food" "lunch" "2026-02-26 12:00:00";
        mkTx 8 (Examples.money 9000) Income "income" "salary" "2026-02-27 09:00:00"]
       (Some (Examples.money 50000)).

(** Alice owes the owner 10.00. *)
Definition alice_owes : db spec_float :=
  mkDb [Examples.owes 1 "me" "alice" (Examples.money 1000)] [] None.

(** Alice owes the owner 0.10 and 0.20; with a third debt of 1.00; and
    with the two small debts entered in the other order. *)
Definition two_debts : db spec_float :=
  mkDb [mkDebt 1 "me" "alice" (Examples.money 10) "coffee" false "2026-02-24 10:00:00";
        mkDebt 2 "me" "alice" (Examples.money 20) "bus" false "2026-02-25 10:00:00"]
       [] None.

Definition three_debts : db spec_float :=
  mkDb [mkDebt 1 "me" "alice" (Examples.money 10) "coffee" false "2026-02-24 10:00:00";
        mkDebt 2 "me" "alice" (Examples.money 20) "bus" false "2026-02-25 10:00:00";
        mkDebt 3 "me" "alice" (Examples.money 100) "lunch" false "2026-02-26 10:00:00"]
       [] None.

Definition three_debts' : db spec_float :=
  mkDb [mkDebt 1 "me" "alice" (Examples.money 20) "bus" false "2026-02-24 10:00:00";
        mkDebt 2 "me" "alice" (Examples.money 10) "coffee" false "2026-02-25 10:00:00";
        mkDebt 3 "me" "alice" (Examples.money 100) "lunch" false "2026-02-26 10:00:00"]
       [] None.

(** Alice owes the owner 10.00, the owner owes Alice 4.00, and Bob owes
    the owner 7.00. *)
Definition ledger : db spec_float :=
  mkDb [mkDebt 1 "me" "alice" (Examples.money 1000) "dinner" false "2026-02-26 10:00:00";
        mkDebt 2 "alice" "me" (Examples.money 400) "taxi" false "2026-02-27 10:00:00";
        mkDebt 3 "me" "bob" (Examples.money 700) "lunch" false "2026-02-25 10:00:00"]
       [] None.

End Stores.

(** C5 fails on the code.  With a balance of 500.00 set, deleting the
    spend of 12.50 or the income of 90.00 raises "database is locked";
    the rollback keeps the row and the balance stays at 500.00.  Deleting
    the spend through its category and month succeeds and moves the
    balance to 512.50. *)
Theorem delete_with_balance_raises :
  get_balance Stores.with_balance = Some (Examples.money 50000)
  /\ delete_transaction 7 Stores.with_balance = Raised OperationalError
  /\ delete_transaction 8 Stores.with_balance = Raised OperationalError
  /\ delete_category_transactions "food" 2026 2 Stores.with_balance
     = Returned (mkDb [] [mkTx 8 (Examples.money 9000) Income "income" "salary"
                               "2026-02-27 09:00:00"]
                      (Some (Examples.money 51250)))
                1%nat.
Proof. repeat split; vm_compute; reflexivity. Qed.

(** ** Clearing debts *)

Section ClearDebtFacts.
Context {A : Type} `{Number A}.

Lemma insert_by_created_at_perm (x : debt A) (l : list (debt A)) :
  Permutation (insert_by_created_at x l) (x :: l).
Proof.
  induction l as [|y l IH]; simpl; [reflexivity|].
  destruct (String.ltb (d_created_at y) (d_created_at x)); [|reflexivity].
  rewrite IH. apply perm_swap.
Qed.

Lemma order_by_created_at_perm (l : list (debt A)) :
  Permutation (order_by_created_at l) l.
Proof.
  induction l as [|x l IH]; simpl; [reflexivity|].
  rewrite insert_by_created_at_perm. now constructor.
Qed.

Lemma select_debts_In (person : string) (tbl : list (debt A)) (d : debt A) :
  In d (select_debts person tbl) <-> In d tbl /\ involves person d = true.
Proof.
  unfold select_debts. rewrite <- List.filter_In.
  split; apply Permutation_in;
    [apply order_by_created_at_perm | symmetry; apply order_by_created_at_perm].
Qed.

(** The rows fetched are distinct rows of the table. *)
Lemma select_debts_ids (person : string) (tbl : list (debt A)) :
  List.NoDup (map d_id tbl) -> List.NoDup (map d_id (select_debts person tbl)).
Proof.
  intros Hnd. unfold select_debts.
  eapply Permutation_NoDup.
  { symmetry. apply Permutation_map, order_by_created_at_perm. }
  induction tbl as [|d tbl IH]; simpl; [constructor|].
  inversion Hnd as [|? ? Hnotin Hnd']; subst.
  destruct (involves person d); simpl; [|auto].
  constructor; [|auto]. intros Hin. apply Hnotin.
  apply List.in_map_iff in Hin. destruct Hin as [d' [E Hin]].
  apply List.filter_In in Hin. rewrite <- E. apply List.in_map. tauto.
Qed.

(** Oldest first: no row comes before a row with an earlier stamp. *)
Definition not_later (x y : debt A) : Prop :=
  String.ltb (d_created_at y) (d_created_at x) = false.

Lemma not_later_trans (x y z : debt A) :
  not_later x y -> not_later y z -> not_later x z.
Proof.
  unfold not_later. intros Hxy Hyz.
  destruct (String.ltb (d_created_at z) (d_created_at x)) eqn:Hzx; [|reflexivity].
  destruct (string_ltb_total (d_created_at y) (d_created_at x)) as [E|[Hlt|Hlt]];
    [| congruence |].
  - rewrite <- E in Hzx. congruence.
  - destruct (string_ltb_total (d_created_at z) (d_created_at y)) as [E|[Hlt'|Hlt']];
      [| congruence |].
    + rewrite E in Hzx. rewrite (string_ltb_asym _ _ Hlt) in Hzx. discriminate.
    + pose proof (string_ltb_trans _ _ _ Hlt Hlt') as Hxz.
      rewrite (string_ltb_asym _ _ Hxz) in Hzx. discriminate.
Qed.

Lemma insert_by_created_at_In (x y : debt A) (l : list (debt A)) :
  In y (insert_by_created_at x l) <-> y = x \/ In y l.
Proof.
  split.
  - intros Hin. apply (Permutation_in _ (insert_by_created_at_perm x l)) in Hin.
    destruct Hin; auto.
  - intros Hin. apply (Permutation_in _ (Permutation_sym (insert_by_created_at_perm x l))).
    destruct Hin; [left | right]; auto.
Qed.

Lemma insert_by_created_at_sorted (x : debt A) (l : list (debt A)) :
  StronglySorted not_later l -> StronglySorted not_later (insert_by_created_at x l).
Proof.
  induction 1 as [|y l Hl IH Hy]; simpl.
  - constructor; constructor.
  - destruct (String.ltb (d_created_at y) (d_created_at x)) eqn:E.
    + constructor; [assumption|].
      rewrite List.Forall_forall in *. intros z Hz.
      apply insert_by_created_at_In in Hz. destruct Hz as [->|Hz]; [|auto].
      unfold not_later. now apply string_ltb_asym.
    + constructor; [constructor; assumption|].
      constructor; [exact E|].
      rewrite List.Forall_forall in *. intros z Hz.
      eapply not_later_trans; [exact E | auto].
Qed.

Lemma select_debts_oldest_first (person : string) (tbl : list (debt A)) :
  StronglySorted not_later (select_debts person tbl).
Proof.
  unfold select_debts.
  induction (List.filter (involves person) tbl) as [|x l IH]; simpl; [constructor|].
  now apply insert_by_created_at_sorted.
Qed.

End ClearDebtFacts.

(** The literal [0.004]. *)
Definition four_milli : spec_float := B64.of_decimal false 4 3.

(** C4 fails on the code.  Alice has three open debts, of 0.10, 0.20 and
    1.00, and [clear_debt("alice", 0.30)] is asked to clear less than
    she has open.  The first row is settled and leaves
    [0.30 - 0.10], which as a double is below 0.20; so the second row
    takes the partial branch, its new amount is
    [round(0.20 - (0.30 - 0.10), 2)], which is 0.0, the [UPDATE] breaks
    [CHECK(amount > 0)], and the call ends in [IntegrityError] with
    nothing changed.  It does so too when the two small debts were
    entered in the other order. *)
Theorem clear_debt_partial_raises :
  SFltb nzero (Examples.money 30) = true
  /\ SFltb (Examples.money 30) (outstanding "alice" (debts Stores.three_debts)) = true
  /\ SFltb (B64.sub (Examples.money 30) (Examples.money 10)) (Examples.money 20) = true
  /\ B64.round2 (B64.sub (Examples.money 20)
                   (B64.sub (Examples.money 30) (Examples.money 10)))
     = S754_zero false
  /\ clear_debt "alice" (Some (Examples.money 30)) Stores.three_debts
     = Raised IntegrityError
  /\ clear_debt "alice" (Some (Examples.money 30)) Stores.three_debts'
     = Raised IntegrityError.
Proof. repeat split; vm_compute; reflexivity. Qed.

(** C7 fails on the code.  Alice has open debts, so something is found;
    yet [clear_debt("alice", 0.30)] against her debts of 0.10 and 0.20
    returns neither [None] nor a positive total but raises
    [IntegrityError] (the defect of C4), and [clear_debt("alice", 0.004)]
    against her debt of 10.00 returns 0.0, which is not above zero and
    which the caller takes for nothing found. *)
Theorem clear_debt_found_without_total :
  existsb (involves "alice") (debts Stores.two_debts) = true
  /\ SFltb nzero (Examples.money 30) = true
  /\ clear_debt "alice" (Some (Examples.money 30)) Stores.two_debts
     = Raised IntegrityError
  /\ existsb (involves "alice") (debts Stores.alice_owes) = true
  /\ SFltb nzero four_milli = true
  /\ clear_debt "alice" (Some four_milli) Stores.alice_owes
     = Returned Stores.alice_owes (Some (S754_zero false))
  /\ ngtb (S754_zero false) nzero = false.
Proof. repeat split; vm_compute; reflexivity. Qed.

(** ** Statement ingestion *)

Section Ingestion.
Import Ingest.

Variables date_col desc_col amt_col debit_col credit_col : option nat.

Let step := ingest_row date_col desc_col amt_col debit_col credit_col.
Let run (data : list (list string)) := fold_left step data ([], []).

Lemma ingest_row_appends acc row :
  step acc row = (fst acc ++ fst (step ([], []) row), snd acc ++ snd (step ([], []) row)).
Proof.
  unfold step, ingest_row. destruct acc as [ts es]. simpl.
  destruct (is_blank row); simpl; [now rewrite !List.app_nil_r|].
  destruct (row_amount amt_col debit_col credit_col row); simpl;
    now rewrite ?List.app_nil_r.
Qed.

Lemma fold_ingest_appends data acc :
  fold_left step data acc = (fst acc ++ fst (run data), snd acc ++ snd (run data)).
Proof.
  unfold run. revert acc. induction data as [|row data IH]; intros acc; simpl.
  - rewrite !List.app_nil_r. now destruct acc.
  - rewrite IH, (IH (step ([], []) row)), (ingest_row_appends acc row). simpl.
    now rewrite !List.app_assoc.
Qed.

Lemma run_app d1 d2 :
  run (d1 ++ d2) = (fst (run d1) ++ fst (run d2), snd (run d1) ++ snd (run d2)).
Proof.
  unfold run at 1. rewrite List.fold_left_app. fold (run d1).
  apply fold_ingest_appends.
Qed.

Lemma run_cons row d :
  run (row :: d)
  = (fst (step ([], []) row) ++ fst (run d), snd (step ([], []) row) ++ snd (run d)).
Proof.
  change (row :: d) with ([row] ++ d). rewrite run_app. reflexivity.
Qed.



End Ingestion.

(** ** Texts the reader accepts *)

Section ReaderAccepts.
Import Csv.

Definition LF : ascii := "010"%char.
Definition CR : ascii := "013"%char.

(** Every carriage return is followed at once by a line feed or by the
    end of the text; [pending] tells that the character before was a
    carriage return. *)
Fixpoint returns_paired (pending : bool) (text : string) : bool :=
  match text with
  | EmptyString => true
  | String c text' =>
      if pending then Ascii.eqb c LF && returns_paired false text'
      else returns_paired (Ascii.eqb c CR) text'
  end.

(** The characters of a line without the end of the line. *)
Fixpoint feed (s : string) (r : reader) : option reader :=
  match s with
  | EmptyString => Some r
  | String c s' =>
      match parse_process_char r (Some c) with
      | Some r' => feed s' r'
      | None => None
      end
  end.

Lemma process_line_feed (line : string) (r : reader) :
  process_line line r
  = match feed line r with
    | Some r' => parse_process_char r' None
    | None => None
    end.
Proof.
  revert r. induction line as [|c line IH]; intros r; simpl; [reflexivity|].
  destruct (parse_process_char r (Some c)); [apply IH | reflexivity].
Qed.

Lemma feed_snoc (s : string) (c : ascii) (r : reader) :
  feed (String.append s (String c "")) r
  = match feed s r with
    | Some r' => parse_process_char r' (Some c)
    | None => None
    end.
Proof.
  revert r. induction s as [|d s IH]; intros r.
  - change (feed (String c "") r = parse_process_char r (Some c)).
    simpl. now destruct (parse_process_char r (Some c)).
  - change (feed (String d (String.append s (String c ""))) r
            = match feed (String d s) r with
              | Some r' => parse_process_char r' (Some c)
              | None => None
              end).
    simpl. destruct (parse_process_char r (Some d)); [apply IH | reflexivity].
Qed.

Definition eating (r : reader) : bool :=
  match state r with EAT_CRNL => true | _ => false end.

(** The characters of a text: the bytes that begin one. *)
Definition one_character (c : ascii) : N := if continuation c then 0 else 1.

Fixpoint characters (s : string) : N :=
  match s with
  | EmptyString => 0
  | String c s' => one_character c + characters s'
  end.

Lemma characters_snoc (s : string) (c : ascii) :
  characters (String.append s (String c "")) = (characters s + one_character c)%N.
Proof.
  induction s as [|d s IH]; [simpl; lia|].
  change (one_character d + characters (String.append s (String c ""))
          = one_character d + characters s + one_character c)%N.
  rewrite IH. lia.
Qed.

Fixpoint leading (bs : list Z) : N :=
  match bs with
  | [] => 0
  | b :: bs' => (if Utf8.continuation b then 0 else 1) + leading bs'
  end.

(** Every byte that begins a character begins a code point. *)
Lemma leading_decode (n : nat) (bs : list Z) :
  (length bs <= n)%nat -> (leading bs <= N.of_nat (length (Utf8.decode bs)))%N.
Proof.
  revert bs. induction n as [|n IH]; intros bs Hn.
  - destruct bs; [simpl; lia | simpl in Hn; lia].
  - destruct bs as [|b0 r0]; [simpl; lia|].
    simpl in Hn.
    assert (Hraw : (leading (b0 :: r0)
                    <= N.of_nat (length (Utf8.raw b0 :: Utf8.decode r0)))%N).
    { pose proof (IH r0 ltac:(lia)). simpl.
      destruct (Utf8.continuation b0); lia. }
    simpl Utf8.decode.
    destruct (b0 <? 128).
    { pose proof (IH r0 ltac:(lia)). simpl. destruct (Utf8.continuation b0); lia. }
    destruct r0 as [|b1 r1]; [exact Hraw|].
    destruct (Utf8.two b0 b1) eqn:E2.
    { unfold Utf8.two in E2. apply andb_true_iff in E2. destruct E2 as [_ E1].
      simpl in Hn. pose proof (IH r1 ltac:(lia)). simpl. rewrite E1.
      destruct (Utf8.continuation b0); lia. }
    destruct r1 as [|b2 r2]; [exact Hraw|].
    destruct (Utf8.three b0 b1 b2) eqn:E3.
    { unfold Utf8.three in E3. rewrite !andb_true_iff in E3.
      destruct E3 as [[[_ C1] C2] _].
      simpl in Hn. pose proof (IH r2 ltac:(lia)). simpl. rewrite C1, C2.
      destruct (Utf8.continuation b0); lia. }
    destruct r2 as [|b3 r3]; [exact Hraw|].
    destruct (Utf8.four b0 b1 b2 b3) eqn:E4; [|exact Hraw].
    unfold Utf8.four in E4. rewrite !andb_true_iff in E4.
    destruct E4 as [[[[[_ C1] C2] C3] _] _].
    simpl in Hn. pose proof (IH r3 ltac:(lia)). simpl. rewrite C1, C2, C3.
    destruct (Utf8.continuation b0); lia.
Qed.

(** A text has no more code points than bytes. *)
Lemma decode_length (n : nat) (bs : list Z) :
  (length bs <= n)%nat -> (length (Utf8.decode bs) <= length bs)%nat.
Proof.
  revert bs. induction n as [|n IH]; intros bs Hn.
  - destruct bs; [simpl; lia | simpl in Hn; lia].
  - destruct bs as [|b0 r0]; [simpl; lia|].
    simpl in Hn.
    assert (Hraw : (length (Utf8.raw b0 :: Utf8.decode r0) <= length (b0 :: r0))%nat).
    { pose proof (IH r0 ltac:(lia)). simpl. lia. }
    simpl Utf8.decode.
    destruct (b0 <? 128); [exact Hraw|].
    destruct r0 as [|b1 r1]; [exact Hraw|].
    destruct (Utf8.two b0 b1).
    { simpl in Hn. pose proof (IH r1 ltac:(lia)). simpl. lia. }
    destruct r1 as [|b2 r2]; [exact Hraw|].
    destruct (Utf8.three b0 b1 b2).
    { simpl in Hn. pose proof (IH r2 ltac:(lia)). simpl. lia. }
    destruct r2 as [|b3 r3]; [exact Hraw|].
    destruct (Utf8.four b0 b1 b2 b3); [|exact Hraw].
    simpl in Hn. pose proof (IH r3 ltac:(lia)). simpl. lia.
Qed.

Lemma points_length (s : string) : (length (Utf8.points s) <= String.length s)%nat.
Proof.
  unfold Utf8.points.
  assert (E : length (Utf8.bytes s) = String.length s).
  { unfold Utf8.bytes. rewrite List.length_map.
    induction s as [|c s IH]; [reflexivity | simpl; now rewrite IH]. }
  rewrite <- E. now apply (decode_length (length (Utf8.bytes s))).
Qed.

Lemma characters_leading (s : string) : characters s = leading (Utf8.bytes s).
Proof.
  induction s as [|c s IH]; [reflexivity|].
  change (one_character c + characters s
          = (if Utf8.continuation (Utf8.byte_of c) then 0 else 1)
            + leading (Utf8.bytes s))%N.
  now rewrite IH.
Qed.

Lemma characters_points (s : string) :
  (characters s <= N.of_nat (length (Utf8.points s)))%N.
Proof.
  rewrite characters_leading. unfold Utf8.points.
  now apply (leading_decode (length (Utf8.bytes s))).
Qed.

(** The end of a line never raises, and leaves the reader at the start
    of a record or inside a quoted field. *)
Lemma end_of_line (r : reader) :
  exists r', parse_process_char r None = Some r'
             /\ (field_len r' <= field_len r)%N
             /\ (is_start (state r') = true \/ is_in_quoted (state r') = true).
Proof.
  unfold parse_process_char, start_field.
  destruct r as [st fs f n]. simpl.
  destruct st; simpl; eexists; (split; [reflexivity|]); simpl; split; auto; lia.
Qed.

(** A character raises only past the field limit, or after a carriage
    return that no line feed follows. *)
Lemma one_char (r : reader) (c : ascii) :
  (field_len r + one_character c <= field_limit)%N ->
  (eating r = true -> is_newline c = true) ->
  exists r', parse_process_char r (Some c) = Some r'
             /\ (field_len r' <= field_len r + one_character c)%N
             /\ (eating r' = true -> is_newline c = true).
Proof.
  unfold one_character. intros Hlen Heat.
  assert (Hadd : forall st, exists r', parse_add_char r st c = Some r'
                   /\ (field_len r' <= field_len r + (if continuation c then 0 else 1))%N
                   /\ state r' = st).
  { intros st. unfold parse_add_char.
    destruct (continuation c).
    { eexists. split; [reflexivity|]. simpl. split; [lia | reflexivity]. }
    destruct (N.leb_spec field_limit (field_len r)); [lia|].
    eexists. split; [reflexivity|]. simpl. split; [lia | reflexivity]. }
  assert (Hdone : forall r', (field_len r' <= field_len r)%N ->
                    (eating r' = true -> is_newline c = true) ->
                    exists r'', Some r' = Some r''
                      /\ (field_len r'' <= field_len r + (if continuation c then 0 else 1))%N
                      /\ (eating r'' = true -> is_newline c = true)).
  { intros r' Hl He. exists r'. split; [reflexivity|].
    split; [destruct (continuation c); lia | exact He]. }
  assert (Hadded : forall st, st <> EAT_CRNL ->
                    exists r', parse_add_char r st c = Some r'
                      /\ (field_len r' <= field_len r + (if continuation c then 0 else 1))%N
                      /\ (eating r' = true -> is_newline c = true)).
  { intros st Hst. destruct (Hadd st) as (r' & E & Hl & Hs).
    exists r'. split; [exact E|]. split; [exact Hl|].
    unfold eating. rewrite Hs. destruct st; congruence. }
  unfold parse_process_char, start_field. unfold eating in Heat.
  destruct (state r) eqn:Est.
  - destruct (is_newline c) eqn:En.
    + apply Hdone; simpl; [lia | auto].
    + destruct (Ascii.eqb c "034"); [apply Hdone; simpl; [lia | discriminate]|].
      destruct (Ascii.eqb c ","); [apply Hdone; simpl; [lia | discriminate]|].
      apply Hadded. discriminate.
  - destruct (is_newline c) eqn:En.
    + apply Hdone; simpl; [lia | auto].
    + destruct (Ascii.eqb c "034"); [apply Hdone; simpl; [lia | discriminate]|].
      destruct (Ascii.eqb c ","); [apply Hdone; simpl; [lia | discriminate]|].
      apply Hadded. discriminate.
  - destruct (is_newline c) eqn:En.
    + apply Hdone; simpl; [lia | auto].
    + destruct (Ascii.eqb c ","); [apply Hdone; simpl; [lia | discriminate]|].
      apply Hadded. discriminate.
  - destruct (Ascii.eqb c "034"); [apply Hdone; simpl; [lia | discriminate]|].
    apply Hadded. discriminate.
  - destruct (Ascii.eqb c "034"); [apply Hadded; discriminate|].
    destruct (Ascii.eqb c ","); [apply Hdone; simpl; [lia | discriminate]|].
    destruct (is_newline c) eqn:En.
    + apply Hdone; simpl; [lia | auto].
    + apply Hadded. discriminate.
  - rewrite (Heat eq_refl). exists r. split; [reflexivity|].
    split; [destruct (continuation c); lia | auto].
Qed.

Lemma append_nil_r (s : string) : String.append s "" = s.
Proof.
  induction s as [|c s IH]; [reflexivity|].
  change (String c (String.append s "") = String c s). now rewrite IH.
Qed.

Lemma read_records_end (r : reader) (acc : list (list string)) :
  exists rows, read_records [] r acc = Some rows.
Proof.
  simpl. destruct (negb (N.eqb (field_len r) 0) || is_in_quoted (state r))%bool; eauto.
Qed.

Lemma read_records_cons (line : string) (rest : list string) (r : reader)
    (acc : list (list string)) :
  read_records (line :: rest) r acc
  = match process_line line r with
    | None => None
    | Some r' =>
        if is_start (state r')
        then read_records rest parse_reset (acc ++ [fields r'])
        else read_records rest r' acc
    end.
Proof. reflexivity. Qed.

(** The reader over the lines of [cur] followed by [text], when the
    characters of [cur] have brought it from [r0] to [r1]. *)
Lemma read_accepts (text cur : string) (r0 r1 : reader) (acc : list (list string))
    (pending : bool) :
  feed cur r0 = Some r1 ->
  (eating r1 = true -> pending = true) ->
  returns_paired pending text = true ->
  (field_len r1 + characters text <= field_limit)%N ->
  exists rows, read_records (lines_from cur text) r0 acc = Some rows.
Proof.
  revert cur r0 r1 acc pending.
  induction text as [|c text IH]; intros cur r0 r1 acc pending Hfeed Heat Hret Hlen.
  - simpl. destruct cur as [|d cur]; [apply read_records_end|].
    rewrite read_records_cons, process_line_feed, Hfeed.
    destruct (end_of_line r1) as (r' & -> & _ & _).
    destruct (is_start (state r')); apply read_records_end.
  - simpl in Hlen. simpl lines_from. simpl in Hret.
    assert (Hone : (one_character c <= 1)%N)
      by (unfold one_character; destruct (continuation c); lia).
    assert (Hnl : eating r1 = true -> is_newline c = true).
    { intros He. rewrite (Heat He) in Hret. apply andb_true_iff in Hret.
      destruct Hret as [Hc _]. apply Ascii.eqb_eq in Hc. now subst c. }
    destruct (one_char r1 c ltac:(lia) Hnl) as (r2 & Hstep & Hlen2 & Heat2).
    assert (Hfeed2 : feed (String.append cur (String c "")) r0 = Some r2)
      by now rewrite feed_snoc, Hfeed.
    destruct (Ascii.eqb_spec c "010") as [->|Hc].
    + rewrite read_records_cons, process_line_feed, Hfeed2.
      destruct (end_of_line r2) as (r3 & -> & Hlen3 & Hst3).
      assert (Hret' : returns_paired false text = true).
      { destruct pending; [now apply andb_true_iff in Hret|exact Hret]. }
      destruct (is_start (state r3)) eqn:Es.
      * apply (IH "" parse_reset parse_reset _ false); auto.
        change (field_len parse_reset) with 0%N. lia.
      * destruct Hst3 as [Hst3|Hst3]; [congruence|].
        apply (IH "" r3 r3 _ false); auto.
        -- unfold eating. destruct (state r3); discriminate.
        -- lia.
    + apply (IH _ r0 r2 acc (Ascii.eqb c CR)); auto.
      * intros He. specialize (Heat2 He). unfold is_newline in Heat2.
        apply orb_true_iff in Heat2. destruct Heat2 as [H1|H1]; [|exact H1].
        apply Ascii.eqb_eq in H1. contradiction.
      * destruct pending; [|exact Hret].
        apply andb_true_iff in Hret. destruct Hret as [H1 _].
        apply Ascii.eqb_eq in H1. contradiction.
      * lia.
Qed.




End ReaderAccepts.


Module Statements.

Definition LF : string := String "010"%char "".
Definition CR : string := String "013"%char "".

Definition lines (ls : list string) (sep : string) : string :=
  String.concat sep ls.

(** The statement of the round trip, with line feeds. *)
Definition round_trip : string :=
  lines ["date,amount,category,description"; "2026-02-26,50.00,food,groceries"] LF.

(** The same with a line feed after the last row, and as a Windows
    export does the line ends. *)
Definition round_trip_closed : string := String.append round_trip LF.
Definition round_trip_crlf : string :=
  lines ["date,amount,category,description"; "2026-02-26,50.00,food,groceries"; ""]
        (String.append CR LF).

Definition groceries : Ingest.csv_transaction :=
  Ingest.mkCsvTx (Some "2026-02-26") "groceries" (Examples.money 5000).



(** Three rows below a header, the second without a number. *)
Definition mixed : string := lines ["amount"; "1.50"; "abc"; "-2"] LF.

End Statements.



(** C8.  The statement with the header [date,amount,category,description]
    and the row [2026-02-26,50.00,food,groceries] parses to the one
    transaction with date ["2026-02-26"], description ["groceries"] and
    amount 50.00, with no error, whichever way its lines end; the import
    stores the transaction as income, its amount being above zero. *)
Theorem statement_round_trip :
  Ingest.parse_csv_transactions Statements.round_trip
  = Some ([Statements.groceries], [])
  /\ Ingest.parse_csv_transactions Statements.round_trip_closed
     = Some ([Statements.groceries], [])
  /\ Ingest.parse_csv_transactions Statements.round_trip_crlf
     = Some ([Statements.groceries], [])
  /\ Ingest.x_amount Statements.groceries = B64.of_decimal false 50 0
  /\ SFltb (S754_zero false) (Ingest.x_amount Statements.groceries) = true
  /\ Ingest.import_kind Statements.groceries = Income.
Proof. repeat split; vm_compute; reflexivity. Qed.

(** * Further code of the three files *)

(** ** [categorize_description] *)

Module Categories.

(** [kw in s] on strings: [kw] occurs somewhere in [s]. *)
Fixpoint contains (kw s : string) : bool :=
  String.prefix kw s
  || match s with
     | EmptyString => false
     | String _ s' => contains kw s'
     end.

Definition _CATEGORY_KEYWORDS : list (string * list string) :=
  [("food",
    ["restaurant"; "cafe"; "coffee"; "starbucks"; "mcdonald"; "kfc"; "burger";
     "pizza"; "subway"; "shawarma"; "lunch"; "dinner"; "breakfast"; "food";
     "grocery"; "supermarket"; "carrefour"; "lulu"; "spinneys"; "waitrose";
     "bakery"; "sushi"; "noodle"; "فطور"; "غداء"; "عشاء"; "مطعم"]);
   ("transport",
    ["uber"; "careem"; "taxi"; "fuel"; "petrol"; "gas station"; "adnoc"; "enoc";
     "parking"; "metro"; "bus"; "transport"; "toll"; "salik"; "نقل"; "بنزين"]);
   ("shopping",
    ["amazon"; "noon"; "ikea"; "zara"; "h&m"; "lulu"; "mall"; "shop"; "store";
     "electronics"; "apple"; "samsung"; "clothes"; "fashion"; "تسوق"]);
   ("bills",
    ["etisalat"; "du"; "addc"; "dewa"; "utility"; "electricity"; "water";
     "internet"; "phone"; "netflix"; "spotify"; "subscription"; "rent";
     "insurance"; "فاتورة"; "كهرباء"; "ماء"]);
   ("entertainment",
    ["cinema"; "movie"; "theatre"; "concert"; "event"; "ticket"; "game";
     "bowling"; "gym"; "theme park"; "yas"; "ferrari"; "global village"; "ترفيه"]);
   ("health",
    ["pharmacy"; "hospital"; "clinic"; "doctor"; "medical"; "medicine";
     "dentist"; "optical"; "health"; "صيدلية"; "مستشفى"; "طبيب"]);
   ("travel",
    ["airline"; "flight"; "hotel"; "airbnb"; "booking"; "expedia";
     "etihad"; "emirates"; "flydubai"; "airport"; "visa"; "سفر"]);
   ("income",
    ["salary"; "payroll"; "transfer in"; "deposit"; "refund"; "cashback"; "راتب"])].

(** The two loops over the table: the first category, in the order of the
    table, one of whose keywords occurs. *)
Fixpoint categorize_in (table : list (string * list string)) (desc_lower : string)
  : string :=
  match table with
  | [] => "other"
  | (category, keywords) :: rest =>
      if existsb (fun kw => contains kw desc_lower) keywords then category
      else categorize_in rest desc_lower
  end.

Definition categorize_description (description : string) : string :=
  categorize_in _CATEGORY_KEYWORDS (lower description).

(** [kw] occurs in [s]: [s] is some text, [kw], and some text. *)
Definition occurs (kw s : string) : Prop :=
  exists pre post, s = String.append pre (String.append kw post).

End Categories.

Section CategoriesFacts.
Import Categories.

Lemma prefix_append (kw s : string) :
  String.prefix kw s = true <-> exists post, s = String.append kw post.
Proof.
  revert s. induction kw as [|c kw IH]; intros s.
  - split; [intros _; now exists s | intros _; now destruct s].
  - destruct s as [|d s]; simpl.
    + split; [discriminate | intros [post Hp]; discriminate].
    + destruct (ascii_dec c d) as [->|Hne].
      * rewrite IH. split; intros [post Hp]; exists post.
        -- now rewrite Hp.
        -- simpl in Hp. now injection Hp.
      * split; [discriminate|]. intros [post Hp]. simpl in Hp.
        injection Hp as Hcd _. congruence.
Qed.

Lemma contains_occurs (kw s : string) : contains kw s = true <-> occurs kw s.
Proof.
  unfold occurs. induction s as [|c s IH].
  - change (contains kw "") with (String.prefix kw "" || false).
    rewrite orb_false_r, prefix_append. split.
    + intros [post Hp]. now exists EmptyString, post.
    + intros (pre & post & Hp). destruct pre; [now exists post | discriminate].
  - change (contains kw (String c s))
      with (String.prefix kw (String c s) || contains kw s).
    rewrite orb_true_iff, prefix_append, IH. split.
    + intros [[post Hp]|(pre & post & Hp)].
      * now exists EmptyString, post.
      * exists (String c pre), post. simpl. now rewrite Hp.
    + intros (pre & post & Hp). destruct pre as [|d pre].
      * left. now exists post.
      * right. simpl in Hp. injection Hp as _ Hp. now exists pre, post.
Qed.

Lemma append_assoc (a b c : string) :
  String.append (String.append a b) c = String.append a (String.append b c).
Proof.
  induction a as [|x a IH]; [reflexivity|].
  change (String x (String.append (String.append a b) c)
          = String x (String.append a (String.append b c))).
  now rewrite IH.
Qed.

(** A text that holds a longer keyword holds every part of it. *)
Lemma occurs_part (part kw s : string) : occurs part kw -> occurs kw s -> occurs part s.
Proof.
  intros (p1 & q1 & ->) (p2 & q2 & ->).
  exists (String.append p2 p1), (String.append q1 q2).
  now rewrite !append_assoc.
Qed.

Definition matches (keywords : list string) (text : string) : Prop :=
  exists kw, In kw keywords /\ occurs kw text.

Lemma existsb_matches (keywords : list string) (text : string) :
  existsb (fun kw => contains kw text) keywords = true <-> matches keywords text.
Proof.
  unfold matches. rewrite List.existsb_exists.
  split; intros [kw [Hin Hk]]; exists kw; split; auto; now apply contains_occurs.
Qed.

Lemma categorize_in_first (table : list (string * list string)) (text c : string) :
  List.NoDup (map fst table) -> ~ In "other" (map fst table) ->
  (categorize_in table text = c <->
   (exists before keywords after,
       table = before ++ (c, keywords) :: after
       /\ matches keywords text
       /\ forall c' keywords', In (c', keywords') before -> ~ matches keywords' text)
   \/ (c = "other"
       /\ forall c' keywords', In (c', keywords') table -> ~ matches keywords' text)).
Proof.
  induction table as [|[c0 kws0] table IH]; simpl; intros Hnd Hother.
  - split.
    + intros <-. right. split; [reflexivity | intros ? ? []].
    + intros [(before & kws & after & Ht & _)|[-> _]]; [|reflexivity].
      destruct before; discriminate.
  - inversion Hnd as [|? ? Hnotin Hnd']; subst.
    destruct (existsb (fun kw => contains kw text) kws0) eqn:E.
    + apply existsb_matches in E. split.
      * intros <-. left. exists [], kws0, table. simpl. split; [reflexivity|].
        split; [assumption | intros ? ? []].
      * intros [(before & kws & after & Ht & Hm & Hbefore)|[-> Hnone]].
        -- destruct before as [|[c1 k1] before]; simpl in Ht.
           ++ now injection Ht as -> _ _.
           ++ injection Ht as -> -> _. exfalso. eapply Hbefore; [now left | exact E].
        -- exfalso. eapply Hnone; [now left | exact E].
    + assert (Hno : ~ matches kws0 text).
      { intros Hm. apply existsb_matches in Hm. congruence. }
      rewrite IH by (auto; intros Hin; apply Hother; now right). split.
      * intros [(before & kws & after & -> & Hm & Hbefore)|[-> Hnone]].
        -- left. exists ((c0, kws0) :: before), kws, after. simpl.
           split; [reflexivity|]. split; [assumption|].
           intros c' k' [[= <- <-]|Hin]; eauto.
        -- right. split; [reflexivity|]. intros c' k' [[= <- <-]|Hin]; eauto.
      * intros [(before & kws & after & Ht & Hm & Hbefore)|[-> Hnone]].
        -- destruct before as [|[c1 k1] before]; simpl in Ht.
           ++ injection Ht as -> -> _. contradiction.
           ++ injection Ht as -> -> ->. left. exists before, kws, after.
              split; [reflexivity|]. split; [assumption|].
              intros c' k' Hin. apply (Hbefore c' k'). now right.
        -- right. split; [reflexivity|]. intros c' k' Hin. apply (Hnone c' k'). now right.
Qed.

(** X1.  The category of a description is the first category of the table
    with a keyword that occurs in the lower-cased description, and
    ["other"] exactly when no keyword of the table occurs in it. *)
Theorem categorize_first_match (description c : string) :
  categorize_description description = c <->
  (exists before keywords after,
      _CATEGORY_KEYWORDS = before ++ (c, keywords) :: after
      /\ matches keywords (lower description)
      /\ forall c' keywords', In (c', keywords') before ->
           ~ matches keywords' (lower description))
  \/ (c = "other"
      /\ forall c' keywords', In (c', keywords') _CATEGORY_KEYWORDS ->
           ~ matches keywords' (lower description)).
Proof.
  apply categorize_in_first.
  - repeat constructor; simpl; intuition discriminate.
  - simpl. intuition discriminate.
Qed.

End CategoriesFacts.

Section CategoriesShadowing.
Import Categories.

Lemma categorize_in_cons (c : string) (keywords : list string)
    (rest : list (string * list string)) (text : string) :
  categorize_in ((c, keywords) :: rest) text
  = if existsb (fun kw => contains kw text) keywords then c
    else categorize_in rest text.
Proof. reflexivity. Qed.

(** X2.  Keywords of [food], the first category, decide whatever else the
    description says; and a description that names [flydubai] holds the
    keyword [du] of [bills], so it is filed under [bills] or a category
    before it and never under [travel]. *)
Theorem categorize_shadowing (description : string) :
  (forall kw keywords rest,
      _CATEGORY_KEYWORDS = ("food", keywords) :: rest ->
      In kw keywords -> occurs kw (lower description) ->
      categorize_description description = "food")
  /\ (occurs "flydubai" (lower description) ->
      In (categorize_description description) ["food"; "transport"; "shopping"; "bills"]).
Proof.
  split.
  - intros kw keywords rest Htable Hin Hocc.
    unfold categorize_description. rewrite Htable, categorize_in_cons.
    replace (existsb (fun kw0 => contains kw0 (lower description)) keywords) with true;
      [reflexivity|].
    symmetry. apply existsb_matches. now exists kw.
  - intros Hfly.
    assert (Hdu : occurs "du" (lower description)).
    { apply (occurs_part "du" "flydubai"); [|assumption].
      now exists "fly", "bai". }
    unfold categorize_description, _CATEGORY_KEYWORDS.
    rewrite categorize_in_cons.
    destruct (existsb _ _); [simpl; tauto|].
    rewrite categorize_in_cons.
    destruct (existsb _ _); [simpl; tauto|].
    rewrite categorize_in_cons.
    destruct (existsb _ _); [simpl; tauto|].
    rewrite categorize_in_cons.
    destruct (existsb _ _) eqn:E; [simpl; tauto|].
    exfalso. apply Bool.not_true_iff_false in E. apply E.
    apply existsb_matches. exists "du". split; [simpl; tauto | assumption].
Qed.

Lemma categorize_shadowing_witness :
  occurs "flydubai" (lower "FlyDubai DXB-AMM")
  /\ categorize_description "FlyDubai DXB-AMM" = "bills"
  /\ categorize_description "lulu hypermarket mall" = "food".
Proof.
  assert (Hfly : occurs "flydubai" (lower "FlyDubai DXB-AMM")).
  { now exists "", " dxb-amm". }
  split; [exact Hfly|]. split.
  - destruct (proj2 (categorize_shadowing "FlyDubai DXB-AMM") Hfly)
      as [H|[H|[H|[H|[]]]]]; vm_compute in H |- *; congruence.
  - apply (proj1 (categorize_shadowing "lulu hypermarket mall") "lulu" _ _ eq_refl).
    + simpl. tauto.
    + now exists "", " hypermarket mall".
Defined.

End CategoriesShadowing.

(** ** Columns and amounts of a statement *)

Section ColumnFacts.
Import Ingest.

Definition is_alias (candidates : list string) (h : string) : bool :=
  in_set (lower (strip h)) candidates.

Lemma find_col_from_first (start : nat) (headers candidates : list string) :
  match find_col_from start headers candidates with
  | Some i =>
      (start <= i)%nat
      /\ (exists h, headers !! (i - start)%nat = Some h /\ is_alias candidates h = true)
      /\ forall j h, (j < i - start)%nat -> headers !! j = Some h ->
           is_alias candidates h = false
  | None => forall h, In h headers -> is_alias candidates h = false
  end.
Proof.
  revert start. induction headers as [|h0 headers IH]; intros start; simpl.
  - intros h [].
  - fold (is_alias candidates h0). destruct (is_alias candidates h0) eqn:E.
    + split; [lia|]. rewrite Nat.sub_diag. split; [now exists h0|]. intros j h Hj. lia.
    + specialize (IH (S start)).
      destruct (find_col_from (S start) headers candidates) as [i|].
      * destruct IH as (Hle & (h & Hh & Ha) & Hfirst).
        split; [lia|].
        replace (i - start)%nat with (S (i - S start)) by lia.
        split; [now exists h|].
        intros [|j] h' Hj Hl; simpl in Hl.
        -- now injection Hl as <-.
        -- apply (Hfirst j h'); [lia | assumption].
      * intros h [<-|Hin]; auto.
Qed.

(** X3.  [_find_col] returns the position of the first header that is, once
    stripped and lower-cased, one of the candidates, and [None] exactly
    when no header is. *)
Theorem find_col_first (headers candidates : list string) :
  match _find_col headers candidates with
  | Some i =>
      (exists h, headers !! i = Some h /\ is_alias candidates h = true)
      /\ forall j h, (j < i)%nat -> headers !! j = Some h ->
           is_alias candidates h = false
  | None => forall h, In h headers -> is_alias candidates h = false
  end.
Proof.
  unfold _find_col.
  pose proof (find_col_from_first 0 headers candidates) as H.
  destruct (find_col_from 0 headers candidates) as [i|]; [|assumption].
  rewrite Nat.sub_0_r in H. tauto.
Qed.

End ColumnFacts.

(** *** [_parse_amount] *)

Section AmountFacts.
Import Ingest.

Definition is_digit (c : Z) : bool :=
  match Unicode.digit_value c with Some _ => true | None => false end.

(** A decimal digit of any script as the ASCII digit of its value. *)
Definition as_ascii_digit (c : Z) : Z :=
  match Unicode.digit_value c with Some d => 48 + d | None => c end.

Lemma cleaned_skip (value value' : string) (pre post : list Z) (c : Z) :
  Utf8.points value = pre ++ c :: post ->
  Utf8.points value' = pre ++ post ->
  c = 44 \/ amount_point c = false ->
  cleaned value = cleaned value'.
Proof.
  intros E E' Hc. unfold cleaned. rewrite E, E'.
  rewrite !List.filter_app. simpl.
  destruct Hc as [->|Hc]; [reflexivity|].
  destruct (negb (c =? 44)); [|reflexivity]. simpl. now rewrite Hc.
Qed.

Definition no_digit (l : list Z) : bool := forallb (fun c => negb (is_digit c)) l.

Lemma digits_value_none (l : list Z) (acc : N) :
  no_digit l = true -> l <> [] -> digits_value l acc = None.
Proof.
  destruct l as [|c l]; [congruence|]. simpl. rewrite andb_true_iff.
  intros [Hc _] _. unfold is_digit in Hc. now destruct (Unicode.digit_value c).
Qed.

Lemma split_point_no_digit (l : list Z) :
  no_digit l = true ->
  no_digit (fst (split_point l)) = true
  /\ match snd (split_point l) with
     | Some fp => no_digit fp = true
     | None => True
     end.
Proof.
  induction l as [|c l IH]; simpl; [auto|].
  rewrite andb_true_iff. intros [Hc Hl].
  destruct (c =? 46); simpl; [auto|].
  destruct (split_point l) as [ip fp]. simpl in *.
  destruct (IH Hl) as [Hip Hfp]. now rewrite Hc, Hip.
Qed.

Lemma float_of_unsigned_no_digit (neg : bool) (l : list Z) :
  no_digit l = true -> float_of_unsigned neg l = None.
Proof.
  intros Hl. unfold float_of_unsigned.
  destruct (split_point_no_digit l Hl) as [Hip Hfp].
  destruct (split_point l) as [ip [fp|]]; simpl in Hip, Hfp.
  - destruct ip as [|c ip].
    + destruct fp as [|d fp]; [reflexivity|].
      simpl digits_value at 1. cbv iota beta.
      now rewrite (digits_value_none (d :: fp) 0%N Hfp).
    + now rewrite (digits_value_none (c :: ip) 0%N Hip).
  - destruct ip as [|c ip]; [reflexivity|].
    now rewrite (digits_value_none (c :: ip) 0%N Hip).
Qed.

Lemma float_of_points_no_digit (l : list Z) :
  no_digit l = true -> float_of_points l = None.
Proof.
  intros Hl. unfold float_of_points.
  destruct l as [|c l]; [reflexivity|].
  assert (Hl' : no_digit l = true) by (simpl in Hl; apply andb_true_iff in Hl; tauto).
  destruct (Z.eq_dec c 43) as [->|H43]; [now apply float_of_unsigned_no_digit|].
  destruct (Z.eq_dec c 45) as [->|H45]; [now apply float_of_unsigned_no_digit|].
  transitivity (float_of_unsigned false (c :: l));
    [|now apply float_of_unsigned_no_digit].
  destruct c as [|p|p]; try reflexivity.
  do 6 (destruct p as [p|p|]; try reflexivity); congruence.
Qed.

Lemma no_digit_filter (f : Z -> bool) (l : list Z) :
  no_digit l = true -> no_digit (List.filter f l) = true.
Proof.
  induction l as [|c l IH]; simpl; [reflexivity|].
  rewrite andb_true_iff. intros [Hc Hl].
  destruct (f c); simpl; [rewrite Hc|]; auto.
Qed.

(** The digits of a script read as the ASCII digits do. *)
Lemma digit_value_bounds (c d : Z) : Unicode.digit_value c = Some d -> 0 <= d < 10.
Proof.
  unfold Unicode.digit_value.
  destruct (List.find _ Unicode.digit_runs) as [first|] eqn:E; [|discriminate].
  apply List.find_some in E. intros [= <-]. lia.
Qed.

Lemma digit_value_ascii (d : Z) : 0 <= d < 10 -> Unicode.digit_value (48 + d) = Some d.
Proof.
  intros Hd.
  assert (d = 0 \/ d = 1 \/ d = 2 \/ d = 3 \/ d = 4 \/ d = 5 \/ d = 6 \/ d = 7
          \/ d = 8 \/ d = 9) as H by lia.
  repeat destruct H as [->|H]; try subst d; reflexivity.
Qed.

Lemma digit_value_as_ascii (c : Z) :
  Unicode.digit_value (as_ascii_digit c) = Unicode.digit_value c.
Proof.
  unfold as_ascii_digit. destruct (Unicode.digit_value c) as [d|] eqn:E; [|exact E].
  apply digit_value_ascii. eapply digit_value_bounds; eauto.
Qed.

Lemma as_ascii_digit_mark (c m : Z) :
  Unicode.digit_value m = None -> (as_ascii_digit c =? m) = (c =? m).
Proof.
  intros Hm. unfold as_ascii_digit.
  destruct (Unicode.digit_value c) as [d|] eqn:E; [|reflexivity].
  destruct (Z.eqb_spec c m) as [->|Hne]; [congruence|].
  apply Z.eqb_neq. intros Heq.
  pose proof (digit_value_ascii d (digit_value_bounds _ _ E)) as H.
  rewrite Heq in H. congruence.
Qed.

Lemma digits_value_as_ascii (l : list Z) (acc : N) :
  digits_value (map as_ascii_digit l) acc = digits_value l acc.
Proof.
  revert acc. induction l as [|c l IH]; intros acc; simpl; [reflexivity|].
  rewrite digit_value_as_ascii. destruct (Unicode.digit_value c); auto.
Qed.

Lemma split_point_as_ascii (l : list Z) :
  split_point (map as_ascii_digit l)
  = (map as_ascii_digit (fst (split_point l)),
     option_map (map as_ascii_digit) (snd (split_point l))).
Proof.
  induction l as [|c l IH]; simpl; [reflexivity|].
  rewrite (as_ascii_digit_mark c 46 eq_refl).
  destruct (c =? 46); [reflexivity|].
  rewrite IH. now destruct (split_point l).
Qed.

Lemma float_of_unsigned_as_ascii (neg : bool) (l : list Z) :
  float_of_unsigned neg (map as_ascii_digit l) = float_of_unsigned neg l.
Proof.
  unfold float_of_unsigned. rewrite split_point_as_ascii.
  destruct (split_point l) as [ip [fp|]]; cbn [fst snd option_map].
  - rewrite digits_value_as_ascii.
    destruct ip as [|c ip], fp as [|d fp]; cbn -[digits_value length];
      try reflexivity;
      (destruct (digits_value _ 0) as [ni|]; [|reflexivity]);
      change (as_ascii_digit d :: map as_ascii_digit fp)
        with (map as_ascii_digit (d :: fp));
      now rewrite ?digits_value_as_ascii, ?length_map.
  - rewrite digits_value_as_ascii. now destruct ip.
Qed.

Lemma float_of_points_as_ascii (l : list Z) :
  float_of_points (map as_ascii_digit l) = float_of_points l.
Proof.
  destruct l as [|c l]; [reflexivity|].
  change (map as_ascii_digit (c :: l)) with (as_ascii_digit c :: map as_ascii_digit l).
  pose proof (as_ascii_digit_mark c 43 eq_refl) as H43.
  pose proof (as_ascii_digit_mark c 45 eq_refl) as H45.
  destruct (Z.eqb_spec c 43) as [->|N43].
  { apply Z.eqb_eq in H43. rewrite H43. simpl. apply float_of_unsigned_as_ascii. }
  destruct (Z.eqb_spec c 45) as [->|N45].
  { apply Z.eqb_eq in H45. rewrite H45. simpl. apply float_of_unsigned_as_ascii. }
  apply Z.eqb_neq in H43, H45.
  transitivity (float_of_unsigned false (map as_ascii_digit (c :: l))).
  - simpl map. unfold float_of_points.
    destruct (as_ascii_digit c) as [|p|p]; try reflexivity.
    do 6 (destruct p as [p|p|]; try reflexivity); congruence.
  - rewrite float_of_unsigned_as_ascii. unfold float_of_points.
    destruct c as [|p|p]; try reflexivity.
    do 6 (destruct p as [p|p|]; try reflexivity); congruence.
Qed.

Lemma amount_point_as_ascii (c : Z) : amount_point (as_ascii_digit c) = amount_point c.
Proof.
  unfold amount_point. rewrite digit_value_as_ascii.
  now rewrite (as_ascii_digit_mark c 46 eq_refl), (as_ascii_digit_mark c 45 eq_refl),
    (as_ascii_digit_mark c 43 eq_refl).
Qed.

Lemma filter_map_commute {B} (f : B -> B) (p : B -> bool) (l : list B) :
  (forall x, p (f x) = p x) -> List.filter p (map f l) = map f (List.filter p l).
Proof.
  intros Hp. induction l as [|x l IH]; simpl; [reflexivity|].
  rewrite Hp. destruct (p x); simpl; now rewrite IH.
Qed.

Lemma cleaned_as_ascii (value : string) :
  map as_ascii_digit (cleaned value)
  = List.filter amount_point
      (List.filter (fun c => negb (c =? 44)) (map as_ascii_digit (Utf8.points value))).
Proof.
  unfold cleaned.
  rewrite (filter_map_commute as_ascii_digit (fun c => negb (c =? 44)))
    by (intros x; now rewrite (as_ascii_digit_mark x 44 eq_refl)).
  now rewrite (filter_map_commute as_ascii_digit amount_point)
    by apply amount_point_as_ascii.
Qed.

End AmountFacts.

(** X4.  A cell without a decimal digit has no amount.  A comma, and every
    character that is not a decimal digit, a point or a sign, can be put
    into a cell or taken out of it without changing the amount it parses
    to.  And the decimal digits of every script are read by their value:
    two cells that agree once each digit is written as an ASCII digit
    parse to the same amount. *)
Theorem parse_amount_cleaning (value value' : string) :
  (no_digit (Utf8.points value) = true -> Ingest._parse_amount value = None)
  /\ (forall pre post c,
        Utf8.points value = pre ++ c :: post ->
        Utf8.points value' = pre ++ post ->
        c = 44 \/ Ingest.amount_point c = false ->
        Ingest._parse_amount value = Ingest._parse_amount value')
  /\ (map as_ascii_digit (Utf8.points value) = map as_ascii_digit (Utf8.points value') ->
      Ingest._parse_amount value = Ingest._parse_amount value').
Proof.
  split; [|split].
  - intros Hv. unfold Ingest._parse_amount, Ingest.cleaned.
    apply float_of_points_no_digit. now do 2 apply no_digit_filter.
  - intros pre post c E E' Hc. unfold Ingest._parse_amount.
    now rewrite (cleaned_skip value value' pre post c E E' Hc).
  - intros E. unfold Ingest._parse_amount.
    rewrite <- (float_of_points_as_ascii (Ingest.cleaned value)),
            <- (float_of_points_as_ascii (Ingest.cleaned value')).
    now rewrite !cleaned_as_ascii, E.
Qed.

Lemma parse_amount_cleaning_witness :
  Ingest._parse_amount "1,250.50" = Ingest._parse_amount "1250.50"
  /\ Ingest._parse_amount "١٢٣" = Ingest._parse_amount "123"
  /\ Ingest._parse_amount "123" = Some (B64.of_decimal false 123 0)
  /\ Ingest._parse_amount "n/a" = None.
Proof.
  split; [|split; [|split]].
  - apply (proj1 (proj2 (parse_amount_cleaning "1,250.50" "1250.50")) [49] [50; 53; 48; 46; 53; 48] 44);
      [reflexivity | reflexivity | now left].
  - apply (proj2 (proj2 (parse_amount_cleaning "١٢٣" "123"))). reflexivity.
  - reflexivity.
  - apply (proj1 (parse_amount_cleaning "n/a" "")). reflexivity.
Defined.

(** ** The rows below the header *)

Section RowAccounting.
Import Ingest.

Variables date_col desc_col amt_col debit_col credit_col : option nat.

Let step := ingest_row date_col desc_col amt_col debit_col credit_col.
Let run (data : list (list string)) := fold_left step data ([], []).
Let amount_of := row_amount amt_col debit_col credit_col.

Definition filled (data : list (list string)) : list (list string) :=
  List.filter (fun row => negb (is_blank row)) data.

Definition without_amount (amount_of : list string -> option spec_float)
    (row : list string) : bool :=
  match amount_of row with Some _ => false | None => true end.

Definition rounded_amount (amount_of : list string -> option spec_float)
    (row : list string) : list spec_float :=
  match amount_of row with Some a => [B64.round2 a] | None => [] end.

Lemma step_alone (row : list string) :
  step ([], []) row
  = if is_blank row then ([], [])
    else match amount_of row with
         | Some a =>
             ([mkCsvTx (match cell date_col row with
                        | Some v => Some (strip v)
                        | None => None
                        end)
                       (match cell desc_col row with
                        | Some v => strip v
                        | None => "transaction"
                        end)
                       (B64.round2 a)], [])
         | None => ([], [Bad_amount row])
         end.
Proof.
  unfold step, ingest_row, amount_of.
  destruct (is_blank row); [reflexivity|].
  now destruct (row_amount amt_col debit_col credit_col row).
Qed.

Lemma run_accounts (data : list (list string)) :
  snd (run data) = map Bad_amount (List.filter (without_amount amount_of) (filled data))
  /\ map x_amount (fst (run data)) = flat_map (rounded_amount amount_of) (filled data)
  /\ (length (fst (run data)) + length (snd (run data)))%nat = length (filled data).
Proof.
  induction data as [|row data (IHe & IHt & IHn)];
    [split; [reflexivity | split; reflexivity]|].
  unfold run. fold step. rewrite (run_cons date_col desc_col amt_col debit_col credit_col).
  fold step. fold (run data). rewrite step_alone.
  unfold filled. simpl List.filter. fold (filled data).
  destruct (is_blank row); simpl negb; cbv iota;
    [simpl; split; [assumption | split; assumption]|].
  simpl List.filter. simpl flat_map.
  unfold without_amount at 1, rounded_amount at 1.
  destruct (amount_of row) as [a|]; simpl.
  - split; [exact IHe|]. split; [now rewrite IHt | now rewrite IHn].
  - split; [now rewrite IHe|]. split; [exact IHt|].
    now rewrite Nat.add_succ_r, IHn.
Qed.

End RowAccounting.

(** X5.  Below a header every row that is not blank is accounted for once: it
    gives a transaction, with its amount rounded to two places, or an
    entry of the error list that carries the row, both in the order of
    the file. *)
Theorem parse_rows_accounts (rows : list (list string))
    (headers : list string) (data : list (list string)) :
  Ingest.find_header rows = Some (headers, data) ->
  let amount_of :=
    Ingest.row_amount (Ingest._find_col headers Ingest.AMOUNT_COLS)
                      (Ingest._find_col headers Ingest.DEBIT_COLS)
                      (Ingest._find_col headers Ingest.CREDIT_COLS) in
  let txs := fst (Ingest.parse_rows rows) in
  let errs := snd (Ingest.parse_rows rows) in
  errs = map Ingest.Bad_amount (List.filter (without_amount amount_of) (filled data))
  /\ map Ingest.x_amount txs = flat_map (rounded_amount amount_of) (filled data)
  /\ (length txs + length errs)%nat = length (filled data).
Proof.
  intros Hh amount_of. unfold Ingest.parse_rows.
  destruct rows as [|row0 rows0]; [discriminate|].
  rewrite Hh.
  exact (run_accounts (Ingest._find_col headers Ingest.DATE_COLS)
           (Ingest._find_col headers Ingest.DESC_COLS)
           (Ingest._find_col headers Ingest.AMOUNT_COLS)
           (Ingest._find_col headers Ingest.DEBIT_COLS)
           (Ingest._find_col headers Ingest.CREDIT_COLS) data).
Qed.

Lemma parse_rows_accounts_witness :
  let rows := [["Date"; "Amount"]; ["2024-01-05"; "1.50"]; [""; " "];
               ["2024-01-06"; "abc"]; ["2024-01-07"; "-2"]] in
  (length (fst (Ingest.parse_rows rows)) + length (snd (Ingest.parse_rows rows)))%nat
  = 3%nat.
Proof.
  intros rows.
  exact (proj2 (proj2 (parse_rows_accounts rows (Ingest.normalize ["Date"; "Amount"])
                         (List.tl rows) eq_refl))).
Defined.

(** ** Debit and credit columns *)

Section DebitCredit.
Import Ingest.

(** [x and abs(x) > 0.001] of an optional amount. *)
Definition beyond_milli (x : option spec_float) : bool :=
  match x with
  | Some v => truthy x && SFltb milli (SFabs v)
  | None => false
  end.

(** X6.  In a statement with a debit and a credit column and no amount
    column, the credit cell decides when it is beyond 0.001 in absolute
    value, whatever the debit cell holds, and the amount is then never
    negative; otherwise the debit cell must be beyond 0.001, and the row
    is stored as a spend. *)
Theorem debit_credit_kinds (dc cc : nat) (row : list string) (a : spec_float) :
  row_amount None (Some dc) (Some cc) row = Some a ->
  let debit := row !! dc ≫= _parse_amount in
  let credit := row !! cc ≫= _parse_amount in
  (beyond_milli credit = true ->
     exists c, credit = Some c /\ a = SFabs c
               /\ SFltb (B64.round2 a) (S754_zero false) = false)
  /\ (beyond_milli credit = false ->
     beyond_milli debit = true
     /\ (exists d, debit = Some d /\ a = SFopp (SFabs d))
     /\ forall date description,
          import_kind (mkCsvTx date description (B64.round2 a)) = Spend).
Proof.
  unfold row_amount. simpl cell. cbv zeta.
  change (match row !! dc with Some v => _parse_amount v | None => None end)
    with (row !! dc ≫= _parse_amount).
  change (match row !! cc with Some v => _parse_amount v | None => None end)
    with (row !! cc ≫= _parse_amount).
  generalize (row !! dc ≫= _parse_amount) (row !! cc ≫= _parse_amount).
  intros debit credit Ha. unfold beyond_milli.
  assert (Hdebit : beyond_milli credit = false ->
            match debit with
            | Some d => if truthy debit && SFltb milli (SFabs d)
                        then Some (SFopp (SFabs d)) else None
            | None => None
            end = Some a).
  { unfold beyond_milli. destruct credit as [c|]; [|auto].
    intros Hc. now rewrite Hc in Ha. }
  split.
  - destruct credit as [c|]; [|discriminate].
    intros Hc. rewrite Hc in Ha. injection Ha as <-.
    exists c. split; [reflexivity|]. split; [reflexivity|].
    apply positive_not_below_zero, round2_sign, sign_abs.
  - intros Hc. specialize (Hdebit Hc).
    destruct debit as [d|]; [|discriminate].
    destruct (truthy (Some d) && SFltb milli (SFabs d)); [|discriminate].
    injection Hdebit as <-.
    split; [reflexivity|]. split; [now exists d|].
    intros date description. unfold import_kind. simpl x_amount.
    now rewrite (negative_not_above_zero _ (round2_sign _ _ (sign_opp_abs d))).
Qed.

Lemma debit_credit_kinds_witness :
  let row := ["2024-02-01"; "ADNOC fuel"; "120.00"; ""] in
  import_kind (mkCsvTx (Some "2024-02-01") "ADNOC fuel"
                 (B64.round2 (SFopp (SFabs (B64.of_decimal false 12000 2)))))
  = Spend.
Proof.
  intros row.
  exact (proj2 (proj2 (proj2
           (debit_credit_kinds 2 3 row (SFopp (SFabs (B64.of_decimal false 12000 2)))
              eq_refl) eq_refl))
           (Some "2024-02-01") "ADNOC fuel").
Defined.

End DebitCredit.

(** ** Texts the reader accepts *)

(** X7.  A text of at most 131072 characters in which every carriage return
    is followed at once by a line feed or by the end of the text is read
    without an exception: [parse_csv_transactions] returns its pair. *)
Theorem reader_accepts (csv_text : string) :
  returns_paired false csv_text = true ->
  (N.of_nat (length (Utf8.points csv_text)) <= Csv.field_limit)%N ->
  exists rows,
    Csv.csv_reader csv_text = Some rows
    /\ Ingest.parse_csv_transactions csv_text = Some (Ingest.parse_rows rows).
Proof.
  intros Hret Hlen.
  destruct (read_accepts csv_text "" Csv.parse_reset Csv.parse_reset [] false)
    as [rows Hrows]; auto.
  { pose proof (characters_points csv_text).
    change (Csv.field_len Csv.parse_reset) with 0%N. lia. }
  exists rows. unfold Ingest.parse_csv_transactions.
  unfold Csv.csv_reader. rewrite Hrows. now split.
Qed.

Lemma reader_accepts_witness :
  exists rows,
    Csv.csv_reader Statements.round_trip_crlf = Some rows
    /\ Ingest.parse_csv_transactions Statements.round_trip_crlf
       = Some (Ingest.parse_rows rows).
Proof.
  apply (reader_accepts Statements.round_trip_crlf); [reflexivity|].
  vm_compute. discriminate.
Defined.

(** ** Who pays whom *)

Section Payers.

Definition sides (payers receivers : list string) (st : @loop_state spec_float) : Prop :=
  map snd (debtors st) = payers
  /\ map snd (creditors st) = receivers
  /\ forall payer receiver amount,
       In (payer, receiver, amount) (transfers st) ->
       In payer payers /\ In receiver receivers.

Lemma sides_step (payers receivers : list string) (st st' : @loop_state spec_float) :
  sides payers receivers st -> loop_body st = Some st' -> sides payers receivers st'.
Proof.
  intros (Hd & Hc & Ht) Hb.
  destruct (loop_body_names _ _ Hb) as (Ec & Ed & payer & receiver & amount & Et & Hp & Hr).
  unfold sides. rewrite Ec, Ed, Et. split; [assumption|]. split; [assumption|].
  intros p r a Hin. apply List.in_app_iff in Hin.
  destruct Hin as [Hin|[[= <- <- <-]|[]]]; [eauto|].
  rewrite <- Hd, <- Hc. now split.
Qed.

Lemma sides_steps (payers receivers : list string) (n : nat) (st : @loop_state spec_float) :
  sides payers receivers st -> sides payers receivers (loop_steps n st).
Proof.
  revert st. induction n as [|n IH]; simpl; intros st Hst; [assumption|].
  destruct (loop_body st) as [st'|] eqn:Hb; [|assumption].
  eapply IH, sides_step; eauto.
Qed.

Lemma creditor_names (balances : dict spec_float) (k : string) :
  List.NoDup (keys balances) ->
  In k (map snd (creditors_of balances)) ->
  exists w, dict_get balances k = Some w /\ SFltb nzero w = true.
Proof.
  intros Hnd Hin. apply List.in_map_iff in Hin. destruct Hin as [[v k'] [E Hin]].
  simpl in E. subst k'. unfold creditors_of in Hin.
  apply In_sorted_desc, List.in_map_iff in Hin.
  destruct Hin as [[k' w] [[= <- <-] Hin]]. apply List.filter_In in Hin.
  destruct Hin as [Hin Hpos]. exists w. split; [now apply In_dict_get | exact Hpos].
Qed.

Lemma debtor_names (balances : dict spec_float) (k : string) :
  List.NoDup (keys balances) ->
  In k (map snd (debtors_of balances)) ->
  exists v, dict_get balances k = Some v /\ SFltb v nzero = true.
Proof.
  intros Hnd Hin. apply List.in_map_iff in Hin. destruct Hin as [[v k'] [E Hin]].
  simpl in E. subst k'. unfold debtors_of in Hin.
  apply In_sorted_desc, List.in_map_iff in Hin.
  destruct Hin as [[k' w] [[= _ <-] Hin]]. apply List.filter_In in Hin.
  destruct Hin as [Hin Hneg]. exists w. split; [now apply In_dict_get | exact Hneg].
Qed.

End Payers.

(** X8.  Every transfer [minimal_transfers] collects, at any turn of its loop
    and in the list it returns, goes from a person whose net in the
    mapping is below zero to a person whose net is above zero, and so
    never from a person to themselves. *)
Theorem transfers_are_payments (balances : dict spec_float) :
  List.NoDup (keys balances) ->
  (forall n payer receiver amount,
     In (payer, receiver, amount) (transfers (loop_steps n (loop_init balances))) ->
     payer <> receiver
     /\ (exists v, dict_get balances payer = Some v /\ SFltb v nzero = true)
     /\ (exists w, dict_get balances receiver = Some w /\ SFltb nzero w = true))
  /\ (forall fuel ts payer receiver amount,
        minimal_transfers fuel balances = Some ts ->
        In (payer, receiver, amount) ts ->
        payer <> receiver
        /\ (exists v, dict_get balances payer = Some v /\ SFltb v nzero = true)
        /\ (exists w, dict_get balances receiver = Some w /\ SFltb nzero w = true)).
Proof.
  intros Hnd.
  assert (Hsteps : forall n payer receiver amount,
     In (payer, receiver, amount) (transfers (loop_steps n (loop_init balances))) ->
     payer <> receiver
     /\ (exists v, dict_get balances payer = Some v /\ SFltb v nzero = true)
     /\ (exists w, dict_get balances receiver = Some w /\ SFltb nzero w = true)).
  { intros n payer receiver amount Hin.
    assert (Hinit : sides (map snd (debtors_of balances)) (map snd (creditors_of balances))
                          (loop_init balances)).
    { unfold sides, loop_init. simpl. split; [reflexivity|]. split; [reflexivity|].
      intros ? ? ? []. }
    destruct (sides_steps _ _ n _ Hinit) as (_ & _ & Ht).
    destruct (Ht _ _ _ Hin) as [Hp Hr].
    destruct (debtor_names balances payer Hnd Hp) as (v & Hv & Hneg).
    destruct (creditor_names balances receiver Hnd Hr) as (w & Hw & Hpos).
    split; [|split; eauto].
    intros ->. rewrite Hv in Hw. injection Hw as <-.
    apply SFltb_asym in Hneg. change (@nzero spec_float binary64) with (S754_zero false) in *.
    congruence. }
  split; [exact Hsteps|].
  intros fuel ts payer receiver amount Hrun Hin.
  apply loop_run_steps in Hrun. subst ts. eauto.
Qed.

Lemma transfers_are_payments_witness :
  List.NoDup (keys Plans.tie)
  /\ forall payer receiver amount,
       In (payer, receiver, amount)
          [("carol", "bob", Examples.money 500); ("carol", "alice", Examples.money 500)] ->
       payer <> receiver.
Proof.
  assert (Hnd : List.NoDup (keys Plans.tie)).
  { repeat constructor; simpl; intuition discriminate. }
  split; [exact Hnd|].
  intros payer receiver amount Hin.
  eapply (proj2 (transfers_are_payments Plans.tie Hnd) 2%nat);
    [vm_compute; reflexivity | exact Hin].
Defined.

(** ** The net of one person *)

Section PersonNets.
Context {A : Type} `{Number A}.

(** Whether a row writes the entry of person [p]. *)
Definition names (p : string) (row : debt A) : bool :=
  let creditor := lower (d_creditor row) in
  let debtor := lower (d_debtor row) in
  if String.eqb creditor "me" then String.eqb debtor p
  else if String.eqb debtor "me" then String.eqb creditor p
  else String.eqb debtor p || String.eqb creditor p.

Definition held (entry : option A) : A :=
  match entry with Some v => v | None => nzero end.

(** What one turn of the loop of [compute_balances] does to the entry of
    person [p]; [None] is no entry. *)
Definition entry_step (p : string) (entry : option A) (row : debt A) : option A :=
  let creditor := lower (d_creditor row) in
  let debtor := lower (d_debtor row) in
  let amount := d_amount row in
  if String.eqb creditor "me" then
    (if String.eqb debtor p then Some (nadd (held entry) amount) else entry)
  else if String.eqb debtor "me" then
    (if String.eqb creditor p then Some (nsub (held entry) amount) else entry)
  else
    let entry1 := if String.eqb debtor p then Some (nsub (held entry) amount) else entry in
    if String.eqb creditor p then Some (nadd (held entry1) amount) else entry1.

Lemma dict_get_set (d : dict A) (k p : string) (v : A) :
  dict_get (dict_set d k v) p = if String.eqb k p then Some v else dict_get d p.
Proof.
  destruct (String.eqb_spec k p) as [->|Hne].
  - apply dict_get_set_eq.
  - apply dict_get_set_ne. congruence.
Qed.

Lemma balance_step_entry (net : dict A) (row : debt A) (p : string) :
  dict_get (balance_step net row) p = entry_step p (dict_get net p) row.
Proof.
  unfold balance_step, entry_step, dict_get_or, held. cbv zeta.
  destruct (String.eqb (lower (d_creditor row)) "me").
  { rewrite dict_get_set.
    destruct (String.eqb_spec (lower (d_debtor row)) p) as [->|_]; reflexivity. }
  destruct (String.eqb (lower (d_debtor row)) "me").
  { rewrite dict_get_set.
    destruct (String.eqb_spec (lower (d_creditor row)) p) as [->|_]; reflexivity. }
  rewrite !dict_get_set.
  destruct (String.eqb_spec (lower (d_creditor row)) p) as [Ec|Ec];
    destruct (String.eqb_spec (lower (d_debtor row)) p) as [Ed|Ed].
  - rewrite Ec, Ed, String.eqb_refl. reflexivity.
  - destruct (String.eqb_spec (lower (d_debtor row)) (lower (d_creditor row)));
      [congruence|]. now rewrite Ec.
  - now rewrite Ed.
  - reflexivity.
Qed.

Lemma fold_balance_step_entry (rows : list (debt A)) (net : dict A) (p : string) :
  dict_get (fold_left balance_step rows net) p
  = fold_left (entry_step p) rows (dict_get net p).
Proof.
  revert net. induction rows as [|row rows IH]; intros net; simpl; [reflexivity|].
  now rewrite IH, balance_step_entry.
Qed.

Lemma entry_step_other (p : string) (entry : option A) (row : debt A) :
  names p row = false -> entry_step p entry row = entry.
Proof.
  unfold names, entry_step. cbv zeta.
  destruct (String.eqb (lower (d_creditor row)) "me"); [now intros ->|].
  destruct (String.eqb (lower (d_debtor row)) "me"); [now intros ->|].
  intros E. apply orb_false_iff in E. destruct E as [-> ->]. reflexivity.
Qed.

Lemma fold_entry_step_filter (p : string) (rows : list (debt A)) (entry : option A) :
  fold_left (entry_step p) rows entry
  = fold_left (entry_step p) (List.filter (names p) rows) entry.
Proof.
  revert entry. induction rows as [|row rows IH]; intros entry; simpl; [reflexivity|].
  destruct (names p row) eqn:E; simpl; [apply IH|].
  rewrite entry_step_other by assumption. apply IH.
Qed.

Lemma accumulate_entry (rows : list (debt A)) (p : string) :
  dict_get (accumulate rows) p
  = fold_left (entry_step p) (List.filter (names p) rows) None.
Proof.
  unfold accumulate. rewrite fold_balance_step_entry. simpl.
  apply fold_entry_step_filter.
Qed.

Lemma compute_balances_NoDup (rows : list (debt A)) :
  List.NoDup (keys (compute_balances rows)).
Proof.
  unfold compute_balances, keys. rewrite List.map_map. simpl.
  pose proof (accumulate_NoDup rows) as Hnd. unfold keys in Hnd.
  induction (accumulate rows) as [|[k v] d IH]; simpl; [constructor|].
  inversion Hnd as [|? ? Hnotin Hnd']; subst.
  destruct (ngeb (nabs v) ncent); simpl; [|auto].
  constructor; [|auto].
  intros Hin. apply Hnotin. apply List.in_map_iff in Hin.
  destruct Hin as [kv [<- Hin]]. apply List.filter_In in Hin.
  apply List.in_map. tauto.
Qed.

(** Two mappings with the same entries hold them in some order. *)
Lemma dict_perm {B} (d1 d2 : dict B) :
  List.NoDup (keys d1) -> List.NoDup (keys d2) ->
  (forall k, dict_get d1 k = dict_get d2 k) -> Permutation d1 d2.
Proof.
  intros H1 H2 Hget. apply Permutation.NoDup_Permutation.
  - eapply List.NoDup_map_inv. exact H1.
  - eapply List.NoDup_map_inv. exact H2.
  - intros [k v]. split; intros Hin.
    + apply dict_get_In. rewrite <- Hget. now apply In_dict_get.
    + apply dict_get_In. rewrite Hget. now apply In_dict_get.
Qed.

(** X10.  The net of a person comes from the rows that name them, taken in
    the order of the list, and from no other row: a row with creditor
    ["me"] adds its amount for the debtor, a row with debtor ["me"] takes
    its amount from the creditor, a row between two others does both,
    the debtor first.  [compute_balances] keeps the person when that net
    is a cent or more from zero, rounded to two decimals, and a person
    no row names is not in the mapping. *)
Theorem netting_by_person (rows : list (debt A)) (p : string) :
  let net := fold_left (entry_step p) (List.filter (names p) rows) None in
  dict_get (accumulate rows) p = net
  /\ dict_get (compute_balances rows) p
     = match net with
       | Some v => if ngeb (nabs v) ncent then Some (nround2 v) else None
       | None => None
       end
  /\ (List.filter (names p) rows = [] -> dict_get (compute_balances rows) p = None).
Proof.
  cbv zeta. split; [apply accumulate_entry|].
  rewrite compute_balances_lookup, accumulate_entry.
  split; [reflexivity|]. now intros ->.
Qed.

End PersonNets.

Section PersonOrder.

Lemma plan_perm (balances balances' : dict spec_float) (fuel : nat) :
  Permutation balances balances' ->
  minimal_transfers fuel balances' = minimal_transfers fuel balances.
Proof.
  intros Hp. unfold minimal_transfers, loop_init.
  assert (Ec : creditors_of balances' = creditors_of balances).
  { unfold creditors_of. symmetry. apply sorted_desc_perm_eq.
    - apply creditor_entries_above_zero.
    - now apply Permutation_map, filter_perm. }
  assert (Ed : debtors_of balances' = debtors_of balances).
  { unfold debtors_of. symmetry. apply sorted_desc_perm_eq.
    - apply debtor_entries_above_zero.
    - now apply Permutation_map, filter_perm. }
  now rewrite Ec, Ed.
Qed.

End PersonOrder.

(** X11.  Two lists of debt rows that hold, for every person, the same rows
    naming that person in the same order give every person the same
    net and [minimal_transfers] the same plan: moving rows of different
    people past each other changes nothing. *)
Theorem netting_across_people (rows rows' : list (debt spec_float)) :
  (forall p, List.filter (names p) rows' = List.filter (names p) rows) ->
  (forall p, dict_get (compute_balances rows') p = dict_get (compute_balances rows) p)
  /\ forall fuel,
       minimal_transfers fuel (compute_balances rows')
       = minimal_transfers fuel (compute_balances rows).
Proof.
  intros Hsame.
  assert (Hget : forall p, dict_get (compute_balances rows') p
                           = dict_get (compute_balances rows) p).
  { intros p. rewrite !compute_balances_lookup, !accumulate_entry. now rewrite Hsame. }
  split; [exact Hget|].
  intros fuel. apply plan_perm. apply dict_perm; auto using compute_balances_NoDup.
Qed.

Lemma netting_across_people_witness :
  let r1 := Examples.owes 1 "me" "Alice" (Examples.money 1250) in
  let r2 := Examples.owes 2 "bob" "me" (Examples.money 400) in
  let r3 := Examples.owes 3 "me" "alice" (Examples.money 250) in
  dict_get (compute_balances [r2; r1; r3]) "alice"
  = dict_get (compute_balances [r1; r3; r2]) "alice"
  /\ minimal_transfers 2 (compute_balances [r2; r1; r3])
     = minimal_transfers 2 (compute_balances [r1; r3; r2]).
Proof.
  intros r1 r2 r3.
  assert (Hsame : forall p, List.filter (names p) [r2; r1; r3]
                            = List.filter (names p) [r1; r3; r2]).
  { intros p.
    assert (E1 : names p r1 = String.eqb "alice" p) by (vm_compute; reflexivity).
    assert (E2 : names p r2 = String.eqb "bob" p) by (vm_compute; reflexivity).
    assert (E3 : names p r3 = String.eqb "alice" p) by (vm_compute; reflexivity).
    cbn [List.filter]. rewrite E1, E2, E3.
    destruct (String.eqb_spec "alice" p) as [E|_]; [subst p; reflexivity|].
    now destruct (String.eqb "bob" p). }
  split.
  - apply (proj1 (netting_across_people _ _ Hsame)).
  - apply (proj2 (netting_across_people _ _ Hsame)).
Defined.

(** ** Facts about the text functions *)

Section Utf8Facts.
Import Utf8.

Ltac Zify.zify_post_hook ::= Z.div_mod_to_equations.

Definition is_byte (b : Z) : Prop := 0 <= b < 256.

Lemma byte_of_ascii_of (b : Z) : is_byte b -> byte_of (ascii_of b) = b.
Proof.
  intros Hb. unfold byte_of, ascii_of.
  rewrite N_ascii_embedding; [apply Z2N.id; apply Hb|].
  change 256%N with (Z.to_N 256). apply Z2N.inj_lt; unfold is_byte in Hb; lia.
Qed.

Lemma bytes_text (bs : list Z) : Forall is_byte bs -> bytes (text bs) = bs.
Proof.
  intros Hbs. unfold bytes, text. rewrite list_ascii_of_string_of_list_ascii.
  induction Hbs as [|b bs Hb _ IH]; [reflexivity|].
  simpl. now rewrite byte_of_ascii_of, IH.
Qed.

Lemma scalar_bounds (c : Z) : scalar c = true <-> 0 <= c < 1114112.
Proof. unfold scalar. lia. Qed.

Lemma encode_bytes (c : Z) : scalar c = true -> Forall is_byte (encode c).
Proof.
  intros Hc%scalar_bounds. unfold encode, is_byte.
  repeat (case_match; [repeat constructor; lia|]). lia.
Qed.

Lemma decode_encode (c : Z) (r : list Z) :
  scalar c = true -> decode (encode c ++ r) = c :: decode r.
Proof.
  intros Hc%scalar_bounds. unfold encode.
  destruct (c <? 128) eqn:E1.
  { simpl. destruct (c <? 128) eqn:E; [reflexivity|lia]. }
  destruct (c <? 2048) eqn:E2.
  { cbn [app decode].
    destruct (192 + c / 64 <? 128) eqn:E; [lia|].
    assert (two (192 + c / 64) (128 + c mod 64) = true) as ->
      by (unfold two, continuation; lia).
    f_equal. unfold point2. lia. }
  destruct (c <? 65536) eqn:E3.
  { cbn [app decode].
    destruct (224 + c / 4096 <? 128) eqn:E; [lia|].
    assert (two (224 + c / 4096) (128 + (c / 64) mod 64) = false) as ->
      by (unfold two; lia).
    assert (three (224 + c / 4096) (128 + (c / 64) mod 64) (128 + c mod 64) = true
            /\ point3 (224 + c / 4096) (128 + (c / 64) mod 64) (128 + c mod 64) = c)
      as [-> ->]; [|reflexivity].
    assert (point3 (224 + c / 4096) (128 + (c / 64) mod 64) (128 + c mod 64) = c)
      as Hp by (unfold point3; lia).
    split; [|exact Hp]. unfold three, continuation. rewrite Hp. lia. }
  destruct (c <? 1114112) eqn:E4; [|lia].
  cbn [app decode].
  destruct (240 + c / 262144 <? 128) eqn:E; [lia|].
  assert (two (240 + c / 262144) (128 + (c / 4096) mod 64) = false) as ->
    by (unfold two; lia).
  assert (three (240 + c / 262144) (128 + (c / 4096) mod 64)
            (128 + (c / 64) mod 64) = false) as ->
    by (unfold three; lia).
  assert (point4 (240 + c / 262144) (128 + (c / 4096) mod 64)
            (128 + (c / 64) mod 64) (128 + c mod 64) = c) as Hp
    by (unfold point4; lia).
  assert (four (240 + c / 262144) (128 + (c / 4096) mod 64)
            (128 + (c / 64) mod 64) (128 + c mod 64) = true) as ->
    by (unfold four, continuation; rewrite Hp; lia).
  now rewrite Hp.
Qed.

Lemma points_of_points (l : list Z) :
  forallb scalar l = true -> points (of_points l) = l.
Proof.
  intros Hl. unfold points, of_points.
  rewrite bytes_text.
  - induction l as [|c l IH]; [reflexivity|].
    simpl in Hl. apply andb_true_iff in Hl as [Hc Hl].
    simpl. now rewrite decode_encode, IH.
  - induction l as [|c l IH]; [constructor|].
    simpl in Hl. apply andb_true_iff in Hl as [Hc Hl].
    simpl. apply Forall_app. split; [now apply encode_bytes|now apply IH].
Qed.

End Utf8Facts.

Section LowerFacts.
Import Unicode.

(** A code point that [str.lower()] leaves as it is, wherever it stands. *)
Definition settled (d : Z) : bool :=
  match lower_full d with
  | [x] => (x =? d) && negb (d =? 931)
  | _ => false
  end.

Definition run_points (r : Z * Z * Z * Z) : list Z :=
  let '(first, last, step, _) := r in
  map (fun i => first + Z.of_nat i * step)
      (seq 0 (S (Z.to_nat ((last - first) / step)))).

Definition run_images (r : Z * Z * Z * Z) : list Z :=
  let '(_, _, _, delta) := r in map (fun c => c + delta) (run_points r).

Definition lower_images : list Z :=
  [105; 775; 962; 963] ++ flat_map run_images lower_runs.

Lemma lower_images_settled :
  forallb (fun d => settled d && Utf8.scalar d) lower_images = true.
Proof. vm_compute. reflexivity. Qed.

Lemma lower_runs_steps :
  forallb (fun r : Z * Z * Z * Z => 0 <? snd (fst r)) lower_runs = true.
Proof. vm_compute. reflexivity. Qed.

Lemma in_run_points (c : Z) (r : Z * Z * Z * Z) :
  0 < snd (fst r) -> in_run c r = true -> In c (run_points r).
Proof.
  destruct r as [[[first last] step] delta]. unfold in_run, run_points.
  cbn [fst snd]. intros Hs Hin.
  apply andb_true_iff in Hin as [Hin Hm]. apply andb_true_iff in Hin as [H1 H2].
  apply Z.eqb_eq in Hm. apply Z.leb_le in H1, H2.
  apply in_map_iff. exists (Z.to_nat ((c - first) / step)). split.
  - rewrite Z2Nat.id by (apply Z.div_pos; lia).
    pose proof (Z.div_mod (c - first) step ltac:(lia)) as Hd. rewrite Hm in Hd. lia.
  - apply in_seq. split; [lia|].
    assert ((c - first) / step <= (last - first) / step)
      by (apply Z.div_le_mono; lia).
    assert (0 <= (c - first) / step) by (apply Z.div_pos; lia).
    lia.
Qed.

Lemma image_settled (d : Z) :
  In d lower_images -> settled d = true /\ Utf8.scalar d = true.
Proof.
  intros Hd. pose proof lower_images_settled as H.
  rewrite forallb_forall in H. apply andb_true_iff. now apply H.
Qed.

Lemma lower_simple_image (c : Z) :
  lower_simple c = c \/ In (lower_simple c) lower_images.
Proof.
  unfold lower_simple. destruct (List.find (in_run c) lower_runs) as [r|] eqn:E; [|now left].
  right. apply List.find_some in E as [Hr Hin].
  pose proof lower_runs_steps as Hs. rewrite forallb_forall in Hs.
  specialize (Hs r Hr). apply Z.ltb_lt in Hs.
  destruct r as [[[first last] step] delta].
  unfold lower_images. apply in_or_app. right. apply in_flat_map.
  exists (first, last, step, delta). split; [exact Hr|].
  unfold run_images. apply in_map_iff. exists c. split; [reflexivity|].
  now apply in_run_points.
Qed.

Definition at_rest (d : Z) : Prop := settled d = true /\ Utf8.scalar d = true.

Lemma lower_full_at_rest (c : Z) :
  Utf8.scalar c = true -> c <> 931 -> Forall at_rest (lower_full c).
Proof.
  intros Hc Hs. unfold lower_full. destruct (c =? 304) eqn:E.
  - repeat constructor; apply image_settled; unfold lower_images; simpl; auto.
  - constructor; [|constructor].
    destruct (lower_simple_image c) as [Hi|Hi]; [|now apply image_settled].
    split; [|now rewrite Hi].
    unfold settled, lower_full. rewrite Hi, E, Hi, Z.eqb_refl. simpl.
    apply negb_true_iff. now apply Z.eqb_neq.
Qed.

Lemma lower_from_at_rest (l : list Z) (before : bool) :
  forallb Utf8.scalar l = true -> Forall at_rest (lower_from before l).
Proof.
  revert before. induction l as [|c l IH]; intros before Hl; [constructor|].
  simpl in Hl. apply andb_true_iff in Hl as [Hc Hl].
  simpl. apply Forall_app. split; [|now apply IH].
  destruct (c =? 931) eqn:E.
  - constructor; [|constructor].
    apply image_settled. unfold lower_images.
    destruct (before && negb (cased_follows l)); simpl; auto.
  - apply lower_full_at_rest; [exact Hc|]. now apply Z.eqb_neq.
Qed.

Lemma lower_from_settled (l : list Z) (before : bool) :
  Forall at_rest l -> lower_from before l = l.
Proof.
  intros Hl. revert before. induction Hl as [|c l [Hc _] _ IH]; intros before; [reflexivity|].
  simpl. unfold settled in Hc.
  destruct (lower_full c) as [|x [|y t]] eqn:E; try discriminate.
  apply andb_true_iff in Hc as [Hx Hs]. apply Z.eqb_eq in Hx. subst x.
  apply negb_true_iff in Hs. rewrite Hs. simpl. now rewrite IH.
Qed.

Lemma at_rest_scalar (l : list Z) : Forall at_rest l -> forallb Utf8.scalar l = true.
Proof.
  induction 1 as [|c l [_ Hc] _ IH]; [reflexivity|]. simpl. now rewrite Hc, IH.
Qed.

End LowerFacts.

Lemma lower_idem (s : string) : lower (lower s) = lower s.
Proof.
  unfold lower, on_points.
  destruct (forallb Utf8.scalar (Utf8.points s)) eqn:E.
  - pose proof (lower_from_at_rest (Utf8.points s) false E) as Hr.
    fold (Unicode.lower (Utf8.points s)) in Hr.
    rewrite points_of_points by now apply at_rest_scalar.
    rewrite (at_rest_scalar _ Hr).
    unfold Unicode.lower at 1. now rewrite lower_from_settled.
  - now rewrite E.
Qed.

(** * More of [database.py] *)

Section Ledger.
Context {A : Type} `{Number A}.

(** *** Debts *)

(** [INTEGER PRIMARY KEY AUTOINCREMENT]: a new row gets the id one above
    the largest the table has held.  No method deletes a row of [debts],
    so that is one above the largest id in the table. *)
Definition next_debt_id (tbl : list (debt A)) : Z :=
  1 + fold_right (fun d m => Z.max (d_id d) m) 0 tbl.

(** [add_debt]; [now] is [datetime('now','localtime')], the default of
    the column [created_at].  The column [amount] carries
    [NOT NULL CHECK(amount > 0)]. *)
Definition add_debt (now creditor debtor : string) (amount : A)
    (description : string) (s : db A) : outcome (db A) unit :=
  let a := nround2 amount in
  if ngtb a nzero then
    Returned (mkDb (debts s ++ [mkDebt (next_debt_id (debts s)) (lower creditor)
                                       (lower debtor) a description false now])
                   (transactions s) (balance s)) tt
  else Raised IntegrityError.

(** [ORDER BY created_at DESC] on debt rows. *)
Fixpoint insert_newest_debt (x : debt A) (l : list (debt A)) : list (debt A) :=
  match l with
  | [] => [x]
  | y :: l' =>
      if String.ltb (d_created_at x) (d_created_at y)
      then y :: insert_newest_debt x l'
      else x :: l
  end.

(** [get_all_debts]: [SELECT * FROM debts WHERE settled = 0
    ORDER BY created_at DESC]. *)
Definition get_all_debts (s : db A) : list (debt A) :=
  fold_right insert_newest_debt []
             (List.filter (fun d => negb (d_settled d)) (debts s)).

(** [clear_all_debts]: [UPDATE debts SET settled = 1]. *)
Definition clear_all_debts (s : db A) : db A :=
  mkDb (map settle_row (debts s)) (transactions s) (balance s).

(** *** Transactions *)

(** [add_transaction].  [rowid] is the id SQLite gives the row and [now]
    the default of [created_at], used when the argument is [None] or
    empty.  The column [amount] carries [NOT NULL CHECK(amount >= 0)]. *)
Definition add_transaction (rowid : Z) (now : string) (amount : A) (kind : tx_kind)
    (category description : string) (created_at : option string) (s : db A)
  : outcome (db A) unit :=
  let a := nround2 (nabs amount) in
  let stamp :=
    match created_at with
    | Some (String c rest) => String c rest
    | _ => now
    end in
  if nleb nzero a then
    Returned (mkDb (debts s)
                   (transactions s ++ [mkTx rowid a kind category description stamp])
                   (balance s)) tt
  else Raised IntegrityError.

Definition newest_first (rows : list (transaction A)) : list (transaction A) :=
  fold_right insert_newest_first [] rows.

(** [get_transactions]: [ORDER BY created_at DESC LIMIT ?].  [limit] is a
    Python integer of any size, bound to the statement as an SQLite
    integer: outside 64 bits the binding raises [OverflowError]; a
    negative limit is no limit. *)
Definition get_transactions (limit : Z) (s : db A)
  : outcome (db A) (list (transaction A)) :=
  if (limit <? - 2 ^ 63) || (2 ^ 63 <=? limit) then Raised OverflowError
  else
    let rows := newest_first (transactions s) in
    Returned s (if Z.ltb limit 0 then rows else firstn (Z.to_nat limit) rows).

(** [get_monthly_transactions]: [WHERE created_at LIKE ?] with the
    pattern [f"{prefix}%"]. *)
Definition get_monthly_transactions (year month : Z) (s : db A)
  : list (transaction A) :=
  newest_first
    (List.filter (fun t => String.prefix (month_prefix year month) (t_created_at t))
                 (transactions s)).

Definition is_spend (t : transaction A) : bool :=
  match t_type t with Spend => true | Income => false end.

(** *** Budgets

    The table [budgets] in row-id order; [category] is its primary
    key. *)
Definition budgets_table : Type := list (string * A).

(** [set_budget]: [INSERT OR REPLACE] removes the row the category has
    and adds the new one; the column [amount] carries
    [NOT NULL CHECK(amount > 0)]. *)
Definition set_budget (category : string) (amount : A) (tbl : budgets_table)
  : outcome budgets_table unit :=
  let a := nround2 amount in
  if ngtb a nzero then
    Returned (List.filter (fun r => negb (String.eqb (fst r) (lower category))) tbl
              ++ [(lower category, a)]) tt
  else Raised IntegrityError.

(** [get_budgets]: [{r["category"]: float(r["amount"]) for r in rows}]. *)
Definition get_budgets (tbl : budgets_table) : dict A :=
  fold_left (fun d r => dict_set d (fst r) (snd r)) tbl [].

(** [delete_budget]: the table without the category, and
    [cursor.rowcount > 0]. *)
Definition delete_budget (category : string) (tbl : budgets_table)
  : budgets_table * bool :=
  (List.filter (fun r => negb (String.eqb (fst r) (lower category))) tbl,
   existsb (fun r => String.eqb (fst r) (lower category)) tbl).

(** *** Stores the debt methods can build *)

Definition row_ok (d : debt A) : Prop :=
  ngtb (d_amount d) nzero = true
  /\ lower (d_creditor d) = d_creditor d
  /\ lower (d_debtor d) = d_debtor d.

Definition debts_ok (s : db A) : Prop :=
  List.NoDup (map d_id (debts s)) /\ forall d, In d (debts s) -> row_ok d.

Inductive built : db A -> Prop :=
  | built_new txs bal : built (mkDb [] txs bal)
  | built_add s s' now creditor debtor amount description :
      built s ->
      add_debt now creditor debtor amount description s = Returned s' tt ->
      built s'
  | built_clear s s' person amount r :
      built s -> clear_debt person amount s = Returned s' r -> built s'
  | built_clear_all s : built s -> built (clear_all_debts s)
  | built_other s s' : built s -> debts s' = debts s -> built s'.

End Ledger.

Section LedgerFacts.
Context {A : Type} `{Number A}.

Lemma next_debt_id_above (tbl : list (debt A)) (d : debt A) :
  In d tbl -> d_id d < next_debt_id tbl.
Proof.
  unfold next_debt_id. induction tbl as [|x tbl IH]; simpl; [tauto|].
  intros [->|Hin]; [lia|]. specialize (IH Hin). lia.
Qed.

Definition table_ok (tbl : list (debt A)) : Prop :=
  List.NoDup (map d_id tbl) /\ forall d, In d tbl -> row_ok d.

Lemma update_settled_ok (id : Z) (tbl : list (debt A)) :
  table_ok tbl -> table_ok (update_settled id tbl).
Proof.
  intros [Hnd Hrows]. unfold update_settled. split.
  - rewrite List.map_map.
    rewrite (List.map_ext _ d_id); [assumption|].
    intros d. now destruct (Z.eqb (d_id d) id).
  - intros d Hin. apply List.in_map_iff in Hin. destruct Hin as [d0 [<- Hin]].
    specialize (Hrows d0 Hin). now destruct (Z.eqb (d_id d0) id).
Qed.

Lemma update_amount_ok (id : Z) (a : A) (tbl tbl' : list (debt A)) :
  table_ok tbl -> update_amount id a tbl = Some tbl' -> table_ok tbl'.
Proof.
  intros [Hnd Hrows]. unfold update_amount.
  destruct (existsb (fun d => Z.eqb (d_id d) id) tbl && negb (ngtb a nzero)) eqn:E;
    [discriminate|].
  intros [= <-]. split.
  - rewrite List.map_map.
    rewrite (List.map_ext _ d_id); [assumption|].
    intros d. now destruct (Z.eqb (d_id d) id).
  - intros d Hin. apply List.in_map_iff in Hin. destruct Hin as [d0 [<- Hin]].
    specialize (Hrows d0 Hin).
    destruct (Z.eqb (d_id d0) id) eqn:Eid; [|assumption].
    assert (Hex : existsb (fun d => Z.eqb (d_id d) id) tbl = true)
      by (apply List.existsb_exists; eauto).
    rewrite Hex in E. simpl in E. apply negb_false_iff in E.
    destruct Hrows as (_ & Hc & Hd). now split.
Qed.

Lemma clear_loop_ok (rows tbl tbl' : list (debt A)) (cleared cleared' : A)
    (remaining : option A) :
  table_ok tbl ->
  clear_loop rows tbl cleared remaining = Some (tbl', cleared') ->
  table_ok tbl'.
Proof.
  revert tbl cleared remaining.
  induction rows as [|row rows IH]; intros tbl cleared remaining Hok; simpl.
  - now intros [= <- _].
  - destruct remaining as [r|].
    + destruct (nleb r nzero); [now intros [= <- _]|].
      destruct (ngeb r (d_amount row)).
      * apply IH. now apply update_settled_ok.
      * destruct (update_amount _ _ tbl) as [tbl1|] eqn:Eu; [|discriminate].
        apply IH. eapply update_amount_ok; eauto.
    + apply IH. now apply update_settled_ok.
Qed.

End LedgerFacts.

(** X12.  Every store built from one without debts by [add_debt], [clear_debt]
    and [clear_all_debts], and by methods that leave the debts alone,
    holds debt rows with distinct ids, amounts above zero and lower-case
    names. *)
Theorem built_debts_ok {A : Type} `{Number A} (s : db A) : built s -> debts_ok s.
Proof.
  induction 1 as [txs bal
                 |s s' now creditor debtor amount description Hs IH Hadd
                 |s s' person amount r Hs IH Hclear
                 |s Hs IH
                 |s s' Hs IH Hsame].
  - split; [constructor | intros d []].
  - destruct IH as [Hnd Hrows]. unfold add_debt in Hadd.
    destruct (ngtb (nround2 amount) nzero) eqn:Ea; [|discriminate].
    injection Hadd as <-. unfold debts_ok. simpl. split.
    + rewrite List.map_app. simpl.
      apply List.NoDup_app_remove_l with (l := []).
      simpl. apply Permutation_NoDup with (l := next_debt_id (debts s) :: map d_id (debts s)).
      * apply Permutation_cons_append.
      * constructor; [|assumption].
        intros Hin. apply List.in_map_iff in Hin. destruct Hin as [d [Hid Hin]].
        pose proof (next_debt_id_above _ _ Hin). lia.
    + intros d Hin. apply List.in_app_iff in Hin.
      destruct Hin as [Hin|[<-|[]]]; [auto|].
      split; [exact Ea|]. split; apply lower_idem.
  - unfold clear_debt in Hclear. cbv zeta in Hclear.
    destruct (select_debts (lower person) (debts s)) as [|row rows].
    + now injection Hclear as <- _.
    + destruct (clear_loop (row :: rows) (debts s) nzero amount) as [[tbl cleared]|] eqn:El;
        [|discriminate].
      injection Hclear as <- _.
      exact (clear_loop_ok _ _ _ _ _ _ IH El).
  - destruct IH as [Hnd Hrows]. unfold debts_ok, clear_all_debts. simpl. split.
    + rewrite List.map_map. simpl. exact Hnd.
    + intros d Hin. apply List.in_map_iff in Hin. destruct Hin as [d0 [<- Hin]].
      exact (Hrows d0 Hin).
  - unfold debts_ok. rewrite Hsame. exact IH.
Qed.

Lemma built_debts_ok_witness :
  debts_ok (mkDb [mkDebt 1 "me" "alice" (Examples.money 1250) "lunch" false
                         "2026-03-01 12:00:00";
                  mkDebt 2 "bob" "me" (Examples.money 400) "taxi" true
                         "2026-03-02 09:00:00"]
                 [] (None : option spec_float)).
Proof.
  apply built_debts_ok.
  apply (built_clear
           (mkDb [mkDebt 1 "me" "alice" (Examples.money 1250) "lunch" false
                         "2026-03-01 12:00:00";
                  mkDebt 2 "bob" "me" (Examples.money 400) "taxi" false
                         "2026-03-02 09:00:00"]
                 [] None) _ "Bob" None (Some (Examples.money 400)));
    [|vm_compute; reflexivity].
  apply (built_add
           (mkDb [mkDebt 1 "me" "alice" (Examples.money 1250) "lunch" false
                         "2026-03-01 12:00:00"]
                 [] None) _ "2026-03-02 09:00:00" "Bob" "me" (Examples.money 400) "taxi");
    [|vm_compute; reflexivity].
  apply (built_add (mkDb [] [] None) _ "2026-03-01 12:00:00" "me" "Alice"
                   (Examples.money 1250) "lunch");
    [|vm_compute; reflexivity].
  apply built_new.
Defined.

(** ** Clearing everything a person has open *)

Section ClearEverything.
Context {A : Type} `{Number A}.

Lemma same_id_same_row (tbl : list (debt A)) (d d' : debt A) :
  List.NoDup (map d_id tbl) -> In d tbl -> In d' tbl -> d_id d = d_id d' -> d = d'.
Proof.
  induction tbl as [|t tbl IH]; simpl; [tauto|].
  intros Hnd Hd Hd' Hid. inversion Hnd as [|? ? Hnotin Hnd']; subst.
  destruct Hd as [->|Hd], Hd' as [->|Hd']; auto.
  - exfalso. apply Hnotin. rewrite Hid. now apply List.in_map.
  - exfalso. apply Hnotin. rewrite <- Hid. now apply List.in_map.
Qed.

(** With no amount given the loop settles every row it was given and
    adds the amounts up in the order of the rows. *)
Lemma clear_loop_everything (rows tbl : list (debt A)) (cleared : A) :
  clear_loop rows tbl cleared None
  = Some (fold_left (fun t row => update_settled (d_id row) t) rows tbl,
          fold_left nadd (map d_amount rows) cleared).
Proof.
  revert tbl cleared. induction rows as [|row rows IH]; intros tbl cleared; simpl;
    [reflexivity | apply IH].
Qed.

Definition settle_all (rows : list (debt A)) (d : debt A) : debt A :=
  if existsb (Z.eqb (d_id d)) (map d_id rows) then settle_row d else d.

Lemma fold_update_settled (rows tbl : list (debt A)) :
  fold_left (fun t row => update_settled (d_id row) t) rows tbl
  = map (settle_all rows) tbl.
Proof.
  revert tbl. induction rows as [|row rows IH]; intros tbl; simpl.
  - now rewrite List.map_id.
  - rewrite IH. unfold update_settled. rewrite List.map_map.
    apply List.map_ext. intros d. unfold settle_all. simpl.
    destruct (Z.eqb (d_id d) (d_id row)); simpl; [|reflexivity].
    now destruct (existsb (Z.eqb (d_id d)) (map d_id rows)).
Qed.

Lemma settle_all_involved (person : string) (tbl : list (debt A)) (d : debt A) :
  List.NoDup (map d_id tbl) -> In d tbl ->
  settle_all (select_debts person tbl) d
  = if involves person d then settle_row d else d.
Proof.
  intros Hnd Hin. unfold settle_all.
  destruct (involves person d) eqn:Hinv.
  - replace (existsb (Z.eqb (d_id d)) (map d_id (select_debts person tbl))) with true;
      [reflexivity|].
    symmetry. apply List.existsb_exists. exists (d_id d). split; [|apply Z.eqb_refl].
    apply List.in_map. apply select_debts_In. now split.
  - destruct (existsb (Z.eqb (d_id d)) (map d_id (select_debts person tbl))) eqn:E;
      [|reflexivity].
    apply List.existsb_exists in E. destruct E as [id [Hid Heq]].
    apply Z.eqb_eq in Heq. subst id.
    apply List.in_map_iff in Hid. destruct Hid as [row [Hid Hrow]].
    apply select_debts_In in Hrow. destruct Hrow as [Hrow Hri].
    rewrite (same_id_same_row tbl row d Hnd Hrow Hin Hid) in Hri. congruence.
Qed.

(** The open rows that name the person are settled, the others stay. *)
Definition settle_person (person : string) (d : debt A) : debt A :=
  if involves person d then settle_row d else d.

Lemma settle_person_none (person : string) (tbl : list (debt A)) :
  List.filter (involves person) (map (settle_person person) tbl) = [].
Proof.
  induction tbl as [|d tbl IH]; simpl; [reflexivity|].
  unfold settle_person at 1.
  destruct (involves person d) eqn:E; [|now rewrite E].
  assert (Es : involves person (settle_row d) = false) by reflexivity.
  now rewrite Es.
Qed.

Lemma clear_debt_settles (person : string) (s : db A) :
  List.NoDup (map d_id (debts s)) ->
  clear_debt person None s
  = Returned (mkDb (map (settle_person (lower person)) (debts s))
                   (transactions s) (balance s))
             (match select_debts (lower person) (debts s) with
              | [] => None
              | rows =>
                  let total := fold_left nadd (map d_amount rows) nzero in
                  if ngtb total nzero then Some (nround2 total) else None
              end).
Proof.
  intros Hnd. unfold clear_debt. cbv zeta.
  set (p := lower person).
  assert (Etbl : map (settle_all (select_debts p (debts s))) (debts s)
                 = map (settle_person p) (debts s)).
  { apply List.map_ext_in. intros d Hd. now apply settle_all_involved. }
  destruct (select_debts p (debts s)) as [|row rows] eqn:Hsel.
  - assert (Eid : map (settle_person p) (debts s) = debts s).
    { rewrite <- (List.map_id (debts s)) at 2. apply List.map_ext_in.
      intros d Hd. unfold settle_person.
      destruct (involves p d) eqn:E; [|reflexivity].
      assert (Hin : In d (select_debts p (debts s))) by (apply select_debts_In; auto).
      rewrite Hsel in Hin. destruct Hin. }
    rewrite Eid. now destruct s.
  - rewrite clear_loop_everything, fold_update_settled, Etbl. reflexivity.
Qed.

(** X13.  When [clear_debt] is given no amount it does not raise: it settles
    every open row that names the person and no other row, leaves
    transactions and balance alone, and adds the amounts up from the
    oldest row on; it returns that sum rounded to two decimals, or
    [None] when there was no such row or the sum is not above zero.
    Afterwards no open row names the person, and a second call finds
    nothing and returns [None]. *)
Theorem clear_debt_everything (person : string) (s : db A) :
  List.NoDup (map d_id (debts s)) ->
  let p := lower person in
  let rows := select_debts p (debts s) in
  let total := fold_left nadd (map d_amount rows) nzero in
  let s' := mkDb (map (settle_person p) (debts s)) (transactions s) (balance s) in
  clear_debt person None s
  = Returned s' (match rows with
                 | [] => None
                 | _ => if ngtb total nzero then Some (nround2 total) else None
                 end)
  /\ (forall d, In d (debts s') -> involves p d = false)
  /\ clear_debt person None s' = Returned s' None.
Proof.
  intros Hnd. cbv zeta.
  assert (Hnone : List.filter (involves (lower person))
                    (map (settle_person (lower person)) (debts s)) = [])
    by apply settle_person_none.
  split; [|split].
  - rewrite (clear_debt_settles person s Hnd).
    now destruct (select_debts (lower person) (debts s)).
  - simpl. intros d Hd. destruct (involves (lower person) d) eqn:E; [|reflexivity].
    assert (Hin : In d (List.filter (involves (lower person))
                          (map (settle_person (lower person)) (debts s))))
      by (apply List.filter_In; auto).
    rewrite Hnone in Hin. destruct Hin.
  - unfold clear_debt. cbv zeta. simpl debts. unfold select_debts.
    now rewrite Hnone.
Qed.

End ClearEverything.

Lemma clear_debt_everything_witness :
  exists s',
    clear_debt "Alice" None Stores.ledger = Returned s' (Some (Examples.money 1400))
    /\ clear_debt "Alice" None s' = Returned s' None.
Proof.
  assert (Hnd : List.NoDup (map d_id (debts Stores.ledger))).
  { repeat constructor; simpl; intuition discriminate. }
  destruct (clear_debt_everything "Alice" Stores.ledger Hnd) as (Hret & _ & Hagain).
  eexists. split; [|exact Hagain].
  rewrite Hret. vm_compute. reflexivity.
Defined.

(** ** Debts and nets *)

Section DebtsNets.
Context {A : Type} `{Number A}.

(** Newest first: no row comes before a row with a later stamp. *)
Definition not_earlier (x y : debt A) : Prop :=
  String.ltb (d_created_at x) (d_created_at y) = false.

Lemma insert_newest_debt_In (x y : debt A) (l : list (debt A)) :
  In y (insert_newest_debt x l) -> y = x \/ In y l.
Proof.
  induction l as [|z l IH]; simpl; [intros [->|[]]; now left|].
  destruct (String.ltb (d_created_at x) (d_created_at z)); simpl;
    [|intros [->|Hin]; [now left | now right]].
  intros [->|Hin]; [right; now left|].
  destruct (IH Hin); [now left | right; now right].
Qed.

Lemma insert_newest_debt_sorted (x : debt A) (l : list (debt A)) :
  StronglySorted not_earlier l -> StronglySorted not_earlier (insert_newest_debt x l).
Proof.
  induction 1 as [|y l Hl IH Hy]; simpl; [repeat constructor|].
  destruct (String.ltb (d_created_at x) (d_created_at y)) eqn:E.
  - constructor; [assumption|].
    rewrite List.Forall_forall in *. intros z Hz.
    apply insert_newest_debt_In in Hz. destruct Hz as [->|Hz]; [|auto].
    unfold not_earlier. now apply string_ltb_asym.
  - constructor; [now constructor|].
    constructor; [exact E|].
    rewrite List.Forall_forall in *. intros z Hz.
    unfold not_earlier in *. eapply not_ltb_trans; [exact E | now apply Hy].
Qed.

Lemma newest_debts_sorted (l : list (debt A)) :
  StronglySorted not_earlier (fold_right insert_newest_debt [] l).
Proof.
  induction l as [|x l IH]; simpl; [constructor | now apply insert_newest_debt_sorted].
Qed.

Lemma insert_newest_debt_head (x : debt A) (l : list (debt A)) :
  Forall (not_earlier x) l -> insert_newest_debt x l = x :: l.
Proof.
  destruct 1 as [|y l Hy _]; simpl; [reflexivity|].
  unfold not_earlier in Hy. now rewrite Hy.
Qed.

(** Choosing rows and sorting them can be done in either order. *)
Lemma filter_insert_newest_debt (f : debt A -> bool) (x : debt A) (l : list (debt A)) :
  StronglySorted not_earlier l ->
  List.filter f (insert_newest_debt x l)
  = if f x then insert_newest_debt x (List.filter f l) else List.filter f l.
Proof.
  induction 1 as [|y l Hl IH Hy]; simpl.
  - now destruct (f x).
  - destruct (String.ltb (d_created_at x) (d_created_at y)) eqn:E; simpl.
    + rewrite IH. destruct (f y), (f x); simpl; try reflexivity. now rewrite E.
    + destruct (f x); [|reflexivity].
      symmetry. apply insert_newest_debt_head.
      assert (Hall : Forall (not_earlier x) (y :: l)).
      { constructor; [exact E|].
        rewrite List.Forall_forall in *. intros z Hz.
        unfold not_earlier in *. eapply not_ltb_trans; [exact E | now apply Hy]. }
      rewrite List.Forall_forall in *. intros z Hz.
      apply Hall. change (In z (List.filter f (y :: l))) in Hz.
      apply List.filter_In in Hz. tauto.
Qed.

Lemma filter_newest_debts (f : debt A -> bool) (l : list (debt A)) :
  List.filter f (fold_right insert_newest_debt [] l)
  = fold_right insert_newest_debt [] (List.filter f l).
Proof.
  induction l as [|x l IH]; simpl; [reflexivity|].
  rewrite filter_insert_newest_debt by apply newest_debts_sorted.
  rewrite IH. now destruct (f x).
Qed.

Lemma insert_newest_debt_perm (x : debt A) (l : list (debt A)) :
  Permutation (insert_newest_debt x l) (x :: l).
Proof.
  induction l as [|y l IH]; simpl; [reflexivity|].
  destruct (String.ltb (d_created_at x) (d_created_at y)); [|reflexivity].
  rewrite IH. apply perm_swap.
Qed.

Lemma get_all_debts_In (s : db A) (d : debt A) :
  In d (get_all_debts s) <-> In d (debts s) /\ d_settled d = false.
Proof.
  unfold get_all_debts.
  assert (Hp : Permutation (fold_right insert_newest_debt []
                              (List.filter (fun d => negb (d_settled d)) (debts s)))
                           (List.filter (fun d => negb (d_settled d)) (debts s))).
  { induction (List.filter (fun d => negb (d_settled d)) (debts s)) as [|x l IH];
      simpl; [reflexivity|].
    rewrite insert_newest_debt_perm. now apply perm_skip. }
  split.
  - intros Hin. apply (Permutation_in _ Hp), List.filter_In in Hin.
    destruct Hin as [Hin Hs]. split; [assumption|]. now destruct (d_settled d).
  - intros [Hin Hs]. apply (Permutation_in _ (Permutation_sym Hp)).
    apply List.filter_In. split; [assumption|]. now rewrite Hs.
Qed.

(** The net of [q] is read off the open rows that name [q]. *)
Lemma net_by_rows (q : string) (s s' : db A) :
  List.filter (names q) (List.filter (fun d => negb (d_settled d)) (debts s'))
  = List.filter (names q) (List.filter (fun d => negb (d_settled d)) (debts s)) ->
  dict_get (compute_balances (get_all_debts s')) q
  = dict_get (compute_balances (get_all_debts s)) q.
Proof.
  intros E. rewrite !compute_balances_lookup, !accumulate_entry.
  unfold get_all_debts. rewrite !filter_newest_debts. now rewrite E.
Qed.

Lemma filter_filter_same {B} (f g : B -> bool) (l : list B) :
  (forall x, In x l -> f x = true -> g x = true) ->
  List.filter f (List.filter g l) = List.filter f l.
Proof.
  induction l as [|x l IH]; simpl; intros Hfg; [reflexivity|].
  assert (IH' : List.filter f (List.filter g l) = List.filter f l)
    by (apply IH; intros; apply Hfg; auto).
  destruct (f x) eqn:Ef.
  - rewrite (Hfg x (or_introl eq_refl) Ef). simpl. now rewrite Ef, IH'.
  - destruct (g x); simpl; [now rewrite Ef|]; exact IH'.
Qed.

Lemma filter_filter_none {B} (f g : B -> bool) (l : list B) :
  (forall x, In x l -> f x = true -> g x = false) ->
  List.filter f (List.filter g l) = [].
Proof.
  induction l as [|x l IH]; simpl; intros Hfg; [reflexivity|].
  assert (IH' : List.filter f (List.filter g l) = [])
    by (apply IH; intros; apply Hfg; auto).
  destruct (g x) eqn:Eg; [|exact IH']. simpl.
  destruct (f x) eqn:Ef; [|exact IH'].
  rewrite (Hfg x (or_introl eq_refl) Ef) in Eg. discriminate.
Qed.

Lemma open_rows_settle_person (p : string) (tbl : list (debt A)) :
  List.filter (fun d => negb (d_settled d)) (map (settle_person p) tbl)
  = List.filter (fun d => negb (involves p d))
                (List.filter (fun d => negb (d_settled d)) tbl).
Proof.
  induction tbl as [|d l IH]; [reflexivity|].
  cbn [map List.filter]. rewrite IH. unfold settle_person at 1 2.
  destruct (involves p d) eqn:E.
  - assert (Hs : d_settled d = false).
    { unfold involves in E. now destruct (d_settled d). }
    rewrite Hs. cbn. now rewrite E.
  - destruct (d_settled d); cbn; [reflexivity|]. now rewrite E.
Qed.

(** A row with lower-case names that names [p] has [p] on one side. *)
Lemma names_involves (p : string) (d : debt A) :
  row_ok d -> d_settled d = false -> names p d = true -> involves p d = true.
Proof.
  intros (_ & Hc & Hd) Hs. unfold names, involves. cbv zeta. rewrite Hc, Hd, Hs. simpl.
  destruct (String.eqb (d_creditor d) "me").
  { intros E. rewrite E. apply orb_true_r. }
  destruct (String.eqb (d_debtor d) "me").
  { intros E. now rewrite E. }
  intros E. apply orb_true_iff in E.
  destruct E as [E|E]; rewrite E; [apply orb_true_r | reflexivity].
Qed.

(** When the owner is on one side of a row that names [q], the other
    side is [q]. *)
Lemma names_other (p q : string) (d : debt A) :
  row_ok d -> d_creditor d = "me" \/ d_debtor d = "me" ->
  p <> "me" -> q <> p -> names q d = true -> involves p d = false.
Proof.
  intros (_ & Hc & Hd) Hme Hp Hq. unfold names, involves. cbv zeta. rewrite Hc, Hd.
  destruct (String.eqb_spec (d_creditor d) "me") as [Ec|Ec].
  { intros E. apply String.eqb_eq in E. rewrite Ec, E.
    destruct (String.eqb_spec "me" p); [congruence|].
    destruct (String.eqb_spec q p); [congruence|]. apply andb_false_r. }
  destruct (String.eqb_spec (d_debtor d) "me") as [Ed|Ed]; [|tauto].
  intros E. apply String.eqb_eq in E. rewrite Ed, E.
  destruct (String.eqb_spec "me" p); [congruence|].
  destruct (String.eqb_spec q p); [congruence|]. apply andb_false_r.
Qed.

(** X14.  [add_debt] raises when the amount rounded to two decimals is not
    above zero and otherwise adds one open row, with the names in lower
    case, the rounded amount and the next id; [get_all_debts] then holds
    that row and the rows it held, and the net of every person who is
    neither the creditor nor the debtor of the new row is as before. *)
Theorem add_debt_frame (now creditor debtor : string) (amount : A)
    (description : string) (s : db A) :
  let row := mkDebt (next_debt_id (debts s)) (lower creditor) (lower debtor)
                    (nround2 amount) description false now in
  let s' := mkDb (debts s ++ [row]) (transactions s) (balance s) in
  (ngtb (nround2 amount) nzero = false ->
     add_debt now creditor debtor amount description s = Raised IntegrityError)
  /\ (ngtb (nround2 amount) nzero = true ->
      add_debt now creditor debtor amount description s = Returned s' tt
      /\ (forall d, In d (get_all_debts s') <-> d = row \/ In d (get_all_debts s))
      /\ forall q, q <> lower creditor -> q <> lower debtor ->
           dict_get (compute_balances (get_all_debts s')) q
           = dict_get (compute_balances (get_all_debts s)) q).
Proof.
  cbv zeta. unfold add_debt. cbv zeta. split; [now intros ->|].
  intros Ha. rewrite Ha. split; [reflexivity|]. split.
  - intros d. rewrite !get_all_debts_In. simpl. rewrite List.in_app_iff. simpl.
    split.
    + intros [[Hin|[<-|[]]] Hs]; auto.
    + intros [->|[Hin Hs]]; auto.
  - intros q Hc Hd. apply net_by_rows. simpl.
    rewrite !List.filter_app. cbn [List.filter d_settled negb].
    unfold names at 2. cbv zeta. cbn [d_creditor d_debtor]. rewrite !lower_idem.
    apply String.eqb_neq in Hc, Hd. rewrite String.eqb_sym in Hc, Hd.
    rewrite Hc, Hd.
    destruct (String.eqb (lower creditor) "me"), (String.eqb (lower debtor) "me");
      simpl; now rewrite List.app_nil_r.
Qed.

(** X15.  In a store whose debt rows have distinct ids, amounts above zero
    and lower-case names, after [clear_debt] without an amount the person
    is not in the mapping [compute_balances] gives for [get_all_debts];
    and when every open row has ["me"] on one side, as the rows the
    handlers add have, and the person is not ["me"], the net of everybody
    else is as before. *)
Theorem cleared_person_absent (person : string) (s : db A) :
  debts_ok s ->
  exists s' r,
    clear_debt person None s = Returned s' r
    /\ dict_get (compute_balances (get_all_debts s')) (lower person) = None
    /\ ((forall d, In d (debts s) -> d_settled d = false ->
           d_creditor d = "me" \/ d_debtor d = "me") ->
        lower person <> "me" ->
        forall q, q <> lower person ->
          dict_get (compute_balances (get_all_debts s')) q
          = dict_get (compute_balances (get_all_debts s)) q).
Proof.
  intros [Hnd Hrows].
  eexists _, _. split; [apply clear_debt_settles, Hnd|].
  set (p := lower person).
  assert (Hopen : forall d, In d (List.filter (fun d => negb (d_settled d)) (debts s)) ->
                            In d (debts s) /\ d_settled d = false).
  { intros d Hd. apply List.filter_In in Hd. destruct Hd as [Hd Hs].
    split; [assumption|]. now destruct (d_settled d). }
  split.
  - rewrite compute_balances_lookup, accumulate_entry.
    unfold get_all_debts. rewrite filter_newest_debts. simpl debts.
    rewrite open_rows_settle_person, filter_filter_none; [reflexivity|].
    intros d Hd Hn. destruct (Hopen d Hd) as [Hin Hs].
    now rewrite (names_involves p d (Hrows d Hin) Hs Hn).
  - intros Hme Hp q Hq. apply net_by_rows. simpl debts.
    rewrite open_rows_settle_person. apply filter_filter_same.
    intros d Hd Hn. destruct (Hopen d Hd) as [Hin Hs].
    now rewrite (names_other p q d (Hrows d Hin) (Hme d Hin Hs) Hp Hq Hn).
Qed.

End DebtsNets.

Lemma cleared_person_absent_witness :
  exists s',
    dict_get (compute_balances (get_all_debts s')) "alice" = None
    /\ dict_get (compute_balances (get_all_debts s')) "bob"
       = dict_get (compute_balances (get_all_debts Stores.ledger)) "bob".
Proof.
  destruct (cleared_person_absent "Alice" Stores.ledger) as (s' & r & Hret & Hnone & Hothers).
  - split; [repeat constructor; simpl; intuition discriminate|].
    intros d [<-|[<-|[<-|[]]]]; repeat split; vm_compute; reflexivity.
  - exists s'. split; [exact Hnone|].
    apply Hothers; [|vm_compute; discriminate|vm_compute; discriminate].
    intros d [<-|[<-|[<-|[]]]] _; simpl; auto.
Defined.

(** ** The newest transactions *)

Section NewestFirst.
Context {A : Type} `{Number A}.

(** Newest first: no row comes before a row with a later stamp. *)
Definition not_older (x y : transaction A) : Prop :=
  String.ltb (t_created_at x) (t_created_at y) = false.

Lemma insert_newest_first_perm (x : transaction A) (l : list (transaction A)) :
  Permutation (insert_newest_first x l) (x :: l).
Proof.
  induction l as [|y l IH]; simpl; [reflexivity|].
  destruct (String.ltb (t_created_at x) (t_created_at y)); [|reflexivity].
  rewrite IH. apply perm_swap.
Qed.

Lemma newest_first_perm (l : list (transaction A)) : Permutation (newest_first l) l.
Proof.
  unfold newest_first. induction l as [|x l IH]; simpl; [reflexivity|].
  rewrite insert_newest_first_perm. now constructor.
Qed.

Lemma insert_newest_first_sorted (x : transaction A) (l : list (transaction A)) :
  StronglySorted not_older l -> StronglySorted not_older (insert_newest_first x l).
Proof.
  induction 1 as [|y l Hl IH Hy]; simpl.
  - constructor; constructor.
  - destruct (String.ltb (t_created_at x) (t_created_at y)) eqn:E.
    + constructor; [assumption|].
      rewrite List.Forall_forall in *. intros z Hz.
      apply (Permutation_in _ (insert_newest_first_perm x l)) in Hz.
      destruct Hz as [<-|Hz]; [|auto].
      unfold not_older. now apply string_ltb_asym.
    + constructor; [constructor; assumption|].
      constructor; [exact E|].
      rewrite List.Forall_forall in *. intros z Hz.
      unfold not_older. eapply not_ltb_trans; [exact E | now apply Hy].
Qed.

Lemma newest_first_sorted (l : list (transaction A)) :
  StronglySorted not_older (newest_first l).
Proof.
  unfold newest_first. induction l as [|x l IH]; simpl; [constructor|].
  now apply insert_newest_first_sorted.
Qed.

Lemma In_firstn_In {B} (l : list B) (n : nat) (x : B) : In x (firstn n l) -> In x l.
Proof.
  revert n. induction l as [|y l IH]; intros [|n]; simpl; try tauto.
  intros [->|Hin]; eauto.
Qed.

Lemma In_skipn_In {B} (l : list B) (n : nat) (x : B) : In x (skipn n l) -> In x l.
Proof.
  revert n. induction l as [|y l IH]; intros [|n]; simpl; try tauto.
  intros Hin. eauto.
Qed.

Lemma sorted_split (l : list (transaction A)) (n : nat) :
  StronglySorted not_older l ->
  StronglySorted not_older (firstn n l)
  /\ forall t u, In t (firstn n l) -> In u (skipn n l) -> not_older t u.
Proof.
  intros Hs. revert n. induction Hs as [|x l Hl IH Hx]; intros [|n]; simpl.
  - split; [constructor | intros ? ? []].
  - split; [constructor | intros ? ? []].
  - split; [constructor | intros ? ? []].
  - destruct (IH n) as [Hf Hcross]. rewrite List.Forall_forall in Hx.
    split.
    + constructor; [assumption|]. apply List.Forall_forall.
      intros z Hz. apply Hx. eapply In_firstn_In; eauto.
    + intros t u [<-|Ht] Hu; [|auto].
      apply Hx. eapply In_skipn_In; eauto.
Qed.

End NewestFirst.

(** X16.  [get_transactions] raises [OverflowError] for a limit that is not
    an integer of 64 bits, as [history] of [bot.py] passes when it is
    given a long enough numeral.  Otherwise it leaves the store as it
    is and returns the newest rows of the table, newest first: as many
    as the limit allows, all of them for a negative limit, and no row
    it leaves out carries a later stamp than a row it returns. *)
Theorem get_transactions_newest {A : Type} `{Number A} (limit : Z) (s : db A) :
  (limit < - 2 ^ 63 \/ 2 ^ 63 <= limit ->
     get_transactions limit s = Raised OverflowError)
  /\ (- 2 ^ 63 <= limit < 2 ^ 63 ->
      exists rows,
        get_transactions limit s = Returned s rows
        /\ StronglySorted not_older rows
        /\ length rows = (if Z.ltb limit 0 then length (transactions s)
                          else Nat.min (Z.to_nat limit) (length (transactions s)))
        /\ exists rest,
             Permutation (rows ++ rest) (transactions s)
             /\ forall t u, In t rows -> In u rest -> not_older t u).
Proof.
  unfold get_transactions. cbv zeta.
  pose proof (newest_first_sorted (transactions s)) as Hs.
  pose proof (newest_first_perm (transactions s)) as Hp.
  split.
  - intros Hout.
    destruct (Z.ltb_spec limit (- 2 ^ 63)); [reflexivity|].
    destruct (Z.leb_spec (2 ^ 63) limit); [reflexivity | lia].
  - intros Hin.
    destruct (Z.ltb_spec limit (- 2 ^ 63)); [lia|].
    destruct (Z.leb_spec (2 ^ 63) limit); [lia|]. cbn [orb].
    eexists. split; [reflexivity|].
    destruct (Z.ltb limit 0).
    + split; [exact Hs|]. split; [now rewrite (Permutation_length Hp)|].
      exists []. rewrite List.app_nil_r. split; [exact Hp | intros ? ? ? []].
    + destruct (sorted_split _ (Z.to_nat limit) Hs) as [Hf Hcross].
      split; [exact Hf|]. split.
      * rewrite List.length_firstn. now rewrite (Permutation_length Hp).
      * exists (skipn (Z.to_nat limit) (newest_first (transactions s))).
        split; [|exact Hcross]. now rewrite List.firstn_skipn.
Qed.

(** ** Clearing a category *)

Section ClearedCategory.
Context {A : Type} `{Number A}.

Lemma filter_none {B} (f : B -> bool) (l : list B) :
  List.filter f (List.filter (fun x => negb (f x)) l) = [].
Proof.
  induction l as [|x l IH]; simpl; [reflexivity|].
  destruct (f x) eqn:E; simpl; [exact IH|]. now rewrite E.
Qed.

Lemma filter_all {B} (f : B -> bool) (l : list B) :
  List.filter f l = [] -> List.filter (fun x => negb (f x)) l = l.
Proof.
  induction l as [|x l IH]; simpl; [reflexivity|].
  destruct (f x); simpl; [discriminate|]. intros E. now rewrite IH.
Qed.

(** [delete_category_transactions] does not raise; the balance it leaves
    is set when a balance was set. *)
Lemma delete_category_run (category : string) (year month : Z) (s : db A) :
  let hit := in_category_month category (month_prefix year month) in
  exists b',
    delete_category_transactions category year month s
    = Returned (mkDb (debts s)
                     (List.filter (fun t => negb (hit t)) (transactions s))
                     b')
               (length (List.filter hit (transactions s)))
    /\ (balance s = None -> b' = None)
    /\ (balance s <> None -> b' <> None)
    /\ (List.filter hit (transactions s) = [] -> b' = balance s).
Proof.
  intros hit. unfold delete_category_transactions. cbv zeta. fold hit.
  fold (newest_first (List.filter hit (transactions s))).
  pose proof (newest_first_perm (List.filter hit (transactions s))) as Hp.
  rewrite (Permutation_length Hp).
  unfold get_balance, adjust_balance, get_balance, set_balance. simpl.
  destruct (balance s) as [b|]; simpl.
  - destruct (List.filter hit (transactions s)) as [|t l] eqn:E; simpl.
    + exists (Some b). repeat split; congruence.
    + eexists. split; [reflexivity|]. repeat split; congruence.
  - exists None. split; [|repeat split; congruence].
    now destruct (length (List.filter hit (transactions s))).
Qed.

(** X17.  [delete_category_transactions] does not raise.  It removes exactly
    the rows of the category whose stamp starts with the month, income
    rows as well as spends, keeps the other rows in their order and
    returns the number of rows removed; it leaves the debts alone, sets
    no balance where none was set and keeps one where one was; when
    it finds no row the store is as it was, and so a second call
    removes nothing. *)
Theorem delete_category_rows (category : string) (year month : Z) (s : db A) :
  let hit := in_category_month category (month_prefix year month) in
  let gone := List.filter hit (transactions s) in
  exists s',
    delete_category_transactions category year month s = Returned s' (length gone)
    /\ transactions s' = List.filter (fun t => negb (hit t)) (transactions s)
    /\ debts s' = debts s
    /\ (balance s' = None <-> balance s = None)
    /\ (gone = [] -> s' = s)
    /\ delete_category_transactions category year month s' = Returned s' 0%nat.
Proof.
  intros hit gone.
  destruct (delete_category_run category year month s) as (b' & Hrun & Hnone & Hsome & Hsame).
  fold hit in Hrun, Hsame. fold gone in Hrun, Hsame.
  eexists. split; [exact Hrun|].
  split; [reflexivity|]. split; [reflexivity|]. split; [|split].
  - simpl. split; [|exact Hnone].
    intros ->. destruct (balance s) as [b|] eqn:E; [|reflexivity].
    exfalso. now apply Hsome.
  - intros Hgone. rewrite (Hsame Hgone). unfold gone in Hgone.
    rewrite (filter_all hit _ Hgone). now destruct s.
  - destruct (delete_category_run category year month
                (mkDb (debts s) (List.filter (fun t => negb (hit t)) (transactions s)) b'))
      as (b2 & Hrun2 & _ & _ & Hsame2).
    fold hit in Hrun2, Hsame2. simpl in Hrun2, Hsame2.
    rewrite filter_none in Hrun2, Hsame2. rewrite (Hsame2 eq_refl) in Hrun2.
    rewrite Hrun2. simpl. f_equal. f_equal. apply filter_all, filter_none.
Qed.

End ClearedCategory.

(** ** Deleting one transaction *)



(** ** Budgets *)

Section BudgetFacts.
Context {A : Type} `{Number A}.

Definition without (category : string) (tbl : budgets_table (A := A)) : budgets_table :=
  List.filter (fun r => negb (String.eqb (fst r) category)) tbl.

Lemma get_budgets_snoc (tbl : budgets_table (A := A)) (k : string) (v : A) :
  get_budgets (tbl ++ [(k, v)]) = dict_set (get_budgets tbl) k v.
Proof. unfold get_budgets. now rewrite List.fold_left_app. Qed.

Lemma get_budgets_without (category : string) (tbl : budgets_table (A := A)) (k : string) :
  dict_get (get_budgets (without category tbl)) k
  = if String.eqb k category then None else dict_get (get_budgets tbl) k.
Proof.
  induction tbl as [|[c v] tbl IH] using List.rev_ind.
  - simpl. now destruct (String.eqb k category).
  - unfold without in *. rewrite List.filter_app. simpl.
    rewrite get_budgets_snoc.
    destruct (String.eqb_spec c category) as [Ec|Hc]; simpl.
    + rewrite List.app_nil_r, IH.
      destruct (String.eqb_spec k category) as [Ek|Hk]; [reflexivity|].
      rewrite dict_get_set_ne; [reflexivity | congruence].
    + rewrite get_budgets_snoc.
      destruct (String.eqb_spec k c) as [Ek|Hk].
      * rewrite Ek, !dict_get_set_eq.
        destruct (String.eqb_spec c category); [contradiction | reflexivity].
      * rewrite !dict_get_set_ne by congruence. exact IH.
Qed.

Lemma get_budgets_keys (tbl : budgets_table (A := A)) (k : string) :
  dict_get (get_budgets tbl) k = None
  <-> existsb (fun r => String.eqb (fst r) k) tbl = false.
Proof.
  induction tbl as [|[c v] tbl IH] using List.rev_ind; [easy|].
  rewrite get_budgets_snoc, List.existsb_app. simpl. rewrite orb_false_r.
  destruct (String.eqb_spec c k) as [->|Hc].
  - rewrite dict_get_set_eq, orb_true_r. split; discriminate.
  - rewrite dict_get_set_ne by congruence. now rewrite orb_false_r.
Qed.

Lemma without_keys (category : string) (tbl : budgets_table (A := A)) :
  List.NoDup (map fst tbl) -> List.NoDup (map fst (without category tbl)).
Proof.
  unfold without. induction tbl as [|[c v] tbl IH]; simpl; intros Hnd; [constructor|].
  inversion Hnd as [|? ? Hnotin Hnd']; subst.
  destruct (String.eqb c category); simpl; [auto|].
  constructor; [|auto]. intros Hin. apply Hnotin.
  apply List.in_map_iff in Hin. destruct Hin as [r [<- Hin]].
  apply List.filter_In in Hin. apply List.in_map. tauto.
Qed.

End BudgetFacts.

(** X20.  The budgets behave as a mapping keyed by the lower-cased category.
    [set_budget] raises when the rounded amount is not above zero and
    otherwise makes [get_budgets] give the rounded amount for the
    category, replacing what it gave before and nothing else;
    [delete_budget] tells whether [get_budgets] had the category, takes
    it out and nothing else; both keep the categories distinct. *)
Theorem budget_laws {A : Type} `{Number A} (category : string) (amount : A)
    (tbl : budgets_table (A := A)) :
  let c := lower category in
  (ngtb (nround2 amount) nzero = false ->
     set_budget category amount tbl = Raised IntegrityError)
  /\ (ngtb (nround2 amount) nzero = true ->
      exists tbl',
        set_budget category amount tbl = Returned tbl' tt
        /\ dict_get (get_budgets tbl') c = Some (nround2 amount)
        /\ (forall k, k <> c -> dict_get (get_budgets tbl') k = dict_get (get_budgets tbl) k)
        /\ (List.NoDup (map fst tbl) -> List.NoDup (map fst tbl')))
  /\ (let '(tbl', found) := delete_budget category tbl in
      (found = true <-> dict_get (get_budgets tbl) c <> None)
      /\ dict_get (get_budgets tbl') c = None
      /\ (forall k, k <> c -> dict_get (get_budgets tbl') k = dict_get (get_budgets tbl) k)
      /\ (List.NoDup (map fst tbl) -> List.NoDup (map fst tbl'))).
Proof.
  intros c. unfold set_budget, delete_budget. cbv zeta. fold c.
  fold (without c tbl).
  split; [now intros ->|]. split.
  - intros ->. eexists. split; [reflexivity|].
    rewrite get_budgets_snoc. split; [apply dict_get_set_eq|]. split.
    + intros k Hk. rewrite dict_get_set_ne by congruence.
      rewrite get_budgets_without.
      destruct (String.eqb_spec k c); [contradiction | reflexivity].
    + intros Hnd. rewrite List.map_app. simpl.
      apply Permutation_NoDup with (l := c :: map fst (without c tbl)).
      * apply Permutation_cons_append.
      * constructor; [|now apply without_keys].
        intros Hin. apply List.in_map_iff in Hin. destruct Hin as [r [Hr Hin]].
        apply List.filter_In in Hin. destruct Hin as [_ Hne].
        rewrite Hr, String.eqb_refl in Hne. discriminate.
  - split; [|split; [|split]].
    + pose proof (get_budgets_keys tbl c) as Hk.
      destruct (existsb (fun r => String.eqb (fst r) c) tbl).
      * split; [|reflexivity]. intros _ Hn. apply Hk in Hn. discriminate.
      * split; [discriminate|]. intros Hn. exfalso. apply Hn. now apply Hk.
    + rewrite get_budgets_without. now rewrite String.eqb_refl.
    + intros k Hk. rewrite get_budgets_without.
      destruct (String.eqb_spec k c); [contradiction | reflexivity].
    + apply without_keys.
Qed.

Lemma budget_laws_witness :
  let tbl : budgets_table (A := spec_float) :=
    [("food", Examples.money 80000); ("bills", Examples.money 45000)] in
  exists tbl',
    set_budget "Food" (Examples.money 100000) tbl = Returned tbl' tt
    /\ dict_get (get_budgets tbl') "food" = Some (Examples.money 100000)
    /\ dict_get (get_budgets tbl') "bills" = Some (Examples.money 45000).
Proof.
  intros tbl.
  destruct (proj1 (proj2 (budget_laws "Food" (Examples.money 100000) tbl)))
    as (tbl' & Hret & Hget & Hothers & _); [vm_compute; reflexivity|].
  assert (E : lower "Food" = "food") by (vm_compute; reflexivity).
  rewrite E in Hget, Hothers.
  exists tbl'. split; [exact Hret|]. split.
  - rewrite Hget. vm_compute. reflexivity.
  - rewrite (Hothers "bills"); [vm_compute; reflexivity | discriminate].
Defined.

(** ** Importing a statement *)

Section ImportLoop.
Context {A : Type} `{Number A}.

(** A parsed row as [handle_document] reads it: [t.get("date")],
    [t["description"]] and [t["amount"]]. *)
Record parsed := mkParsed {
  p_date : option string;
  p_description : string;
  p_amount : A;
}.

(** [imported], [total_spend] and [total_income] of [handle_document]. *)
Record tally := mkTally {
  imported : nat;
  total_spend : A;
  total_income : A;
}.

Definition tally_start : tally := mkTally 0 nzero nzero.

(** One turn of the loop [for t in transactions]; [rowid] and [now] are
    what SQLite supplies on that turn. *)
Definition import_one (rowid : Z) (now : string) (t : parsed) (st : db A * tally)
  : outcome (db A * tally) unit :=
  let category := Categories.categorize_description (p_description t) in
  let kind := if ngtb (p_amount t) nzero then Income else Spend in
  match add_transaction rowid now (nabs (p_amount t)) kind category
                        (p_description t) (p_date t) (fst st) with
  | Raised e => Raised e
  | Returned s1 _ =>
      match adjust_balance false (p_amount t) s1 with
      | Raised e => Raised e
      | Returned s2 _ =>
          let tl := snd st in
          Returned (s2,
                    match kind with
                    | Spend => mkTally (S (imported tl))
                                       (nadd (total_spend tl) (nabs (p_amount t)))
                                       (total_income tl)
                    | Income => mkTally (S (imported tl)) (total_spend tl)
                                        (nadd (total_income tl) (p_amount t))
                    end) tt
      end
  end.

Fixpoint import_loop (turns : list (Z * string * parsed)) (st : db A * tally)
  : outcome (db A * tally) unit :=
  match turns with
  | [] => Returned st tt
  | (rowid, now, t) :: rest =>
      match import_one rowid now t st with
      | Returned st' _ => import_loop rest st'
      | Raised e => Raised e
      end
  end.

End ImportLoop.

Arguments parsed A : clear implicits.
Arguments tally A : clear implicits.

(** The rows [parse_csv_transactions] returns, as the loop reads them. *)
Definition parsed_of (t : Ingest.csv_transaction) : parsed spec_float :=
  mkParsed (Ingest.x_date t) (Ingest.x_description t) (Ingest.x_amount t).

Section NoNaN.

Lemma shr_1_nonneg (mrs : shr_record) : 0 <= shr_m mrs -> 0 <= shr_m (shr_1 mrs).
Proof.
  destruct mrs as [m r s]. simpl.
  destruct m as [|[p|p|]|[p|p|]]; simpl; lia.
Qed.

Lemma iter_shr_1_nonneg (p : positive) (mrs : shr_record) :
  0 <= shr_m mrs -> 0 <= shr_m (SpecFloat.iter_pos shr_1 p mrs).
Proof.
  revert mrs. induction p as [p IH|p IH|]; intros mrs Hm; simpl.
  - apply IH, IH, shr_1_nonneg, Hm.
  - apply IH, IH, Hm.
  - apply shr_1_nonneg, Hm.
Qed.

Lemma shr_fexp_nonneg (prec emax m e : Z) (l : location) :
  0 <= m -> 0 <= shr_m (fst (shr_fexp prec emax m e l)).
Proof.
  intros Hm. unfold shr_fexp, shr.
  assert (H0 : 0 <= shr_m (shr_record_of_loc m l)).
  { destruct l as [|[]]; simpl; lia. }
  destruct (fexp prec emax (Zdigits2 m + e) - e); simpl; auto.
  now apply iter_shr_1_nonneg.
Qed.

Lemma round_nearest_even_nonneg (m : Z) (l : location) :
  0 <= m -> 0 <= round_nearest_even m l.
Proof.
  intros Hm. unfold round_nearest_even.
  destruct l as [|[]]; try lia. destruct (Z.even m); lia.
Qed.

Lemma binary_round_aux_not_nan (prec emax : Z) (s : bool) (m e : Z) (l : location) :
  0 <= m -> binary_round_aux prec emax s m e l <> S754_nan.
Proof.
  intros Hm. unfold binary_round_aux.
  pose proof (shr_fexp_nonneg prec emax m e l Hm) as H1.
  destruct (shr_fexp prec emax m e l) as [mrs e1]. simpl in H1.
  pose proof (shr_fexp_nonneg prec emax
                (round_nearest_even (shr_m mrs) (loc_of_shr_record mrs)) e1 loc_Exact
                (round_nearest_even_nonneg _ _ H1)) as H2.
  destruct (shr_fexp prec emax _ e1 loc_Exact) as [mrs2 e2]. simpl in H2.
  destruct (shr_m mrs2); [discriminate| |lia].
  destruct (Z.leb e2 (emax - prec)); discriminate.
Qed.

Lemma SFdiv_core_nonneg (prec emax : Z) (p : positive) (d : Z) :
  0 < d -> 0 <= fst (fst (SFdiv_core_binary prec emax (Zpos p) 0 d 0)).
Proof.
  intros Hd. unfold SFdiv_core_binary. cbv zeta.
  set (s := 0 - 0 - _).
  set (m' := match s with 0 => Zpos p | Z.pos _ => Z.shiftl (Zpos p) s | Z.neg _ => 0 end).
  assert (Hm : 0 <= m').
  { unfold m'. destruct s; try lia. apply Z.shiftl_nonneg. lia. }
  pose proof (Z_div_mod m' d ltac:(lia)) as Hdm.
  change IntDef.Z.div_eucl with Z.div_eucl.
  destruct (Z.div_eucl m' d) as [q r]. simpl.
  destruct Hdm as [Heq Hr]. nia.
Qed.

Lemma of_decimal_not_nan (s : bool) (n k : N) : B64.of_decimal s n k <> S754_nan.
Proof.
  unfold B64.of_decimal. destruct n as [|p]; [discriminate|].
  pose proof (SFdiv_core_nonneg B64.prec B64.emax p (10 ^ Z.of_N k)
                ltac:(apply Z.pow_pos_nonneg; lia)) as Hq.
  destruct (SFdiv_core_binary _ _ _ _ _ _) as [[mz ez] lz]. simpl in Hq.
  now apply binary_round_aux_not_nan.
Qed.

Lemma round2_not_nan (x : spec_float) : x <> S754_nan -> B64.round2 x <> S754_nan.
Proof.
  destruct x as [s|s| |s m e]; simpl; auto.
  intros _. destruct (Z.leb 0 e); [discriminate | apply of_decimal_not_nan].
Qed.

Lemma parse_amount_not_nan (value : string) (x : spec_float) :
  Ingest._parse_amount value = Some x -> x <> S754_nan.
Proof.
  unfold Ingest._parse_amount.
  assert (Hu : forall neg l, Ingest.float_of_unsigned neg l = Some x -> x <> S754_nan).
  { intros neg l. unfold Ingest.float_of_unsigned.
    destruct (Ingest.split_point l) as [ip [fp|]].
    - destruct ip as [|c ip].
      + destruct fp as [|d fp]; [discriminate|].
        destruct (Ingest.digits_value [] 0) as [ni|]; [|discriminate].
        destruct (Ingest.digits_value (d :: fp) ni) as [n|]; [|discriminate].
        intros [= <-]. apply of_decimal_not_nan.
      + destruct (Ingest.digits_value (c :: ip) 0) as [ni|]; [|discriminate].
        destruct (Ingest.digits_value fp ni) as [n|]; [|discriminate].
        intros [= <-]. apply of_decimal_not_nan.
    - destruct ip as [|c ip]; [discriminate|].
      destruct (Ingest.digits_value (c :: ip) 0) as [n|]; [|discriminate].
      intros [= <-]. apply of_decimal_not_nan. }
  unfold Ingest.float_of_points.
  destruct (Ingest.cleaned value) as [|c l]; [apply Hu|].
  destruct (Z.eq_dec c 43) as [->|H43]; [apply Hu|].
  destruct (Z.eq_dec c 45) as [->|H45]; [apply Hu|].
  destruct c as [|p|p]; try apply Hu.
  repeat (destruct p as [p|p|]; try apply Hu).
Qed.

Lemma row_amount_not_nan (amt_col debit_col credit_col : option nat)
    (row : list string) (a : spec_float) :
  Ingest.row_amount amt_col debit_col credit_col row = Some a -> a <> S754_nan.
Proof.
  unfold Ingest.row_amount.
  destruct (Ingest.cell amt_col row) as [v|]; [apply parse_amount_not_nan|].
  destruct debit_col as [dc|]; [|discriminate].
  destruct credit_col as [cc|]; [|discriminate].
  cbv zeta.
  set (debit := match row !! dc with Some v => Ingest._parse_amount v | None => None end).
  set (credit := match row !! cc with Some v => Ingest._parse_amount v | None => None end).
  assert (Hd : forall d, debit = Some d -> d <> S754_nan).
  { unfold debit. destruct (row !! dc); [apply parse_amount_not_nan | discriminate]. }
  assert (Hc : forall c, credit = Some c -> c <> S754_nan).
  { unfold credit. destruct (row !! cc); [apply parse_amount_not_nan | discriminate]. }
  assert (Hamount : match debit with
                    | Some d => if Ingest.truthy debit && SFltb Ingest.milli (SFabs d)
                                then Some (SFopp (SFabs d)) else None
                    | None => None
                    end = Some a -> a <> S754_nan).
  { destruct debit as [d|]; [|discriminate].
    destruct (Ingest.truthy (Some d) && SFltb Ingest.milli (SFabs d)); [|discriminate].
    intros [= <-]. specialize (Hd d eq_refl). now destruct d. }
  destruct credit as [c|]; [|exact Hamount].
  destruct (Ingest.truthy (Some c) && SFltb Ingest.milli (SFabs c)); [|exact Hamount].
  intros [= <-]. specialize (Hc c eq_refl). now destruct c.
Qed.

Lemma parse_rows_not_nan (rows : list (list string)) (t : Ingest.csv_transaction) :
  In t (fst (Ingest.parse_rows rows)) -> Ingest.x_amount t <> S754_nan.
Proof.
  unfold Ingest.parse_rows.
  destruct rows as [|row0 rows0]; [intros []|].
  destruct (Ingest.find_header (row0 :: rows0)) as [[headers data]|]; [|intros []].
  cbv zeta.
  generalize (Ingest._find_col headers Ingest.DATE_COLS)
             (Ingest._find_col headers Ingest.DESC_COLS)
             (Ingest._find_col headers Ingest.AMOUNT_COLS)
             (Ingest._find_col headers Ingest.DEBIT_COLS)
             (Ingest._find_col headers Ingest.CREDIT_COLS).
  intros date_col desc_col amt_col debit_col credit_col.
  assert (Hfold : forall acc,
            (forall t', In t' (fst acc) -> Ingest.x_amount t' <> S754_nan) ->
            forall t', In t' (fst (fold_left
                           (Ingest.ingest_row date_col desc_col amt_col debit_col credit_col)
                           data acc)) ->
                       Ingest.x_amount t' <> S754_nan).
  { induction data as [|row data IH]; intros acc Hacc; [exact Hacc|].
    simpl. apply IH. unfold Ingest.ingest_row.
    destruct (Ingest.is_blank row); [exact Hacc|].
    destruct (Ingest.row_amount amt_col debit_col credit_col row) as [a|] eqn:Ea;
      simpl; [|exact Hacc].
    intros t' Hin. apply List.in_app_iff in Hin.
    destruct Hin as [Hin|[<-|[]]]; [auto|].
    simpl. eapply round2_not_nan, row_amount_not_nan, Ea. }
  apply Hfold. intros t' [].
Qed.

Lemma not_below_zero (y : spec_float) :
  sign_is false y -> y <> S754_nan -> SFleb (S754_zero false) y = true.
Proof.
  destruct y as [s|s| |s m e]; simpl; try congruence; now intros ->.
Qed.

(** The amount [add_transaction] stores for a number passes the
    [CHECK] of its column. *)
Lemma stored_amount_passes (x : spec_float) :
  x <> S754_nan -> SFleb (S754_zero false) (B64.round2 (SFabs (SFabs x))) = true.
Proof.
  intros Hx. apply not_below_zero.
  - apply round2_sign. now destruct x.
  - apply round2_not_nan. now destruct x.
Qed.

Lemma import_loop_floats (turns : list (Z * string * parsed spec_float))
    (st : db spec_float * tally spec_float) :
  (forall turn, In turn turns -> p_amount (snd turn) <> S754_nan) ->
  exists s' tl,
    import_loop turns st = Returned (s', tl) tt
    /\ imported tl = (imported (snd st) + length turns)%nat
    /\ length (transactions s') = (length (transactions (fst st)) + length turns)%nat.
Proof.
  revert st. induction turns as [|[[rowid now] t] turns IH]; intros [s tl] Hok.
  - exists s, tl. simpl. split; [reflexivity|]. split; lia.
  - assert (Ht : p_amount t <> S754_nan) by (apply (Hok (rowid, now, t)); now left).
    simpl import_loop. unfold import_one, add_transaction. cbv zeta. simpl fst. simpl snd.
    change (nleb nzero (nround2 (nabs (nabs (p_amount t)))))
      with (SFleb (S754_zero false) (B64.round2 (SFabs (SFabs (p_amount t))))).
    rewrite (stored_amount_passes _ Ht).
    unfold adjust_balance, get_balance, set_balance. simpl balance.
    set (row := mkTx rowid _ _ _ _ _).
    assert (Hrest : forall turn, In turn turns -> p_amount (snd turn) <> S754_nan)
      by (intros; apply Hok; now right).
    destruct (balance s) as [b|].
    + edestruct IH as (s2 & tl2 & Hrun & Himp & Hlen); [exact Hrest|].
      exists s2, tl2. split; [exact Hrun|]. clear Hrun.
      revert Himp. simpl in Hlen. rewrite List.length_app in Hlen. simpl in Hlen.
      destruct (ngtb (p_amount t) nzero); simpl; intros Himp; split; lia.
    + edestruct IH as (s2 & tl2 & Hrun & Himp & Hlen); [exact Hrest|].
      exists s2, tl2. split; [exact Hrun|]. clear Hrun.
      revert Himp. simpl in Hlen. rewrite List.length_app in Hlen. simpl in Hlen.
      destruct (ngtb (p_amount t) nzero); simpl; intros Himp; split; lia.
Qed.

End NoNaN.

(** X21.  On doubles: no transaction [parse_csv_transactions] returns carries
    NaN as its amount, and the import loop of [handle_document] stores
    every one of them without an exception, whatever the file and the
    store. *)
Theorem import_never_raises (csv_text : string)
    (txs : list Ingest.csv_transaction) (errs : list Ingest.ingest_error) :
  Ingest.parse_csv_transactions csv_text = Some (txs, errs) ->
  (forall t, In t txs -> Ingest.x_amount t <> S754_nan)
  /\ forall turns s,
       map snd turns = map parsed_of txs ->
       exists s' tl,
         import_loop turns (s, tally_start) = Returned (s', tl) tt
         /\ imported tl = length txs
         /\ length (transactions s') = (length (transactions s) + length txs)%nat.
Proof.
  unfold Ingest.parse_csv_transactions.
  destruct (Csv.csv_reader csv_text) as [rows|]; [|discriminate].
  intros [= Hrows].
  assert (Hnan : forall t, In t txs -> Ingest.x_amount t <> S754_nan).
  { intros t Hin. apply (parse_rows_not_nan rows). now rewrite Hrows. }
  split; [exact Hnan|].
  intros turns s Hturns.
  destruct (import_loop_floats turns (s, tally_start)) as (s' & tl & Hrun & Himp & Hlen).
  { intros turn Hin.
    assert (Hp : In (snd turn) (map parsed_of txs))
      by (rewrite <- Hturns; now apply List.in_map).
    apply List.in_map_iff in Hp. destruct Hp as [t [<- Ht]]. now apply Hnan. }
  assert (Hl : length turns = length txs).
  { rewrite <- (List.length_map snd turns), Hturns. apply List.length_map. }
  exists s', tl. split; [exact Hrun|]. simpl in Himp, Hlen. split; lia.
Qed.

Lemma import_never_raises_witness :
  exists s' tl,
    import_loop [(9, "2026-03-01 08:00:00", parsed_of Statements.groceries)]
                (Stores.with_balance, tally_start)
    = Returned (s', tl) tt
    /\ imported tl = 1%nat.
Proof.
  destruct (proj2 (import_never_raises Statements.round_trip [Statements.groceries] []
                     ltac:(vm_compute; reflexivity))
              [(9, "2026-03-01 08:00:00", parsed_of Statements.groceries)]
              Stores.with_balance eq_refl)
    as (s' & tl & Hrun & Himp & _).
  exists s', tl. split; [exact Hrun | exact Himp].
Defined.

(** ** Rows above the header *)

Section Preamble.
Import Ingest.

Lemma find_header_preamble (preamble rows : list (list string)) :
  (forall r, In r preamble -> is_header r = false) ->
  find_header (preamble ++ rows) = find_header rows.
Proof.
  induction preamble as [|r preamble IH]; simpl; intros Hp; [reflexivity|].
  rewrite (Hp r (or_introl eq_refl)). apply IH. intros; apply Hp; now right.
Qed.

End Preamble.

(** X23.  Rows above the header row, none of which holds a known date,
    description or amount column name, are passed over in silence: with
    them or without them the transactions and the errors are the same. *)
Theorem preamble_ignored (preamble rows : list (list string)) :
  (forall r, In r preamble -> Ingest.is_header r = false) ->
  Ingest.find_header rows <> None ->
  Ingest.parse_rows (preamble ++ rows) = Ingest.parse_rows rows.
Proof.
  intros Hp Hh. unfold Ingest.parse_rows.
  rewrite (find_header_preamble preamble rows Hp).
  destruct rows as [|row rows]; [now contradiction Hh|].
  destruct (preamble ++ row :: rows) as [|r l] eqn:E; [|reflexivity].
  now apply List.app_eq_nil in E.
Qed.

Lemma preamble_ignored_witness :
  Ingest.parse_rows ([["First Gulf Bank"]; ["Account"; "0012-3456"]; ["not a number"]]
                     ++ [["Date"; "Amount"]; ["2026-02-26"; "-50.00"]])
  = Ingest.parse_rows [["Date"; "Amount"]; ["2026-02-26"; "-50.00"]].
Proof.
  apply preamble_ignored.
  - intros r [<-|[<-|[<-|[]]]]; reflexivity.
  - discriminate.
Defined.

(** ** Mappings of one sign *)

(** X24.  In every arithmetic, doubles included: when no entry of the mapping
    is above zero, or none is below zero, [minimal_transfers] returns the
    empty plan at once.  The nets [compute_balances] gives are relative
    to the owner, who is not in the mapping, so people who all owe the
    owner get no transfer. *)
Theorem one_sided_plan_empty {A : Type} `{Number A} (balances : dict A) (fuel : nat) :
  (forall kv, In kv balances -> ngtb (snd kv) nzero = false)
  \/ (forall kv, In kv balances -> nltb (snd kv) nzero = false) ->
  minimal_transfers fuel balances = Some [].
Proof.
  intros Hside. unfold minimal_transfers, loop_init.
  assert (Hb : loop_body (mkLoop (creditors_of balances) (debtors_of balances) 0 0 [])
               = None).
  { unfold loop_body. simpl.
    destruct Hside as [Hc|Hd].
    - unfold creditors_of. now rewrite (filter_nil_all _ _ Hc).
    - unfold debtors_of. rewrite (filter_nil_all _ _ Hd). simpl.
      now destruct (creditors_of balances !! 0%nat) as [[credit creditor]|]. }
  destruct fuel; simpl; now rewrite Hb.
Qed.

Lemma one_sided_plan_empty_witness :
  minimal_transfers 0
    [("alice", Examples.money 4550); ("bob", Examples.money 1200)]
  = Some [].
Proof.
  apply one_sided_plan_empty. right.
  intros kv [<-|[<-|[]]]; reflexivity.
Defined.

(** ** Paying for someone *)

Section Paid.
Context {A : Type} `{Number A}.

(** The store part of [paid] of [bot.py]: what the handler leaves
    committed, and the exception that ended it, if one did.  [person] is
    [other_person]; the stamps and the row id are SQLite's. *)
Definition paid_store (debt_now : string) (rowid : Z) (tx_now : string) (amount : A)
    (description : string) (other_person : option string) (s : db A)
  : db A * option db_error :=
  let category := Categories.categorize_description description in
  match other_person with
  | Some (String c rest) =>
      let person := String c rest in
      match add_debt debt_now "me" person amount description s with
      | Raised e => (s, Some e)
      | Returned s1 _ =>
          match add_transaction rowid tx_now amount Spend category
                  (String.append description
                     (String.append " (paid for @" (String.append person ")")))
                  None s1 with
          | Raised e => (s1, Some e)
          | Returned s2 _ =>
              match adjust_balance false (nneg amount) s2 with
              | Raised e => (s2, Some e)
              | Returned s3 _ => (s3, None)
              end
          end
      end
  | _ =>
      match add_transaction rowid tx_now amount Spend category description None s with
      | Raised e => (s, Some e)
      | Returned s1 _ =>
          match adjust_balance false (nneg amount) s1 with
          | Raised e => (s1, Some e)
          | Returned s2 _ => (s2, None)
          end
      end
  end.

End Paid.

Section PaidFloats.

Lemma above_zero_rounded (a : spec_float) :
  SFltb (S754_zero false) (B64.round2 a) = true ->
  SFabs a = a /\ SFleb (S754_zero false) (B64.round2 a) = true.
Proof.
  intros Hlt. split.
  - destruct a as [s|s| |[] m e]; try reflexivity; try discriminate.
    + now destruct s.
    + rewrite (negative_not_above_zero _
                 (round2_sign true (S754_finite true m e) eq_refl)) in Hlt.
      discriminate.
  - unfold SFltb in Hlt. unfold SFleb.
    now destruct (SFcompare (S754_zero false) (B64.round2 a)) as [[]|].
Qed.

End PaidFloats.

(** X25.  On doubles, [paid] with a person is all or nothing: when the rounded
    amount is not above zero [add_debt] raises and nothing is stored;
    otherwise the debt row, the spend of the same rounded amount and the
    lowered balance are all stored, and no later step can raise and
    leave the debt without its spend. *)
Theorem paid_all_or_nothing (debt_now : string) (rowid : Z) (tx_now : string)
    (amount : spec_float) (description person : string) (s : db spec_float) :
  person <> EmptyString ->
  let result := paid_store debt_now rowid tx_now amount description (Some person) s in
  (SFltb (S754_zero false) (B64.round2 amount) = false
   /\ result = (s, Some IntegrityError))
  \/ (SFltb (S754_zero false) (B64.round2 amount) = true
      /\ snd result = None
      /\ debts (fst result)
         = debts s ++ [mkDebt (next_debt_id (debts s)) "me" (lower person)
                              (B64.round2 amount) description false debt_now]
      /\ transactions (fst result)
         = transactions s
           ++ [mkTx rowid (B64.round2 amount) Spend
                    (Categories.categorize_description description)
                    (String.append description
                       (String.append " (paid for @" (String.append person ")")))
                    tx_now]
      /\ balance (fst result)
         = option_map (fun b => B64.round2 (B64.add b (SFopp amount))) (balance s)).
Proof.
  intros Hperson result. subst result.
  destruct person as [|c rest]; [contradiction|].
  unfold paid_store, add_debt. cbv zeta.
  change (ngtb (nround2 amount) nzero) with (SFltb (S754_zero false) (B64.round2 amount)).
  destruct (SFltb (S754_zero false) (B64.round2 amount)) eqn:Ea; [right | now left].
  destruct (above_zero_rounded amount Ea) as [Habs Hle].
  unfold add_transaction. cbv zeta.
  change (nleb nzero (nround2 (nabs amount)))
    with (SFleb (S754_zero false) (B64.round2 (SFabs amount))).
  rewrite Habs, Hle.
  unfold adjust_balance, get_balance, set_balance. simpl balance.
  change (nabs amount) with (SFabs amount). rewrite Habs.
  split; [reflexivity|].
  destruct (balance s) as [b|]; simpl; repeat split; reflexivity.
Qed.

Lemma paid_all_or_nothing_witness :
  paid_store "2026-03-01 20:00:00" 9 "2026-03-01 20:00:01"
             (SFopp (Examples.money 4550)) "dinner" (Some "alice") Stores.with_balance
  = (Stores.with_balance, Some IntegrityError).
Proof.
  destruct (paid_all_or_nothing "2026-03-01 20:00:00" 9 "2026-03-01 20:00:01"
              (SFopp (Examples.money 4550)) "dinner" "alice" Stores.with_balance)
    as [[_ Hres]|[Hpos _]].
  - discriminate.
  - exact Hres.
  - vm_compute in Hpos. discriminate.
Defined.

(** ** Plain statements *)

Section PlainText.
Import Csv.

Definition QUOTE : ascii := "034"%char.

Fixpoint all_chars (p : ascii -> bool) (s : string) : bool :=
  match s with
  | EmptyString => true
  | String c s' => p c && all_chars p s'
  end.

(** Neither a double quote nor a carriage return. *)
Definition plain_char (c : ascii) : bool :=
  negb (Ascii.eqb c QUOTE) && negb (Ascii.eqb c CR).

(** A plain character that is no line feed either. *)
Definition body_char (c : ascii) : bool :=
  plain_char c && negb (Ascii.eqb c LF).

(** A line cut at its commas, left to right; [cur] is the field being
    read. *)
Fixpoint split_acc (cur : string) (s : string) : list string :=
  match s with
  | EmptyString => [cur]
  | String c s' =>
      if Ascii.eqb c ","%char then cur :: split_acc "" s'
      else split_acc (String.append cur (String c "")) s'
  end.

(** An empty line gives an empty record. *)
Definition record_of (body : string) : list string :=
  match body with
  | EmptyString => []
  | _ => split_acc "" body
  end.

(** The records of a plain text: its lines, each cut at its commas; a
    last line without a line feed counts when it is not empty. *)
Fixpoint plain_records (cur : string) (text : string) : list (list string) :=
  match text with
  | EmptyString => match cur with EmptyString => [] | _ => [record_of cur] end
  | String c text' =>
      if Ascii.eqb c LF then record_of cur :: plain_records "" text'
      else plain_records (String.append cur (String c "")) text'
  end.

Definition open_field (r : reader) : Prop :=
  match state r with
  | START_RECORD | START_FIELD | IN_FIELD => True
  | _ => False
  end.

Definition in_record (r : reader) : Prop :=
  match state r with
  | START_FIELD | IN_FIELD => True
  | _ => False
  end.

Lemma feed_plain (s : string) (r : reader) :
  all_chars body_char s = true ->
  open_field r ->
  (field_len r + characters s <= field_limit)%N ->
  exists r',
    feed s r = Some r'
    /\ fields r' ++ [field r'] = fields r ++ split_acc (field r) s
    /\ (s <> EmptyString -> in_record r')
    /\ (s = EmptyString -> r' = r).
Proof.
  revert r. induction s as [|c s IH]; intros r Hs Hopen Hlen.
  - exists r. simpl. split; [reflexivity|]. split; [reflexivity|].
    split; [congruence | reflexivity].
  - simpl in Hs. apply andb_true_iff in Hs. destruct Hs as [Hc Hs].
    unfold body_char, plain_char in Hc.
    apply andb_true_iff in Hc. destruct Hc as [Hc Hlf].
    apply andb_true_iff in Hc. destruct Hc as [Hq Hcr].
    apply negb_true_iff in Hq, Hcr, Hlf.
    assert (Hnl : is_newline c = false).
    { unfold is_newline. unfold LF in Hlf. unfold CR in Hcr. now rewrite Hlf, Hcr. }
    unfold QUOTE in Hq.
    simpl in Hlen. unfold one_character in Hlen.
    assert (Hstep : exists r1,
              parse_process_char r (Some c) = Some r1
              /\ in_record r1
              /\ (field_len r1 <= field_len r + (if continuation c then 0 else 1))%N
              /\ fields r1 ++ split_acc (field r1) s
                 = fields r ++ split_acc (field r) (String c s)).
    { assert (Hcase : exists r1,
                start_field r (Some c) = Some r1
                /\ in_record r1
                /\ (field_len r1 <= field_len r + (if continuation c then 0 else 1))%N
                /\ fields r1 ++ split_acc (field r1) s
                   = fields r ++ split_acc (field r) (String c s)).
      { unfold start_field. rewrite Hnl, Hq. simpl split_acc.
        destruct (Ascii.eqb c ",") eqn:Ecomma.
        - eexists. split; [reflexivity|]. simpl.
          split; [exact I|]. split; [lia|]. now rewrite <- List.app_assoc.
        - unfold parse_add_char.
          destruct (continuation c).
          { eexists. split; [reflexivity|]. simpl.
            split; [exact I|]. split; [lia | reflexivity]. }
          destruct (N.leb_spec field_limit (field_len r)); [lia|].
          eexists. split; [reflexivity|]. simpl.
          split; [exact I|]. split; [lia | reflexivity]. }
      unfold parse_process_char. unfold open_field in Hopen.
      destruct (state r) eqn:Est; try contradiction.
      - rewrite Hnl. exact Hcase.
      - exact Hcase.
      - rewrite Hnl. unfold start_field in Hcase. rewrite Hnl, Hq in Hcase.
        exact Hcase. }
    destruct Hstep as (r1 & Hstep & Hin1 & Hlen1 & Hsplit).
    destruct (IH r1 Hs) as (r' & Hfeed & Hfields & Hrec & Hsame).
    { unfold open_field. unfold in_record in Hin1. destruct (state r1); auto. }
    { lia. }
    exists r'. simpl. rewrite Hstep. split; [exact Hfeed|].
    split; [now rewrite Hfields|]. split; [|discriminate].
    intros _. destruct s as [|d s]; [now rewrite (Hsame eq_refl) | apply Hrec; discriminate].
Qed.

Lemma all_chars_snoc (p : ascii -> bool) (s : string) (c : ascii) :
  all_chars p (String.append s (String c "")) = all_chars p s && p c.
Proof.
  induction s as [|d s IH].
  - simpl. now rewrite andb_true_r.
  - change (p d && all_chars p (String.append s (String c "")) = p d && all_chars p s && p c).
    rewrite IH. now rewrite andb_assoc.
Qed.

(** The reader over the record that holds the characters of a line. *)
Lemma line_record (cur : string) (newline : bool) :
  all_chars body_char cur = true ->
  (characters cur <= field_limit)%N ->
  (newline = false -> cur <> EmptyString) ->
  exists r',
    process_line (if newline then String.append cur (String LF "") else cur) parse_reset
    = Some r'
    /\ is_start (state r') = true
    /\ fields r' = record_of cur.
Proof.
  intros Hcur Hlen Hne.
  destruct (feed_plain cur parse_reset Hcur I) as (r1 & Hfeed & Hfields & Hrec & Hsame).
  { change (field_len parse_reset) with 0%N. lia. }
  change (fields parse_reset) with (@nil string) in Hfields.
  change (field parse_reset) with EmptyString in Hfields. simpl in Hfields.
  rewrite process_line_feed.
  destruct cur as [|c cur].
  - destruct newline; [|now contradiction Hne].
    change (String.append "" (String LF "")) with (String LF "").
    eexists. split; [reflexivity|]. split; reflexivity.
  - specialize (Hrec ltac:(discriminate)). unfold in_record in Hrec.
    change (record_of (String c cur)) with (split_acc "" (String c cur)).
    destruct newline.
    + rewrite feed_snoc, Hfeed.
      unfold parse_process_char, start_field.
      destruct (state r1) eqn:Est; try contradiction; simpl.
      * eexists. split; [reflexivity|]. simpl. split; [reflexivity | exact Hfields].
      * eexists. split; [reflexivity|]. simpl. split; [reflexivity | exact Hfields].
    + rewrite Hfeed. unfold parse_process_char, start_field.
      destruct (state r1) eqn:Est; try contradiction; simpl.
      * eexists. split; [reflexivity|]. simpl. split; [reflexivity | exact Hfields].
      * eexists. split; [reflexivity|]. simpl. split; [reflexivity | exact Hfields].
Qed.

Lemma read_plain (text cur : string) (acc : list (list string)) :
  all_chars body_char cur = true ->
  all_chars plain_char text = true ->
  (characters cur + characters text <= field_limit)%N ->
  read_records (lines_from cur text) parse_reset acc
  = Some (acc ++ plain_records cur text).
Proof.
  revert cur acc. induction text as [|c text IH]; intros cur acc Hcur Htext Hlen.
  - simpl. destruct cur as [|d cur].
    + simpl. now rewrite List.app_nil_r.
    + rewrite read_records_cons.
      destruct (line_record (String d cur) false Hcur) as (r' & Hrun & Hst & Hf).
      { change (characters "") with 0%N in Hlen. lia. }
      { discriminate. }
      cbv iota in Hrun. rewrite Hrun, Hst, Hf. reflexivity.
  - simpl in Htext. apply andb_true_iff in Htext. destruct Htext as [Hc Htext].
    simpl lines_from. simpl plain_records.
    change (Ascii.eqb c LF) with (Ascii.eqb c "010"%char).
    assert (Hlen' : (characters cur + one_character c + characters text
                     <= field_limit)%N).
    { change (characters (String c text))
        with (one_character c + characters text)%N in Hlen. lia. }
    destruct (Ascii.eqb c "010") eqn:Elf.
    + apply Ascii.eqb_eq in Elf. subst c.
      rewrite read_records_cons.
      destruct (line_record cur true Hcur) as (r' & Hrun & Hst & Hf);
        [lia | discriminate |].
      cbv iota in Hrun. unfold LF in Hrun. rewrite Hrun, Hst, Hf.
      rewrite (IH "" (acc ++ [record_of cur])); [|reflexivity|assumption|simpl; lia].
      now rewrite <- List.app_assoc.
    + apply IH; [|assumption|rewrite characters_snoc; lia].
      rewrite all_chars_snoc, Hcur. unfold body_char. rewrite Hc.
      unfold LF. now rewrite Elf.
Qed.

End PlainText.

(** X26.  A text of at most 131072 characters without a double quote and
    without a carriage return is read as its lines, each cut at its
    commas: an empty line gives an empty record, and a last line without
    a line feed counts when it is not empty. *)
Theorem plain_text_records (csv_text : string) :
  all_chars plain_char csv_text = true ->
  (N.of_nat (length (Utf8.points csv_text)) <= Csv.field_limit)%N ->
  Csv.csv_reader csv_text = Some (plain_records "" csv_text).
Proof.
  intros Hplain Hlen. unfold Csv.csv_reader.
  rewrite (read_plain csv_text "" []); [reflexivity | reflexivity | assumption|].
  pose proof (characters_points csv_text). simpl. lia.
Qed.

Lemma plain_text_records_witness :
  Csv.csv_reader Statements.mixed = Some [["amount"]; ["1.50"]; ["abc"]; ["-2"]].
Proof.
  rewrite (plain_text_records Statements.mixed); [reflexivity | reflexivity|].
  vm_compute. discriminate.
Defined.

(** ** Clearing a category through the handler *)

Section ClearCategory.
Context {A : Type} `{Number A}.

(** The store part of [clearcategory] of [bot.py]: the handler adds up
    the month's spends of the category and refuses ([None]) when the sum
    is zero. *)
Definition clearcategory_store (category : string) (year month : Z) (s : db A)
  : outcome (db A) (option nat) :=
  let category := lower category in
  let rows := get_monthly_transactions year month s in
  let cat_spend :=
    fold_left nadd
      (map t_amount
           (List.filter (fun r => is_spend r && String.eqb (t_category r) category) rows))
      nzero in
  if neqb cat_spend nzero then Returned s None
  else
    match delete_category_transactions category year month s with
    | Returned s' count => Returned s' (Some count)
    | Raised e => Raised e
    end.

End ClearCategory.

Section ClearCategoryFacts.

Lemma In_newest_first (l : list (transaction spec_float)) (t : transaction spec_float) :
  In t (newest_first l) <-> In t l.
Proof.
  split; apply Permutation_in; [|symmetry]; apply newest_first_perm.
Qed.

End ClearCategoryFacts.

(** X27.  The handler [clearcategory] does not raise in the store.  It
    refuses, and leaves the store as it is, when the spends of the
    lower-cased category in the month add up to zero: so always when
    the category holds no spend in the month, even if it holds income
    rows there.  When it does not refuse it does what
    [delete_category_transactions] does, and that removes at least one
    row, so the handler never reports that clearing failed. *)
Theorem clearcategory_refuses (category : string) (year month : Z) (s : db spec_float) :
  let c := lower category in
  let hit := in_category_month c (month_prefix year month) in
  exists s' r,
    clearcategory_store category year month s = Returned s' r
    /\ (r = None -> s' = s)
    /\ (forall n, r = Some n ->
         (0 < n)%nat
         /\ delete_category_transactions c year month s = Returned s' n)
    /\ ((forall t, In t (transactions s) -> hit t = true -> is_spend t = false) ->
        r = None).
Proof.
  intros c hit. unfold clearcategory_store. cbv zeta. fold c.
  set (spends := List.filter (fun r => is_spend r && String.eqb (t_category r) c)
                             (get_monthly_transactions year month s)).
  assert (Hspends : forall t, In t spends ->
                      In t (transactions s) /\ hit t = true /\ is_spend t = true).
  { intros t Ht. apply List.filter_In in Ht. destruct Ht as [Ht Hf].
    apply andb_true_iff in Hf. destruct Hf as [Hsp Hcat].
    unfold get_monthly_transactions in Ht. apply In_newest_first, List.filter_In in Ht.
    destruct Ht as [Ht Hpre]. unfold hit, in_category_month.
    now rewrite Hcat, Hpre. }
  destruct (neqb (fold_left nadd (map t_amount spends) nzero) nzero) eqn:Ez.
  - exists s, None. split; [reflexivity|]. split; [reflexivity|].
    split; [discriminate | reflexivity].
  - destruct (delete_category_run c year month s) as (b' & Hrun & _).
    fold hit in Hrun. rewrite Hrun.
    eexists _, _. split; [reflexivity|]. split; [discriminate|].
    assert (Hsome : exists t, In t spends).
    { destruct spends as [|t l]; [discriminate Ez | exists t; now left]. }
    destruct Hsome as (t & Ht). destruct (Hspends t Ht) as (Hin & Hhit & Hsp).
    split.
    + intros n [= <-]. split; [|reflexivity].
      assert (Hg : In t (List.filter hit (transactions s)))
        by (apply List.filter_In; auto).
      destruct (List.filter hit (transactions s)); [destruct Hg | simpl; lia].
    + intros Hno. rewrite (Hno t Hin Hhit) in Hsp. discriminate.
Qed.
